(** * boardd: the board daemon of selfdrive/boardd/boardd.cc

    A shallow embedding of the daemon's loops.  Every loop body is a
    function from what the iteration reads (polled health, clocks, the
    parameter store, the received message) and the state it keeps to the
    new state and the list of commands it issues, in program order. *)

From Stdlib Require Import ZArith List String Bool Lia.
From Stdlib.Strings Require Import Byte.
Import ListNotations.
Local Open Scope Z_scope.

(** ** Machine arithmetic *)

Module Machine.

(** [uint64_t], [uint32_t]: values of Z reduced modulo the width. *)
Definition u64 (z : Z) : Z := z mod 2 ^ 64.
Definition u32 (z : Z) : Z := z mod 2 ^ 32.

(** [(int64_t) x] for an unsigned 64-bit [x]. *)
Definition i64_of_u64 (z : Z) : Z :=
  if z <? 2 ^ 63 then z else z - 2 ^ 64.

(** [a - b] on [uint64_t]. *)
Definition u64_sub (a b : Z) : Z := u64 (a - b).

(** Rounding of the non-negative rational [num / den] to the nearest
    integer, ties to the even one (the IEEE 754 default). *)
Definition round_half_even (num den : Z) : Z :=
  let q := num / den in
  let r := num mod den in
  if 2 * r <? den then q
  else if den <? 2 * r then q + 1
  else if Z.even q then q else q + 1.

(** A binary floating-point value [mant * 2 ^ expo]. *)
Record binfloat : Type := BinFloat { mant : Z; expo : Z }.

(** [num / den / 2 ^ e] rounded to an integer. *)
Definition round_scaled (num den e : Z) : Z :=
  if 0 <=? e then round_half_even num (den * 2 ^ e)
  else round_half_even (num * 2 ^ (- e)) den.

(** [floor (log2 (num / den))] for [num, den > 0]. *)
Definition ratio_log2 (num den : Z) : Z :=
  let k := Z.log2 num - Z.log2 den in
  let below :=
    if 0 <=? k then num <? den * 2 ^ k else num * 2 ^ (- k) <? den in
  if below then k - 1 else k.

(** The non-negative rational [num / den] rounded to a binary float of
    [prec] significant bits (normal range: the values of this program
    stay far from overflow and from subnormals). *)
Definition fround (prec num den : Z) : binfloat :=
  if num <=? 0 then BinFloat 0 0
  else
    let e := ratio_log2 num den - (prec - 1) in
    BinFloat (round_scaled num den e) e.

(** The value of a float as a fraction. *)
Definition fnum (x : binfloat) : Z :=
  if 0 <=? expo x then mant x * 2 ^ expo x else mant x.
Definition fden (x : binfloat) : Z :=
  if 0 <=? expo x then 1 else 2 ^ (- expo x).

Section Arith.
Variable prec : Z.
Definition fof_Z (n : Z) : binfloat := fround prec n 1.
Definition fof_ratio (num den : Z) : binfloat := fround prec num den.
Definition fadd (x y : binfloat) : binfloat :=
  fround prec (fnum x * fden y + fnum y * fden x) (fden x * fden y).
Definition fsub (x y : binfloat) : binfloat :=
  fround prec (fnum x * fden y - fnum y * fden x) (fden x * fden y).
Definition fmul (x y : binfloat) : binfloat :=
  fround prec (fnum x * fnum y) (fden x * fden y).
Definition fdiv (x y : binfloat) : binfloat :=
  fround prec (fnum x * fden y) (fden x * fnum y).
End Arith.

(** [float] is binary32 (24 bits), [double] binary64 (53 bits). *)
Definition f32 : Z := 24.
Definition f64 : Z := 53.

(** Conversion of a non-negative float to an unsigned integer type
    truncates. *)
Definition ftrunc (x : binfloat) : Z := fnum x / fden x.

(** [(double) n] for a [uint64_t] [n], as the integer it denotes. *)
Definition double_of_u64 (n : Z) : Z := ftrunc (fof_Z f64 n).

End Machine.

(** ** Infra-red illuminator power (hardware_control_thread) *)

Module IR.
Import Machine.

Definition MAX_IR_POWER : binfloat := fof_ratio f32 1 2.   (* 0.5f *)
Definition MIN_IR_POWER : binfloat := fof_ratio f32 0 1.   (* 0.0f *)
Definition CUTOFF_IL : Z := 200.
Definition SATURATE_IL : Z := 1600.

(** The assignment to [ir_pwr] in the [driverCameraState] branch, for the
    value of [cur_integ_lines] (an [int]) that reaches it.  The literal
    [100.0] is a double, the macro operands are floats, so the quotient is
    rounded to binary32 and the product is taken in binary64; the
    assignment to the [uint16_t] truncates. *)
Definition ir_pwr_of (cur_integ_lines : Z) : Z :=
  if cur_integ_lines <=? CUTOFF_IL then
    ftrunc (fmul f64 (fof_Z f64 100) MIN_IR_POWER)
  else if SATURATE_IL <? cur_integ_lines then
    ftrunc (fmul f64 (fof_Z f64 100) MAX_IR_POWER)
  else
    ftrunc
      (fmul f64 (fof_Z f64 100)
         (fadd f32 MIN_IR_POWER
            (fdiv f32
               (fmul f32 (fof_Z f32 (cur_integ_lines - CUTOFF_IL))
                  (fsub f32 MAX_IR_POWER MIN_IR_POWER))
               (fof_Z f32 (SATURATE_IL - CUTOFF_IL))))).

(** The spec's formula for the linear range, [100 * (0.5 * (integLines -
    200) / 1400)], in exact arithmetic and truncated to an integer
    percent. *)
Definition ir_pwr_exact (integ_lines : Z) : Z :=
  100 * (integ_lines - CUTOFF_IL) / (2 * (SATURATE_IL - CUTOFF_IL)).

(** The values of [integLines] in the linear range where the exact
    quotient is [k / 100] for a whole [k] and binary32 rounds it below,
    so that the product with [100.0] falls just short of [k]. *)
Definition rounded_below : list Z :=
  [228; 256; 284; 312; 368; 424; 508; 536; 564; 648; 732; 788; 816; 872;
   928; 1012; 1096; 1180; 1264; 1292; 1348; 1376; 1432; 1460; 1516; 1544].

Definition is_rounded_below (integ_lines : Z) : bool :=
  existsb (Z.eqb integ_lines) rounded_below.

End IR.

(** The integers [lo, lo + 1, ..., lo + n - 1]. *)
Definition zrange (lo : Z) (n : nat) : list Z :=
  map (fun k => lo + Z.of_nat k) (seq 0 n).

(** ** Boards, health snapshots and commands *)

Inductive Board : Type := Main | Aux.

Inductive ParamTag : Type := CLEAR_ON_IGNITION_ON | CLEAR_ON_IGNITION_OFF.

(** The fields of [health_t] that the loops read (all [uint8_t]). *)
Record health_t : Type := Health {
  ignition_line : Z;
  ignition_can : Z;
  safety_model : Z;
  power_save_enabled : Z
}.

(** What a loop does to the outside: calls on a board handle, on the
    parameter store, on the GPS receiver, published messages, log lines,
    the launch of a thread and the store to the atomic flag that guards
    it. *)
Inductive Event : Type :=
| GetState (b : Board)
| SetSafetyModel (b : Board) (model param : Z)
| SetUnsafeMode (b : Board) (mode : Z)
| SetPowerSaving (b : Board) (on : bool)
| ClearAll (tag : ParamTag)
| StoreSetterRunning (v : bool)     (* safety_setter_thread_running = v *)
| SpawnSafetySetter
| GetRtc (b : Board)
| SetRtc (b : Board) (secs : Z)
| GetFanSpeed (b : Board)
| SendPandaState (ignitionLine : bool)
| SendHeartbeat (b : Board)
| CanSend (b : Board) (batch : list byte)
| Log (msg : string)
| PigeonInit
| PigeonStop
| PigeonSetPower (on : bool)
| SendUbloxRaw (dat : list byte).

(** The process-wide variables of boardd.cc that the loops share. *)
Record Shared : Type := MkShared {
  main_shift : Z;
  aux_shift : Z;
  safety_setter_thread_running : bool;
  ignition : bool
}.

Definition set_ignition (v : bool) (g : Shared) : Shared :=
  MkShared (main_shift g) (aux_shift g) (safety_setter_thread_running g) v.

Definition set_safety_setter_thread_running (v : bool) (g : Shared) : Shared :=
  MkShared (main_shift g) (aux_shift g) v (ignition g).

(** ** CAN send loop (can_send_thread) *)

(** A decoded [sendcan] event: its log timestamp and its batch. *)
Record SendcanEvent : Type := MkSendcan {
  logMonoTime : Z;
  sendcan : list byte
}.

(** One iteration of the [while] loop of [can_send_thread], after
    [subscriber->receive()] returned [msg] and with [now] the reading of
    [nanos_since_boot()].  [aux] tells whether [aux_panda] is non-null.
    The result is the list of board calls, or [None] where the iteration
    dereferences the null [aux_panda].  The comparison with the double
    [1e9] converts the unsigned difference to double. *)
Definition can_send_iteration (fake_send : bool) (g : Shared) (aux : bool)
    (now : Z) (msg : option SendcanEvent) : option (list Event) :=
  match msg with
  | None => Some []
  | Some event =>
      if Machine.double_of_u64 (Machine.u64_sub now (logMonoTime event))
           <? 10 ^ 9
      then
        if negb fake_send then
          if main_shift g =? 0 then Some [CanSend Main (sendcan event)]
          else if aux then Some [CanSend Aux (sendcan event)] else None
        else Some []
      else Some []
  end.

(** ** GPS loop (pigeon_thread) *)

Module Ublox.
(** Modelled from the spec: the constants of selfdrive/locationd/ublox_msg.h,
    which is not among the sources; the spec gives the preamble
    [{0xB5, 0x62}] and the classes [0x01] (navigation) and [0x02]
    (receiver manager). *)
Definition PREAMBLE1 : byte := xb5.
Definition PREAMBLE2 : byte := x62.
Definition CLASS_NAV : byte := x01.
Definition CLASS_RXM : byte := x02.
End Ublox.

(** [std::unordered_map<char, uint64_t>], read with [operator[]]: a key
    that was never written reads as 0. *)
Definition TimeMap : Type := byte -> Z.

Definition time_put (k : byte) (v : Z) (m : TimeMap) : TimeMap :=
  fun k' => if Byte.eqb k' k then v else m k'.

Definition cls_max_dt : list (byte * Z) :=
  [(Ublox.CLASS_NAV, 900000000); (Ublox.CLASS_RXM, 900000000)].

Record PigeonLocals : Type := MkPigeon {
  pg_ignition_last : bool;
  last_recv_time : TimeMap
}.

(** What one iteration of the GPS loop reads.  [ignition] is an atomic
    that the board-state loop stores while this loop runs, and the
    iteration loads it at six places, with the blocking calls on the
    receiver in between: there is one field for each load, named after its
    line (the check at line 575 loads it once for each class).  Then the
    bytes of [pigeon->receive()] and the readings of [nanos_since_boot()]
    at the header parse, at the check of each class and at the re-init. *)
Record PigeonInput : Type := MkPigeonInput {
  ignition_562 : bool;
  ignition_575 : byte -> bool;
  ignition_583 : bool;
  ignition_594 : bool;
  ignition_602 : bool;
  ignition_609 : bool;
  recv : list byte;
  t_parse : Z;
  t_check : byte -> Z;
  t_init : Z
}.

(** An iteration during which [ignition] is not stored: every load
    returns [v]. *)
Definition loads_agree (v : bool) (inp : PigeonInput) : Prop :=
  ignition_562 inp = v /\ (forall cls, ignition_575 inp cls = v) /\
  ignition_583 inp = v /\ ignition_594 inp = v /\ ignition_602 inp = v /\
  ignition_609 inp = v.

Definition parse_header (inp : PigeonInput) (m : TimeMap) : TimeMap :=
  if ignition_562 inp && (3 <=? Z.of_nat (List.length (recv inp))) then
    match recv inp with
    | b0 :: b1 :: msg_cls :: _ =>
        if Byte.eqb b0 Ublox.PREAMBLE1 && Byte.eqb b1 Ublox.PREAMBLE2 then
          if m msg_cls <? t_parse inp then time_put msg_cls (t_parse inp) m
          else m
        else m
    | _ => m
    end
  else m.

Definition check_timeouts (inp : PigeonInput) (ignition_last : bool)
    (m : TimeMap) : list Event :=
  flat_map
    (fun '(msg_cls, max_dt) =>
       let dt :=
         Machine.i64_of_u64
           (Machine.u64 (Machine.i64_of_u64 (t_check inp msg_cls)
                         - Machine.i64_of_u64 (m msg_cls))) in
       if ignition_last && ignition_575 inp msg_cls && (max_dt <? dt)
       then [Log "ublox receive timeout"]   (* need_reset stays false *)
       else [])
    cls_max_dt.

Definition starts_with_null (dat : list byte) : bool :=
  match dat with
  | b0 :: _ => Byte.eqb b0 x00
  | [] => false
  end.

(** One iteration of the [while] loop of [pigeon_thread]. *)
Definition pigeon_iteration (inp : PigeonInput) (st : PigeonLocals)
    : PigeonLocals * list Event :=
  let m1 := parse_header inp (last_recv_time st) in
  let timeouts := check_timeouts inp (pg_ignition_last st) m1 in
  let need_reset := ignition_583 inp && starts_with_null (recv inp) in
  let nulls :=
    if need_reset
    then [Log "received invalid ublox message while onroad, resetting panda GPS"]
    else [] in
  let published :=
    match recv inp with [] => [] | _ :: _ => [SendUbloxRaw (recv inp)] end in
  let '(m2, edge) :=
    if (ignition_594 inp && negb (pg_ignition_last st)) || need_reset then
      let t := Machine.u64 (t_init inp + 10000000000) in
      (fold_left (fun acc '(msg_cls, _) => time_put msg_cls t acc)
         cls_max_dt m1,
       [PigeonInit])
    else if negb (ignition_602 inp) && pg_ignition_last st then
      (m1, [Log "powering off pigeon"; PigeonStop; PigeonSetPower false])
    else (m1, []) in
  (MkPigeon (ignition_609 inp) m2, timeouts ++ nulls ++ published ++ edge).

(** The loop over the inputs of its iterations. *)
Fixpoint pigeon_run (inputs : list PigeonInput) (st : PigeonLocals)
    : PigeonLocals * list Event :=
  match inputs with
  | [] => (st, [])
  | inp :: rest =>
      let '(st1, ev1) := pigeon_iteration inp st in
      let '(st2, ev2) := pigeon_run rest st1 in
      (st2, ev1 ++ ev2)
  end.

(** ** A monad for the loop bodies

    A loop body reads and writes the shared variables and its own locals
    and issues commands; [M] threads that state and collects the commands
    in program order. *)

Section TraceMonad.
Context {S : Type}.

Definition M (A : Type) : Type := S -> A * S * list Event.

Definition ret {A} (a : A) : M A := fun s => (a, s, []).

Definition bind {A B} (m : M A) (f : A -> M B) : M B :=
  fun s =>
    let '(a, s1, t1) := m s in
    let '(b, s2, t2) := f a s1 in
    (b, s2, t1 ++ t2).

Definition emit (e : Event) : M unit := fun s => (tt, s, [e]).
Definition gets {A} (f : S -> A) : M A := fun s => (f s, s, []).
Definition modify (f : S -> S) : M unit := fun s => (tt, f s, []).

Definition when_ (c : bool) (m : M unit) : M unit :=
  if c then m else ret tt.

Definition final {A} (m : M A) (s : S) : S := snd (fst (m s)).
Definition trace {A} (m : M A) (s : S) : list Event := snd (m s).
Definition value {A} (m : M A) (s : S) : A := fst (fst (m s)).
End TraceMonad.

Arguments M : clear implicits.

Notation "x <- c1 ;; c2" := (bind c1 (fun x => c2))
  (at level 61, c1 at next level, right associativity).
Notation "c1 ;; c2" := (bind c1 (fun _ => c2))
  (at level 61, right associativity).

(** ** Board-state loop and safety setter *)

(** The state of [panda_state_thread]: the shared variables and the
    locals that survive an iteration. *)
Record PandaLoop : Type := MkPandaLoop {
  shared : Shared;
  no_ignition_cnt : Z;
  ignition_last : bool
}.

Definition on_shared (f : Shared -> Shared) (s : PandaLoop) : PandaLoop :=
  MkPandaLoop (f (shared s)) (no_ignition_cnt s) (ignition_last s).

Definition set_no_ignition_cnt (v : Z) (s : PandaLoop) : PandaLoop :=
  MkPandaLoop (shared s) v (ignition_last s).

Definition set_ignition_last (v : bool) (s : PandaLoop) : PandaLoop :=
  MkPandaLoop (shared s) (no_ignition_cnt s) v.

(** What one iteration of the 2 Hz loop reads from outside. *)
Record TickInput : Type := MkTickInput {
  spoofing_started : bool;          (* the thread's argument *)
  main_health : health_t;           (* main_panda->get_state() *)
  aux_health : option health_t;     (* aux_panda->get_state(); None: nullptr *)
  main_has_rtc : bool;              (* main_panda->has_rtc *)
  sys_time_valid : bool;            (* util::time_valid(sys_time) *)
  sys_secs : Z;                     (* mktime(&sys_time) *)
  rtc_secs : Z                      (* mktime(&rtc_time) *)
}.

Definition with_ignition_line (v : Z) (h : health_t) : health_t :=
  Health v (ignition_can h) (safety_model h) (power_save_enabled h).

(** A snapshot of what one poll of the safety setter sees. *)
Record World : Type := MkWorld {
  do_exit : bool;
  main_connected : bool;
  params_get : string -> string;
  params_getBool : string -> bool
}.

(** What the three tests of [aux_panda] in one run of the safety setter
    see (lines 54, 77 and 106): the pointer is a global that [usb_connect]
    stores and [main] clears while the task runs. *)
Record AuxTests : Type := MkAuxTests {
  aux_54 : bool;
  aux_77 : bool;
  aux_106 : bool
}.

(** How a run of the safety setter stands once its polls are used up:
    it returned at the end, returned early, died on the assertion, or is
    still polling.  The first two carry the value it stored in
    [safety_setter_thread_running]. *)
Inductive SetterRun : Type :=
| Finished (tr : list Event) (running : bool)
| Cancelled (tr : list Event) (running : bool)
| AssertFailed (tr : list Event)
| Polling (tr : list Event).

Inductive Poll (A : Type) : Type :=
| Got (a : A) (rest : list World)
| Exit
| Assert
| Pending.
Arguments Got {A}.
Arguments Exit {A}.
Arguments Assert {A}.
Arguments Pending {A}.

(** The first polling loop, one snapshot for each iteration. *)
Fixpoint wait_car_vin (polls : list World) : Poll string :=
  match polls with
  | [] => Pending
  | w :: rest =>
      if do_exit w || negb (main_connected w) then Exit
      else
        let value_vin := params_get w "CarVin" in
        if (0 <? String.length value_vin)%nat then
          if (String.length value_vin =? 17)%nat then Got value_vin rest
          else Assert
        else wait_car_vin rest
  end.

(** The second polling loop. *)
Fixpoint wait_car_params (polls : list World) : Poll string :=
  match polls with
  | [] => Pending
  | w :: rest =>
      if do_exit w || negb (main_connected w) then Exit
      else if params_getBool w "ControlsReady" then
        let params := params_get w "CarParams" in
        if (0 <? String.length params)%nat then Got params rest
        else wait_car_params rest
      else wait_car_params rest
  end.

(** The state of the whole daemon as far as the safety setter's launch is
    concerned: the board-state loop, the safety-setter tasks that have not
    yet made their last store to [safety_setter_thread_running], and those
    that have made it and whose thread has not ended yet. *)
Record Daemon : Type := MkDaemon {
  loop : PandaLoop;
  working_setters : nat;
  ending_setters : nat
}.

(** The safety-setter threads alive. *)
Definition live_setters (d : Daemon) : nat :=
  (working_setters d + ending_setters d)%nat.

Definition is_spawn (e : Event) : bool :=
  match e with SpawnSafetySetter => true | _ => false end.

Definition spawns (tr : list Event) : nat :=
  List.length (filter is_spawn tr).

Definition setter_outcome (r : SetterRun) : option bool :=
  match r with
  | Finished _ b | Cancelled _ b => Some b
  | _ => None
  end.

Section Boardd.

(** The enumerators of [cereal::CarParams::SafetyModel] that boardd.cc
    names, as the [uint8_t] the firmware reports; their numbers are in
    the cereal schema, not in this file. *)
Variables SILENT NO_OUTPUT ELM327 : Z.

(** Decoding of the [CarParams] bytes (capnp): the safety model and the
    safety param. *)
Variable decode_car_params : string -> Z * Z.

(** [set_safety_model] on main, and on aux where there is one. *)
Definition set_safety_model_both (aux : bool) (model param : Z)
    : list Event :=
  SetSafetyModel Main model param
    :: (if aux then [SetSafetyModel Aux model param] else []).

(** [safety_setter_thread], run against the snapshots its polls see and
    against what its tests of [aux_panda] see. *)
Definition safety_setter_thread (aux : AuxTests) (polls : list World)
    : SetterRun :=
  let tr1 := set_safety_model_both (aux_54 aux) ELM327 0 in
  match wait_car_vin polls with
  | Pending => Polling tr1
  | Exit => Cancelled tr1 false
  | Assert => AssertFailed tr1
  | Got _ polls2 =>
      let tr2 := tr1 ++ set_safety_model_both (aux_77 aux) ELM327 1 in
      match wait_car_params polls2 with
      | Pending => Polling tr2
      | Exit => Cancelled tr2 false
      | Assert => AssertFailed tr2
      | Got params _ =>
          let '(safety_model, safety_param) := decode_car_params params in
          Finished
            (tr2 ++ [SetUnsafeMode Main 0]
                 ++ set_safety_model_both (aux_106 aux) safety_model
                      safety_param)
            false
      end
  end.

(** [pandaState] once [spoofing_started] has overridden its ignition
    line. *)
Definition polled (inp : TickInput) : health_t :=
  if spoofing_started inp then with_ignition_line 1 (main_health inp)
  else main_health inp.

(** The spec's sequence of board commands for a run that is not cut
    short: ELM327 to both boards, ELM327 with param 1 to both, unsafe mode 0
    on main, the target model and param to both (aux where there is
    one). *)
Definition commanded_sequence (aux : bool) (model param : Z) : list Event :=
  [SetSafetyModel Main ELM327 0]
    ++ (if aux then [SetSafetyModel Aux ELM327 0] else [])
    ++ [SetSafetyModel Main ELM327 1]
    ++ (if aux then [SetSafetyModel Aux ELM327 1] else [])
    ++ [SetUnsafeMode Main 0]
    ++ [SetSafetyModel Main model param]
    ++ (if aux then [SetSafetyModel Aux model param] else []).

(** The same commands with every set_safety_model going to aux where the
    test of [aux_panda] before that very call finds one. *)
Definition issued_sequence (aux : AuxTests) (model param : Z) : list Event :=
  [SetSafetyModel Main ELM327 0]
    ++ (if aux_54 aux then [SetSafetyModel Aux ELM327 0] else [])
    ++ [SetSafetyModel Main ELM327 1]
    ++ (if aux_77 aux then [SetSafetyModel Aux ELM327 1] else [])
    ++ [SetUnsafeMode Main 0]
    ++ [SetSafetyModel Main model param]
    ++ (if aux_106 aux then [SetSafetyModel Aux model param] else []).

(** [ignition = (ignition_line != 0) || (ignition_can != 0)] *)
Definition ignition_of (h : health_t) : bool :=
  negb (ignition_line h =? 0) || negb (ignition_can h =? 0).

(** The block under [if (aux_panda != nullptr)]. *)
Definition aux_block (pandaState pandaState_aux : health_t)
    : M PandaLoop unit :=
  when_ (safety_model pandaState_aux =? SILENT)
    (emit (SetSafetyModel Aux NO_OUTPUT 0)) ;;
  ign <- gets (fun s => ignition (shared s)) ;;
  when_ (negb ign && negb (safety_model pandaState =? NO_OUTPUT))
    (emit (SetSafetyModel Aux NO_OUTPUT 0)) ;;
  shift <- gets (fun s => main_shift (shared s)) ;;
  if shift =? 0
  then modify (on_shared (set_ignition (ignition_of pandaState)))
  else modify (on_shared (set_ignition (ignition_of pandaState_aux))).

Definition count_no_ignition : M PandaLoop unit :=
  ign <- gets (fun s => ignition (shared s)) ;;
  if ign then modify (set_no_ignition_cnt 0)
  else modify (fun s =>
                 set_no_ignition_cnt (Machine.u32 (no_ignition_cnt s + 1)) s).

Definition power_save (aux : bool) (pandaState : health_t)
    : M PandaLoop unit :=
  ign <- gets (fun s => ignition (shared s)) ;;
  let power_save_desired := negb ign in
  when_ (negb (power_save_enabled pandaState =? Z.b2z power_save_desired))
    (emit (SetPowerSaving Main power_save_desired) ;;
     when_ aux (emit (SetPowerSaving Aux power_save_desired))).

Definition safety_off_when_parked (pandaState : health_t)
    : M PandaLoop unit :=
  ign <- gets (fun s => ignition (shared s)) ;;
  when_ (negb ign && negb (safety_model pandaState =? NO_OUTPUT))
    (emit (SetSafetyModel Main NO_OUTPUT 0)).

Definition ignition_edges : M PandaLoop unit :=
  ign <- gets (fun s => ignition (shared s)) ;;
  last <- gets ignition_last ;;
  if ign && negb last then
    emit (ClearAll CLEAR_ON_IGNITION_ON) ;;
    running <- gets (fun s => safety_setter_thread_running (shared s)) ;;
    if negb running then
      modify (on_shared (set_safety_setter_thread_running true)) ;;
      emit (StoreSetterRunning true) ;;
      emit SpawnSafetySetter
    else emit (Log "Safety setter thread already running")
  else
    when_ (negb ign && last) (emit (ClearAll CLEAR_ON_IGNITION_OFF)).

(** [std::abs(seconds) > 1.1] for a difference of whole seconds. *)
Definition rtc_drifted (rtc sys : Z) : bool :=
  11 <? 10 * Z.abs (rtc - sys).

Definition rtc_writeback (inp : TickInput) : M PandaLoop unit :=
  ign <- gets (fun s => ignition (shared s)) ;;
  cnt <- gets no_ignition_cnt ;;
  when_ (main_has_rtc inp && negb ign && (cnt mod 120 =? 1))
    (when_ (sys_time_valid inp)
       (emit (GetRtc Main) ;;
        when_ (rtc_drifted (rtc_secs inp) (sys_secs inp))
          (emit (SetRtc Main (sys_secs inp)) ;;
           emit (Log "Updating panda RTC")))).

(** The end of the iteration: the edge memory, the fan read, the
    [pandaState] message (of its fields only the derived ignition is kept
    here; the others copy the polled health) and the heartbeats. *)
Definition publish (aux : bool) : M PandaLoop unit :=
  ign <- gets (fun s => ignition (shared s)) ;;
  modify (set_ignition_last ign) ;;
  emit (GetFanSpeed Main) ;;
  ign <- gets (fun s => ignition (shared s)) ;;
  emit (SendPandaState ign) ;;
  emit (SendHeartbeat Main) ;;
  when_ aux (emit (SendHeartbeat Aux)).

(** One iteration of the 2 Hz [while] loop of [panda_state_thread]. *)
Definition panda_state_tick (inp : TickInput) : M PandaLoop unit :=
  emit (GetState Main) ;;
  let pandaState := polled inp in
  when_ (safety_model pandaState =? SILENT)
    (emit (SetSafetyModel Main NO_OUTPUT 0)) ;;
  match aux_health inp with
  | Some pandaState_aux =>
      emit (GetState Aux) ;; aux_block pandaState pandaState_aux
  | None => ret tt
  end ;;
  count_no_ignition ;;
  let aux := match aux_health inp with Some _ => true | None => false end in
  power_save aux pandaState ;;
  safety_off_when_parked pandaState ;;
  ignition_edges ;;
  rtc_writeback inp ;;
  publish aux.

(** The daemon's steps that touch [safety_setter_thread_running] or the
    number of tasks: an iteration of the board-state loop (which may store
    [true] and detach a new task), the last store of a safety-setter task
    (lines 61, 83 and 108), the end of the thread of a task that has made
    that store, and the restart of the board-state loop by [main] after a
    reconnect.  The iteration is one step: it touches the flag with the
    load at line 370 and, after a load of [false], with the store at line
    371 right behind it, and a task's store of [false] that falls between
    the two leaves the flag as the same store just before the load does, so
    every interleaving of the stores is an order of these steps. *)
Inductive daemon_step : Daemon -> Daemon -> Prop :=
| step_tick (d : Daemon) (inp : TickInput) :
    daemon_step d
      (MkDaemon (final (panda_state_tick inp) (loop d))
         (working_setters d + spawns (trace (panda_state_tick inp) (loop d)))
         (ending_setters d))
| step_setter_store (d : Daemon) (aux : AuxTests) (polls : list World)
    (running : bool) :
    (0 < working_setters d)%nat ->
    setter_outcome (safety_setter_thread aux polls) = Some running ->
    daemon_step d
      (MkDaemon
         (on_shared (set_safety_setter_thread_running running) (loop d))
         (pred (working_setters d)) (S (ending_setters d)))
| step_setter_end (d : Daemon) :
    (0 < ending_setters d)%nat ->
    daemon_step d
      (MkDaemon (loop d) (working_setters d) (pred (ending_setters d)))
| step_restart (d : Daemon) :
    daemon_step d
      (MkDaemon (MkPandaLoop (shared (loop d)) 0 false) (working_setters d)
         (ending_setters d)).

Inductive reachable (d0 : Daemon) : Daemon -> Prop :=
| reach_refl : reachable d0 d0
| reach_step d d' : reachable d0 d -> daemon_step d d' -> reachable d0 d'.

(** The daemon at start: the initialisers of the globals, no task. *)
Definition boot (main_shift0 aux_shift0 : Z) : Daemon :=
  MkDaemon (MkPandaLoop (MkShared main_shift0 aux_shift0 false false) 0 false)
    0%nat 0%nat.

End Boardd.


(** ** Connection (usb_connect, usb_retry_connect) *)

From Stdlib Require Import Sorted.

(** [list[i] = v] on an array: nothing is written past the end. *)
Fixpoint array_set {A : Type} (i : nat) (v : A) (l : list A) : list A :=
  match l, i with
  | [], _ => []
  | _ :: rest, O => v :: rest
  | x :: rest, S i' => x :: array_set i' v rest
  end.

Module Hex.

(** [NIBBLE_TO_HEX(n)], with ['0'] = 48 and ['a'] = 97. *)
Definition NIBBLE_TO_HEX (n : Z) : Z :=
  if n <? 10 then n + 48 else (n - 10) + 97.

(** [(uint8_t) x] *)
Definition u8 (x : Z) : Z := x mod 256.

(** The loop that fills [fw_sig_hex_buf] from the first eight bytes of the
    firmware signature; [None] where it reads past the end of the
    signature. *)
Definition fw_sig_hex (fw_sig : list Z) : option (list Z) :=
  fold_left
    (fun acc i =>
       match acc, nth_error fw_sig i with
       | Some fw_sig_hex_buf, Some b =>
           Some (array_set (2 * i + 1) (NIBBLE_TO_HEX (Z.land (u8 b) 15))
                   (array_set (2 * i) (NIBBLE_TO_HEX (Z.shiftr (u8 b) 4))
                      fw_sig_hex_buf))
       | _, _ => None
       end)
    (seq 0 8) (Some (repeat 0 16)).

(** Reading the text back: the value of a hex digit and of a pair. *)
Definition hex_value (c : Z) : Z := if c <? 97 then c - 48 else c - 87.

Fixpoint unhex (cs : list Z) : list Z :=
  match cs with
  | hi :: lo :: rest => 16 * hex_value hi + hex_value lo :: unhex rest
  | _ => []
  end.

Definition is_lower_hex (c : Z) : bool :=
  ((48 <=? c) && (c <=? 57)) || ((97 <=? c) && (c <=? 102)).

End Hex.

Module Connect.

(** Modelled from the spec: the enumerators of
    [cereal::PandaState::PandaType], whose schema is not among the sources;
    the spec lists WHITE, GREY, BLACK, PEDAL, UNO, DOS and UNKNOWN. *)
Inductive PandaType : Type :=
| UNKNOWN | WHITE_PANDA | GREY_PANDA | BLACK_PANDA | PEDAL | UNO | DOS.

(** What an opened board answers to the calls of [usb_connect]. *)
Record Panda : Type := MkPanda {
  usb_serial : string;
  hw_type : PandaType;
  has_rtc : bool;
  get_firmware_version : option (list Z);
  get_serial : option string;
  rtc_valid : bool;          (* util::time_valid(rtc_time) *)
  rtc_time : Z               (* mktime(&rtc_time) *)
}.

(** The globals that [usb_connect] works on, and its static local. *)
Record Conn : Type := MkConn {
  main_panda : option Panda;
  aux_panda : option Panda;
  pandas_detected : list string;
  pandas_connected : list string;
  connected_once : bool
}.

(** What the calls find around them: the outcome of opening a serial
    ([None]: the constructor throws), BOARDD_LOOPBACK, and whether the
    build is for x86_64.  Whether the host clock is valid is read afresh in
    every call (and a call may have set the clock): it is an argument of
    its own. *)
Record Host : Type := MkHost {
  open_panda : string -> option Panda;
  loopback : bool;
  x86_64 : bool
}.

Inductive ParamValue : Type :=
| Bytes (dat : list Z)
| Text (s : string).

Inductive ConnEvent : Type :=
| SetLoopback (serial : string)
| Put (key : string) (value : ParamValue)
| SetUsbPowerModeCDP (serial : string)
| SetTimeOfDay (secs : Z).

(** How a call ends: it returns, its assertion fails, or it reads out of
    bounds ([pandas_detected[0]] of an empty vector, a signature shorter
    than eight bytes). *)
Inductive Outcome : Type :=
| Returned (ok : bool) (c : Conn) (tr : list ConnEvent)
| AssertFailed
| OutOfBounds.

(** [v.erase(std::find(v.begin(), v.end(), x))] for an [x] that is in
    [v]. *)
Fixpoint erase_first (x : string) (v : list string) : list string :=
  match v with
  | [] => []
  | y :: rest => if String.eqb y x then rest else y :: erase_first x rest
  end.

Definition is_main_type (t : PandaType) : bool :=
  match t with BLACK_PANDA | DOS => true | _ => false end.

Definition both_set (c : Conn) : bool :=
  match main_panda c, aux_panda c with
  | Some _, Some _ => true
  | _, _ => false
  end.

(** The part of [usb_connect] after the board is open; [sys_time_valid]
    is [util::time_valid(sys_time)] as this call reads it. *)
Definition configure (h : Host) (sys_time_valid : bool) (c : Conn)
    (tmp_panda : Panda) : Outcome :=
  let tr1 :=
    if loopback h then [SetLoopback (usb_serial tmp_panda)] else [] in
  match get_firmware_version tmp_panda with
  | None => Returned false c tr1
  | Some fw_sig =>
      match Hex.fw_sig_hex fw_sig with
      | None => OutOfBounds
      | Some fw_sig_hex_buf =>
          let tr2 :=
            tr1 ++ [Put "PandaFirmware" (Bytes fw_sig);
                    Put "PandaFirmwareHex" (Bytes fw_sig_hex_buf)] in
          match get_serial tmp_panda with
          | None => Returned false c tr2
          | Some serial =>
              let tr3 := tr2 ++ [Put "PandaDongleId" (Text serial)] in
              let tr4 :=
                tr3 ++ (if negb (x86_64 h) && negb (connected_once c)
                        then [SetUsbPowerModeCDP (usb_serial tmp_panda)]
                        else []) in
              let tr5 :=
                tr4 ++ (if has_rtc tmp_panda && negb sys_time_valid
                             && rtc_valid tmp_panda
                        then [SetTimeOfDay (rtc_time tmp_panda)] else []) in
              if negb (is_main_type (hw_type tmp_panda)) then
                Returned true
                  (MkConn (main_panda c) (Some tmp_panda) (pandas_detected c)
                     (pandas_connected c) true) tr5
              else
                Returned true
                  (MkConn (Some tmp_panda) (aux_panda c) (pandas_detected c)
                     (pandas_connected c) true) tr5
          end
      end
  end.

(** [usb_connect]. *)
Definition usb_connect (h : Host) (sys_time_valid : bool) (c : Conn)
    : Outcome :=
  if both_set c then AssertFailed
  else
    match pandas_detected c with
    | [] => OutOfBounds
    | serial :: _ =>
        match open_panda h serial with
        | None => Returned false c []
        | Some tmp_panda =>
            configure h sys_time_valid
              (MkConn (main_panda c) (aux_panda c)
                 (erase_first serial (pandas_detected c))
                 (pandas_connected c ++ [serial]) (connected_once c))
              tmp_panda
        end
    end.

(** How [usb_retry_connect] ends: with its result, on an assertion, out of
    bounds, or still looping when the fuel is spent. *)
Inductive Retry : Type :=
| Done (ok : bool) (c : Conn) (tr : list ConnEvent)
| Aborted
| Overrun
| Looping.

(** The [while (!do_exit && detect_count != pandas_connected.size())] loop;
    [do_exit k] is what the [k]-th read of the flag sees and
    [sys_time_valid k] what the call of [usb_connect] that follows it finds
    of the host clock. *)
Fixpoint connect_loop (h : Host) (do_exit sys_time_valid : nat -> bool)
    (detect_count : nat) (fuel k : nat) (c : Conn) (tr : list ConnEvent)
    : Retry :=
  match fuel with
  | O => Looping
  | S fuel' =>
      if negb (do_exit k)
         && negb (detect_count =? List.length (pandas_connected c))%nat
      then
        match usb_connect h (sys_time_valid k) c with
        | Returned _ c' tr' =>
            connect_loop h do_exit sys_time_valid detect_count fuel' (S k) c'
              (tr ++ tr')
        | AssertFailed => Aborted
        | OutOfBounds => Overrun
        end
      else
        match main_panda c with
        | Some _ => Done (negb (do_exit (S k))) c tr
        | None => Done false c tr
        end
  end.

(** [usb_retry_connect], from the first non-empty answer [listed] of
    [Panda::list()]. *)
Definition usb_retry_connect (h : Host) (do_exit sys_time_valid : nat -> bool)
    (listed : list string) (fuel : nat) (c : Conn) : Retry :=
  connect_loop h do_exit sys_time_valid (List.length listed) fuel 0
    (MkConn (main_panda c) (aux_panda c) listed (pandas_connected c)
       (connected_once c)) [].

(** How many of the two slots hold a board, and how often a trace switches
    host charging on. *)
Definition slots (c : Conn) : nat :=
  (match main_panda c with Some _ => 1 | None => 0 end
   + match aux_panda c with Some _ => 1 | None => 0 end)%nat.

Definition is_cdp (e : ConnEvent) : bool :=
  match e with SetUsbPowerModeCDP _ => true | _ => false end.

Definition cdp_count (tr : list ConnEvent) : nat :=
  List.length (filter is_cdp tr).

(** The globals when [main] enters its loop, and after it has torn a
    cycle down. *)
Definition disconnected (once : bool) : Conn := MkConn None None [] [] once.

End Connect.

(** ** CAN receive pacing (can_recv_thread) *)

Module Pace.

Definition dt : Z := 10000000.

Inductive PaceEvent : Type :=
| SleepFor (ns : Z)
| LogMissed.

(** The pacing at the end of one iteration of [can_recv_thread]:
    [cur_time] is the clock after [can_recv]; the result is the new
    [next_frame_time] and what the iteration does. *)
Definition pace (ignition : bool) (next_frame_time cur_time : Z)
    : Z * list PaceEvent :=
  let remaining :=
    Machine.i64_of_u64 (Machine.u64_sub next_frame_time cur_time) in
  if 0 <? remaining then
    (Machine.u64 (next_frame_time + dt), [SleepFor remaining])
  else
    (Machine.u64 (cur_time + dt), if ignition then [LogMissed] else []).

(** The loop over the clock readings of its iterations. *)
Fixpoint pace_run (ignition : bool) (next_frame_time : Z) (clock : list Z)
    : Z * list PaceEvent :=
  match clock with
  | [] => (next_frame_time, [])
  | cur_time :: rest =>
      let '(next1, ev1) := pace ignition next_frame_time cur_time in
      let '(next2, ev2) := pace_run ignition next1 rest in
      (next2, ev1 ++ ev2)
  end.


(** The clock readings of a run that is never late: each reading is
    before the frame time of its iteration. *)
Fixpoint on_time (next_frame_time : Z) (clock : list Z) : Prop :=
  match clock with
  | [] => True
  | cur_time :: rest =>
      cur_time < next_frame_time /\ on_time (next_frame_time + dt) rest
  end.

Definition is_sleep (e : PaceEvent) : bool :=
  match e with SleepFor _ => true | LogMissed => false end.

End Pace.

(** ** Hardware control (hardware_control_thread) *)

Module HwControl.

Inductive UsbPowerMode : Type := CLIENT | CDP.

Inductive HwEvent : Type :=
| SetUsbPowerMode (mode : UsbPowerMode)
| SetFanSpeed (percent : Z)
| SetIrPwr (percent : Z).

(** The locals of the thread. *)
Record Locals : Type := MkLocals {
  last_front_frame_t : Z;
  prev_fan_speed : Z;
  ir_pwr : Z;
  prev_ir_pwr : Z;
  prev_charging_disabled : bool;
  cnt : Z
}.

Definition start : Locals := MkLocals 0 999 0 999 false 0.

(** A [deviceState] message and a [driverCameraState] message, as far as
    the loop reads them. *)
Record DeviceState : Type := MkDeviceState {
  chargingDisabled : bool;
  fanSpeedPercentDesired : Z
}.

Record DriverCameraState : Type := MkDriverCameraState {
  integLines : Z;
  frameLogMonoTime : Z;
  filtered : Z     (* (int) integ_lines_filter.update(integLines), on TICI *)
}.

(** What one iteration finds: the platform, the board type, the messages
    that [sm.update] marked as updated, and the clock. *)
Record Input : Type := MkInput {
  pc : bool;
  tici : bool;
  hw_type : Connect.PandaType;
  deviceState : option DeviceState;
  driverCameraState : option DriverCameraState;
  cur_t : Z
}.

Definition has_fan_and_ir (t : Connect.PandaType) : bool :=
  match t with Connect.UNO | Connect.DOS => true | _ => false end.

(** The charging block. *)
Definition charging (inp : Input) (st : Locals) : bool * list HwEvent :=
  match deviceState inp with
  | Some ds =>
      if negb (pc inp) then
        if negb (Bool.eqb (chargingDisabled ds) (prev_charging_disabled st))
        then
          (chargingDisabled ds,
           [SetUsbPowerMode (if chargingDisabled ds then CLIENT else CDP)])
        else (prev_charging_disabled st, [])
      else (prev_charging_disabled st, [])
  | None => (prev_charging_disabled st, [])
  end.

(** The fan block. *)
Definition fan (inp : Input) (cnt1 : Z) (st : Locals) : Z * list HwEvent :=
  match deviceState inp with
  | Some ds =>
      let fan_speed := fanSpeedPercentDesired ds in
      if negb (fan_speed =? prev_fan_speed st) || (cnt1 mod 100 =? 0)
      then (fan_speed, [SetFanSpeed fan_speed])
      else (prev_fan_speed st, [])
  | None => (prev_fan_speed st, [])
  end.

(** The [driverCameraState] block: the new [ir_pwr] and
    [last_front_frame_t]. *)
Definition camera (inp : Input) (st : Locals) : Z * Z :=
  match driverCameraState inp with
  | Some dcs =>
      let cur_integ_lines :=
        if tici inp then filtered dcs else integLines dcs in
      (IR.ir_pwr_of cur_integ_lines, frameLogMonoTime dcs)
  | None => (ir_pwr st, last_front_frame_t st)
  end.

(** One iteration of the [while] loop of [hardware_control_thread]. *)
Definition iteration (inp : Input) (st : Locals) : Locals * list HwEvent :=
  let cnt1 := Machine.u32 (cnt st + 1) in
  let '(charging1, ev_charging) := charging inp st in
  if negb (has_fan_and_ir (hw_type inp)) then
    (MkLocals (last_front_frame_t st) (prev_fan_speed st) (ir_pwr st)
       (prev_ir_pwr st) charging1 cnt1, ev_charging)
  else
    let '(fan1, ev_fan) := fan inp cnt1 st in
    let '(ir1, frame1) := camera inp st in
    let ir2 :=
      if 10 ^ 9 <? Machine.double_of_u64 (Machine.u64_sub (cur_t inp) frame1)
      then 0 else ir1 in
    let send := negb (ir2 =? prev_ir_pwr st) || (cnt1 mod 100 =? 0)
                || (50 <=? ir2) in
    (MkLocals frame1 fan1 ir2 (if send then ir2 else prev_ir_pwr st)
       charging1 cnt1,
     ev_charging ++ ev_fan ++ (if send then [SetIrPwr ir2] else [])).

(** The loop over the inputs of its iterations. *)
Fixpoint run (inputs : list Input) (st : Locals) : Locals * list HwEvent :=
  match inputs with
  | [] => (st, [])
  | inp :: rest =>
      let '(st1, ev1) := iteration inp st in
      let '(st2, ev2) := run rest st1 in
      (st2, ev1 ++ ev2)
  end.

(** The USB power modes a trace commands, in order. *)
Fixpoint modes (ev : list HwEvent) : list UsbPowerMode :=
  match ev with
  | [] => []
  | SetUsbPowerMode m :: rest => m :: modes rest
  | _ :: rest => modes rest
  end.

(** A list of modes that turns charging off and on in turn, starting from
    the opposite of [disabled]. *)
Fixpoint alternates (disabled : bool) (ms : list UsbPowerMode) : Prop :=
  match ms with
  | [] => True
  | m :: rest =>
      m = (if disabled then CDP else CLIENT) /\ alternates (negb disabled) rest
  end.

End HwControl.

(** ** The fault list of the board-state message (panda_state_thread) *)

Module Faults.

(** [fault_bits.count()] for a bitset of [width] bits. *)
Definition count (width : nat) (faults : Z) : nat :=
  List.length (filter (fun f => Z.testbit faults (Z.of_nat f)) (seq 0 width)).

(** The loop that fills the list: [first] and [last] are the numbers of
    RELAY_MALFUNCTION and INTERRUPT_RATE_TICK, the list starts as
    [fault_bits.count()] zeroes. *)
Definition fill (faults : Z) (first last : nat) (init : list nat)
    : list nat * nat :=
  fold_left
    (fun '(faults_list, i) f =>
       if Z.testbit faults (Z.of_nat f)
       then (array_set i f faults_list, S i)
       else (faults_list, i))
    (seq first (S last - first)) (init, O).

Definition fault_list (width : nat) (faults : Z) (first last : nat)
    : list nat :=
  fst (fill faults first last (repeat O (count width faults))).

(** The faults that are set between [first] and [last], in ascending
    order. *)
Definition faults_in_range (faults : Z) (first last : nat) : list nat :=
  filter (fun f => Z.testbit faults (Z.of_nat f)) (seq first (S last - first)).

End Faults.

(** ** Board-state loop, edge actions *)

(** Whether an event is an ignition-edge action. *)
Definition is_edge_action (e : Event) : bool :=
  match e with
  | ClearAll _ | StoreSetterRunning _ | SpawnSafetySetter => true
  | _ => false
  end.

(** ** More concrete settings

    Boards, hosts, clocks and messages for running the definitions above. *)

Module Cases.

Definition signature : list Z := [18; 171; 0; 255; 7; 64; 129; 200; 33; 34].

Definition black : Connect.Panda :=
  Connect.MkPanda "black0" Connect.BLACK_PANDA true (Some signature)
    (Some "black0"%string) true 1700000000.

Definition grey : Connect.Panda :=
  Connect.MkPanda "grey0" Connect.GREY_PANDA false (Some signature)
    (Some "grey0"%string) false 0.

Definition mute : Connect.Panda :=
  Connect.MkPanda "mute0" Connect.BLACK_PANDA false None None false 0.

(** A host on which [black0], [grey0] and [mute0] open and nothing else
    does. *)
Definition host : Connect.Host :=
  Connect.MkHost
    (fun s => if String.eqb s "black0" then Some black
              else if String.eqb s "grey0" then Some grey
              else if String.eqb s "mute0" then Some mute
              else None)
    false false.

Definition never (_ : nat) : bool := false.

(** A host clock that is invalid until a first call has gone by. *)
Definition valid_after_first (k : nat) : bool := negb (k =? 0)%nat.

Definition both_boards : Connect.Retry :=
  Connect.usb_retry_connect host never valid_after_first
    ["black0"; "grey0"]%string 3 (Connect.disconnected false).

(** The globals with [black0] detected and nothing connected. *)
Definition black_detected : Connect.Conn :=
  Connect.MkConn None None ["black0"%string] [] false.

(** The globals after [usb_connect] has opened [black0] from there. *)
Definition black_connected : Connect.Conn :=
  Connect.MkConn (Some black) None [] ["black0"%string] true.

(** An iteration of the GPS loop at clock [t] during which ignition stays
    [ign]; and one in which ignition, off until then, comes on while the
    receiver is being stopped. *)
Definition gps_at (ign : bool) (dat : list byte) (t : Z) : PigeonInput :=
  MkPigeonInput ign (fun _ => ign) ign ign ign ign dat t (fun _ => t) t.

Definition stop_interrupted : PigeonInput :=
  MkPigeonInput false (fun _ => false) false false false true [x01] 1000
    (fun _ => 1000) 1000.

(** A UNO board with a fresh frame of [lines] lines at clock [t]. *)
Definition uno_frame (lines t : Z) : HwControl.Input :=
  HwControl.MkInput false false Connect.UNO None
    (Some (HwControl.MkDriverCameraState lines t 0)) t.

(** A UNO board with no message, at clock [t]. *)
Definition uno_idle (t : Z) : HwControl.Input :=
  HwControl.MkInput false false Connect.UNO None None t.

(** A grey board with a [deviceState] that disables charging. *)
Definition grey_charging_off : HwControl.Input :=
  HwControl.MkInput false false Connect.GREY_PANDA
    (Some (HwControl.MkDeviceState true 40)) None 0.

End Cases.
(** ** Concrete settings

    The numbers of the cereal schema for the three safety models, and the
    inputs of the spec's scenarios, for running the definitions. *)

Module Scenario.

Definition SILENT : Z := 0.
Definition ELM327 : Z := 3.
Definition NO_OUTPUT : Z := 19.
Definition HONDA_NIDEC : Z := 1.

(** A CarParams that decodes to [(HONDA_NIDEC, 0)]. *)
Definition decode (_ : string) : Z * Z := (HONDA_NIDEC, 0).

(** A parameter store holding [vin], [car_params] and [ready]. *)
Definition world (vin car_params : string) (ready : bool) : World :=
  MkWorld false true
    (fun k => if String.eqb k "CarVin" then vin
              else if String.eqb k "CarParams" then car_params
              else EmptyString)
    (fun k => String.eqb k "ControlsReady" && ready).

Definition no_params : World := world "" "" false.
Definition vin_ready : World := world "1HGCM82633A004352" "" false.
Definition all_ready : World := world "1HGCM82633A004352" "params" true.

(** The globals with the default shifts, and with AUX_CAN_DRIVE. *)
Definition globals : Shared := MkShared 0 3 false false.
Definition globals_aux_drive : Shared := MkShared 3 0 false false.

(** The board-state loop at its first iteration. *)
Definition fresh_loop : PandaLoop := MkPandaLoop globals 0 false.

(** Health snapshots: ignition line up or down, a given safety model. *)
Definition health (line model : Z) : health_t := Health line 0 model 0.

Definition tick_input (main : health_t) (aux : option health_t)
    (rtc sys : Z) : TickInput :=
  MkTickInput false main aux true true sys rtc.

Definition gps_locals (last : bool) : PigeonLocals :=
  MkPigeon last (fun _ => 0).

(** An iteration of the GPS loop during which [ignition] stays [ign]. *)
Definition gps_input (ign : bool) (dat : list byte) : PigeonInput :=
  MkPigeonInput ign (fun _ => ign) ign ign ign ign dat 1000 (fun _ => 1000)
    1000.

(** No aux board during a run of the safety setter, one that is there
    throughout, and one that [usb_connect] opens while the run waits for
    the VIN. *)
Definition aux_absent : AuxTests := MkAuxTests false false false.
Definition aux_throughout : AuxTests := MkAuxTests true true true.
Definition aux_joins : AuxTests := MkAuxTests false true true.

End Scenario.
(** * Properties *)

(** ** Machine arithmetic *)

Lemma round_half_even_ge (num den : Z) :
  num / den <= Machine.round_half_even num den.
Proof.
  unfold Machine.round_half_even.
  destruct (2 * (num mod den) <? den); [lia|].
  destruct (den <? 2 * (num mod den)); [lia|].
  destruct (Z.even (num / den)); lia.
Qed.

Lemma round_half_even_exact (n : Z) : Machine.round_half_even n 1 = n.
Proof.
  unfold Machine.round_half_even.
  rewrite Z.mod_1_r, Z.div_1_r. reflexivity.
Qed.

Lemma ratio_log2_int (n : Z) : 0 < n -> Machine.ratio_log2 n 1 = Z.log2 n.
Proof.
  intros Hn. unfold Machine.ratio_log2.
  change (Z.log2 1) with 0. rewrite Z.sub_0_r.
  pose proof (Z.log2_nonneg n) as Hl.
  pose proof (Z.log2_spec n Hn) as [Hlo _].
  destruct (0 <=? Z.log2 n) eqn:E; [|apply Z.leb_gt in E; lia].
  destruct (n <? 1 * 2 ^ Z.log2 n) eqn:E2; [apply Z.ltb_lt in E2; lia|reflexivity].
Qed.

(** A [uint64_t] below [2 ^ 53] converts to double exactly. *)
Lemma double_of_u64_small (n : Z) :
  0 <= n < 2 ^ 53 -> Machine.double_of_u64 n = n.
Proof.
  intros [H0 H1].
  unfold Machine.double_of_u64, Machine.fof_Z, Machine.fround, Machine.ftrunc.
  destruct (n <=? 0) eqn:E.
  - apply Z.leb_le in E. assert (n = 0) by lia. subst. reflexivity.
  - apply Z.leb_gt in E. rewrite ratio_log2_int by lia.
    assert (Hl : Z.log2 n < 53) by (apply Z.log2_lt_pow2; lia).
    pose proof (Z.log2_nonneg n) as Hl0.
    unfold Machine.f64, Machine.round_scaled, Machine.fnum, Machine.fden.
    cbn [Machine.mant Machine.expo].
    destruct (0 <=? Z.log2 n - (53 - 1)) eqn:E2.
    + apply Z.leb_le in E2.
      assert (He : Z.log2 n - (53 - 1) = 0) by lia.
      rewrite He. change (2 ^ 0) with 1. rewrite !Z.mul_1_r.
      rewrite round_half_even_exact. apply Z.div_1_r.
    + rewrite round_half_even_exact. apply Z.div_mul.
      apply Z.pow_nonzero; lia.
Qed.

(** From [2 ^ 53] on the conversion may round, but never below [2 ^ 53]. *)
Lemma double_of_u64_large (n : Z) :
  2 ^ 53 <= n -> 2 ^ 53 <= Machine.double_of_u64 n.
Proof.
  intros H.
  assert (Hn : 0 < n) by lia.
  unfold Machine.double_of_u64, Machine.fof_Z, Machine.fround, Machine.ftrunc.
  destruct (n <=? 0) eqn:E; [apply Z.leb_le in E; lia|].
  rewrite ratio_log2_int by lia.
  assert (Hl : 53 <= Z.log2 n) by (apply Z.log2_le_pow2; lia).
  pose proof (Z.log2_spec n Hn) as [Hlo _].
  unfold Machine.f64, Machine.round_scaled, Machine.fnum, Machine.fden.
  cbn [Machine.mant Machine.expo].
  set (e := Z.log2 n - (53 - 1)) in *.
  assert (He : 1 <= e) by (unfold e; lia).
  destruct (0 <=? e) eqn:E2; [|apply Z.leb_gt in E2; lia].
  rewrite Z.div_1_r, Z.mul_1_l.
  pose proof (round_half_even_ge n (2 ^ e)) as Hr.
  assert (Hp : 0 < 2 ^ e) by (apply Z.pow_pos_nonneg; lia).
  assert (Hq : 2 ^ 52 <= n / 2 ^ e).
  { apply Z.div_le_lower_bound; [lia|].
    rewrite Z.mul_comm, <- Z.pow_add_r by lia.
    replace (52 + e) with (Z.log2 n) by (unfold e; lia). exact Hlo. }
  assert (Hp2 : 2 <= 2 ^ e).
  { change 2 with (2 ^ 1) at 1. apply Z.pow_le_mono_r; lia. }
  change (2 ^ 53) with (2 ^ 52 * 2). 
  apply Z.mul_le_mono_nonneg; lia.
Qed.

(** The test [x < 1e9] on a [uint64_t] [x] is the integer comparison. *)
Lemma u64_lt_1e9 (n : Z) :
  0 <= n -> (Machine.double_of_u64 n <? 10 ^ 9) = (n <? 10 ^ 9).
Proof.
  intros H0.
  destruct (Z_lt_le_dec n (2 ^ 53)) as [Hs|Hb].
  - rewrite double_of_u64_small by lia. reflexivity.
  - pose proof (double_of_u64_large n Hb) as Hd.
    assert (H9 : 10 ^ 9 < 2 ^ 53) by reflexivity.
    transitivity false; [|symmetry]; apply Z.ltb_ge; lia.
Qed.

Lemma u64_range (z : Z) : 0 <= Machine.u64 z < 2 ^ 64.
Proof. unfold Machine.u64. apply Z.mod_pos_bound. reflexivity. Qed.

Lemma zrange_forallb (P : Z -> bool) (lo : Z) (n : nat) :
  forallb P (zrange lo n) = true ->
  forall z, lo <= z < lo + Z.of_nat n -> P z = true.
Proof.
  intros H z Hz. rewrite forallb_forall in H. apply H.
  unfold zrange. apply in_map_iff. exists (Z.to_nat (z - lo)).
  split; [lia|]. apply in_seq. lia.
Qed.

(** ** CAN send loop *)


(** C2 (as amended): a batch is dropped when the 64-bit wrapped age
    [now - logMonoTime] is at least 1e9 ns, in particular when the
    timestamp is 1 s old or older; a batch whose wrapped age is below 1e9 ns
    goes, with fake-send off, to main when [main_shift] is 0 and to aux
    (where there is one) otherwise. *)
Theorem can_send_fresh_or_dropped
    (fake_send aux : bool) (g : Shared) (now : Z) (event : SendcanEvent) :
  let age := Machine.u64_sub now (logMonoTime event) in
  let run := can_send_iteration fake_send g aux now (Some event) in
  (10 ^ 9 <= age -> run = Some []) /\
  (0 <= logMonoTime event <= now -> now < 2 ^ 64 ->
   10 ^ 9 <= now - logMonoTime event -> run = Some []) /\
  (age < 10 ^ 9 -> fake_send = false -> main_shift g = 0 ->
   run = Some [CanSend Main (sendcan event)]) /\
  (age < 10 ^ 9 -> fake_send = false -> main_shift g <> 0 -> aux = true ->
   run = Some [CanSend Aux (sendcan event)]).
Proof.
  intros age run.
  assert (Hcmp : (Machine.double_of_u64 age <? 10 ^ 9) = (age <? 10 ^ 9)).
  { apply u64_lt_1e9. apply u64_range. }
  assert (Hold : 10 ^ 9 <= age -> run = Some []).
  { intros H. unfold run, can_send_iteration. fold age. rewrite Hcmp.
    apply Z.ltb_ge in H. rewrite H. reflexivity. }
  repeat split.
  - exact Hold.
  - intros Hlog Hnow Hage. apply Hold.
    unfold age, Machine.u64_sub, Machine.u64.
    rewrite Z.mod_small by lia. exact Hage.
  - intros Hage Hfake Hshift. unfold run, can_send_iteration. fold age.
    rewrite Hcmp. apply Z.ltb_lt in Hage. rewrite Hage, Hfake, Hshift.
    reflexivity.
  - intros Hage Hfake Hshift Haux. unfold run, can_send_iteration. fold age.
    rewrite Hcmp. apply Z.ltb_lt in Hage. rewrite Hage, Hfake, Haux.
    apply Z.eqb_neq in Hshift. rewrite Hshift. reflexivity.
Qed.


(** ** Infra-red power *)

Import IR.

Lemma ir_pwr_below_cutoff (il : Z) : il <= CUTOFF_IL -> ir_pwr_of il = 0.
Proof.
  intros H. unfold ir_pwr_of. apply Z.leb_le in H. rewrite H. reflexivity.
Qed.

Lemma ir_pwr_saturated (il : Z) : SATURATE_IL < il -> ir_pwr_of il = 50.
Proof.
  intros H. unfold ir_pwr_of.
  destruct (il <=? CUTOFF_IL) eqn:E.
  - apply Z.leb_le in E. unfold CUTOFF_IL, SATURATE_IL in *. lia.
  - apply Z.ltb_lt in H. rewrite H. reflexivity.
Qed.

Lemma ir_pwr_linear_table :
  forallb
    (fun il =>
       ir_pwr_of il
         =? ir_pwr_exact il - (if is_rounded_below il then 1 else 0))
    (zrange 201 1400) = true.
Proof. vm_compute. reflexivity. Qed.

Lemma ir_pwr_step_table :
  forallb (fun il => ir_pwr_of il <=? ir_pwr_of (il + 1)) (zrange 200 1400)
    = true.
Proof. vm_compute. reflexivity. Qed.

Lemma ir_pwr_monotone_from (a : Z) (n : nat) :
  200 <= a -> a + Z.of_nat n <= 1600 ->
  ir_pwr_of a <= ir_pwr_of (a + Z.of_nat n).
Proof.
  intros Ha. induction n as [|n IH]; intros Hb.
  - rewrite Z.add_0_r. lia.
  - pose proof (zrange_forallb _ _ _ ir_pwr_step_table (a + Z.of_nat n)) as Hs.
    cbv beta in Hs. rewrite Z.leb_le in Hs.
    replace (a + Z.of_nat (S n)) with (a + Z.of_nat n + 1) by lia.
    etransitivity; [apply IH; lia|apply Hs; lia].
Qed.

(** C8 (as amended): the IR percent is 0 up to 200 lines and 50 above 1600;
    in between it is the exact value [100 * (0.5 * (integLines - 200) /
    1400)] truncated, less one at the 26 values where binary32 rounds the
    quotient below a whole percent; 200 gives 0, 1600 gives 50, 900 gives
    25, and the percent never decreases from 200 to 1600. *)
Theorem ir_pwr_piecewise :
  (forall il, il <= 200 -> ir_pwr_of il = 0) /\
  (forall il, 1600 < il -> ir_pwr_of il = 50) /\
  (forall il, 200 < il <= 1600 ->
     ir_pwr_of il = ir_pwr_exact il - (if is_rounded_below il then 1 else 0)) /\
  ir_pwr_of 200 = 0 /\ ir_pwr_of 1600 = 50 /\ ir_pwr_of 900 = 25 /\
  (forall a b, 200 <= a -> a <= b -> b <= 1600 -> ir_pwr_of a <= ir_pwr_of b).
Proof.
  split; [exact ir_pwr_below_cutoff|].
  split; [exact ir_pwr_saturated|].
  split.
  { intros il Hil.
    pose proof (zrange_forallb _ _ _ ir_pwr_linear_table il) as H.
    cbv beta in H. apply Z.eqb_eq. apply H. lia. }
  repeat split; try reflexivity.
  intros a b Ha Hab Hb.
  replace b with (a + Z.of_nat (Z.to_nat (b - a))) by lia.
  apply ir_pwr_monotone_from; lia.
Qed.

(** ** The trace monad *)

Section MonadFacts.
Context {S : Type}.

Lemma trace_bind {A B} (m : M S A) (f : A -> M S B) (s : S) :
  trace (bind m f) s = trace m s ++ trace (f (value m s)) (final m s).
Proof.
  unfold trace, value, final, bind.
  destruct (m s) as [[a s1] t1]. cbn.
  destruct (f a s1) as [[b s2] t2]. reflexivity.
Qed.

Lemma final_bind {A B} (m : M S A) (f : A -> M S B) (s : S) :
  final (bind m f) s = final (f (value m s)) (final m s).
Proof.
  unfold value, final, bind.
  destruct (m s) as [[a s1] t1]. cbn.
  destruct (f a s1) as [[b s2] t2]. reflexivity.
Qed.

Lemma trace_emit (e : Event) (s : S) : trace (emit e) s = [e].
Proof. reflexivity. Qed.

Lemma final_emit (e : Event) (s : S) : final (emit e) s = s.
Proof. reflexivity. Qed.

Lemma trace_when (c : bool) (m : M S unit) (s : S) :
  trace (when_ c m) s = if c then trace m s else [].
Proof. destruct c; reflexivity. Qed.

Lemma final_when (c : bool) (m : M S unit) (s : S) :
  final (when_ c m) s = if c then final m s else s.
Proof. destruct c; reflexivity. Qed.
End MonadFacts.

(** ** Board-state loop *)

Section BoardStateLoop.
Variables SILENT NO_OUTPUT : Z.

Local Abbreviation tick := (panda_state_tick SILENT NO_OUTPUT).
Local Abbreviation ign s := (ignition (shared s)).
Local Abbreviation running s := (safety_setter_thread_running (shared s)).

Lemma polled_safety_model (inp : TickInput) :
  safety_model (polled inp) = safety_model (main_health inp).
Proof. unfold polled. destruct (spoofing_started inp); reflexivity. Qed.

(** *** The blocks, one by one *)

Lemma aux_block_final (ps pa : health_t) (s : PandaLoop) :
  final (aux_block SILENT NO_OUTPUT ps pa) s
  = on_shared
      (set_ignition
         (if main_shift (shared s) =? 0 then ignition_of ps
          else ignition_of pa)) s.
Proof.
  unfold aux_block, final, bind, when_, gets, emit, modify, ret; cbv beta.
  destruct (safety_model pa =? SILENT),
    (negb (ign s) && negb (safety_model ps =? NO_OUTPUT)),
    (main_shift (shared s) =? 0); reflexivity.
Qed.

Lemma aux_block_trace (ps pa : health_t) (s : PandaLoop) :
  trace (aux_block SILENT NO_OUTPUT ps pa) s
  = (if safety_model pa =? SILENT
     then [SetSafetyModel Aux NO_OUTPUT 0] else [])
    ++ (if negb (ign s) && negb (safety_model ps =? NO_OUTPUT)
        then [SetSafetyModel Aux NO_OUTPUT 0] else []).
Proof.
  unfold aux_block, trace, bind, when_, gets, emit, modify, ret; cbv beta.
  destruct (safety_model pa =? SILENT),
    (negb (ign s) && negb (safety_model ps =? NO_OUTPUT)),
    (main_shift (shared s) =? 0); reflexivity.
Qed.

Lemma count_no_ignition_final (s : PandaLoop) :
  final count_no_ignition s
  = set_no_ignition_cnt
      (if ign s then 0 else Machine.u32 (no_ignition_cnt s + 1)) s.
Proof.
  unfold count_no_ignition, final, bind, gets, modify; cbv beta.
  destruct (ign s); reflexivity.
Qed.

Lemma count_no_ignition_trace (s : PandaLoop) :
  trace count_no_ignition s = [].
Proof.
  unfold count_no_ignition, trace, bind, gets, modify; cbv beta.
  destruct (ign s); reflexivity.
Qed.

Lemma power_save_final (aux : bool) (ps : health_t) (s : PandaLoop) :
  final (power_save aux ps) s = s.
Proof.
  unfold power_save, final, bind, when_, gets, emit, ret; cbv beta.
  destruct (negb (power_save_enabled ps =? Z.b2z (negb (ign s)))), aux;
    reflexivity.
Qed.

Lemma power_save_trace (aux : bool) (ps : health_t) (s : PandaLoop) :
  trace (power_save aux ps) s
  = if negb (power_save_enabled ps =? Z.b2z (negb (ign s)))
    then SetPowerSaving Main (negb (ign s))
           :: (if aux then [SetPowerSaving Aux (negb (ign s))] else [])
    else [].
Proof.
  unfold power_save, trace, bind, when_, gets, emit, ret; cbv beta.
  destruct (negb (power_save_enabled ps =? Z.b2z (negb (ign s)))), aux;
    reflexivity.
Qed.

Lemma safety_off_final (ps : health_t) (s : PandaLoop) :
  final (safety_off_when_parked NO_OUTPUT ps) s = s.
Proof.
  unfold safety_off_when_parked, final, bind, when_, gets, emit, ret; cbv beta.
  destruct (negb (ign s) && negb (safety_model ps =? NO_OUTPUT));
    reflexivity.
Qed.

Lemma safety_off_trace (ps : health_t) (s : PandaLoop) :
  trace (safety_off_when_parked NO_OUTPUT ps) s
  = if negb (ign s) && negb (safety_model ps =? NO_OUTPUT)
    then [SetSafetyModel Main NO_OUTPUT 0] else [].
Proof.
  unfold safety_off_when_parked, trace, bind, when_, gets, emit, ret; cbv beta.
  destruct (negb (ign s) && negb (safety_model ps =? NO_OUTPUT));
    reflexivity.
Qed.

Lemma ignition_edges_final (s : PandaLoop) :
  final ignition_edges s
  = if ign s && negb (ignition_last s) && negb (running s)
    then on_shared (set_safety_setter_thread_running true) s else s.
Proof.
  unfold ignition_edges, final, bind, when_, gets, emit, modify, ret; cbv beta.
  destruct (ign s), (ignition_last s); cbn; destruct (running s);
  reflexivity.
Qed.

Lemma ignition_edges_trace (s : PandaLoop) :
  trace ignition_edges s
  = if ign s && negb (ignition_last s) then
      ClearAll CLEAR_ON_IGNITION_ON
        :: (if negb (running s)
            then [StoreSetterRunning true; SpawnSafetySetter]
            else [Log "Safety setter thread already running"])
    else if negb (ign s) && ignition_last s
         then [ClearAll CLEAR_ON_IGNITION_OFF] else [].
Proof.
  unfold ignition_edges, trace, bind, when_, gets, emit, modify, ret; cbv beta.
  destruct (ign s), (ignition_last s); cbn; destruct (running s);
  reflexivity.
Qed.

Lemma rtc_writeback_final (inp : TickInput) (s : PandaLoop) :
  final (rtc_writeback inp) s = s.
Proof.
  unfold rtc_writeback, final, bind, when_, gets, emit, ret; cbv beta.
  destruct (main_has_rtc inp && negb (ign s)
            && (no_ignition_cnt s mod 120 =? 1)),
    (sys_time_valid inp), (rtc_drifted (rtc_secs inp) (sys_secs inp));
    reflexivity.
Qed.

Lemma rtc_writeback_trace (inp : TickInput) (s : PandaLoop) :
  trace (rtc_writeback inp) s
  = if main_has_rtc inp && negb (ign s) && (no_ignition_cnt s mod 120 =? 1)
       && sys_time_valid inp
    then GetRtc Main
           :: (if rtc_drifted (rtc_secs inp) (sys_secs inp)
               then [SetRtc Main (sys_secs inp); Log "Updating panda RTC"]
               else [])
    else [].
Proof.
  unfold rtc_writeback, trace, bind, when_, gets, emit, ret; cbv beta.
  destruct (main_has_rtc inp && negb (ign s)
            && (no_ignition_cnt s mod 120 =? 1)),
    (sys_time_valid inp), (rtc_drifted (rtc_secs inp) (sys_secs inp));
    reflexivity.
Qed.

Lemma publish_final (aux : bool) (s : PandaLoop) :
  final (publish aux) s = set_ignition_last (ign s) s.
Proof.
  unfold publish, final, bind, when_, gets, emit, modify, ret; cbv beta.
  destruct aux; reflexivity.
Qed.

Lemma publish_trace (aux : bool) (s : PandaLoop) :
  trace (publish aux) s
  = [GetFanSpeed Main; SendPandaState (ign s); SendHeartbeat Main]
    ++ (if aux then [SendHeartbeat Aux] else []).
Proof.
  unfold publish, trace, bind, when_, gets, emit, modify, ret; cbv beta.
  destruct aux; reflexivity.
Qed.

(** *** The whole iteration *)

(** The state after the blocks that write it, and the commands of the
    iteration in program order. *)
Lemma tick_spec (inp : TickInput) (s : PandaLoop) :
  let ps := polled inp in
  let aux := match aux_health inp with Some _ => true | None => false end in
  let s1 :=
    match aux_health inp with
    | Some pa =>
        on_shared
          (set_ignition
             (if main_shift (shared s) =? 0 then ignition_of ps
              else ignition_of pa)) s
    | None => s
    end in
  let s2 :=
    set_no_ignition_cnt
      (if ign s1 then 0 else Machine.u32 (no_ignition_cnt s1 + 1)) s1 in
  let s3 :=
    if ign s2 && negb (ignition_last s2) && negb (running s2)
    then on_shared (set_safety_setter_thread_running true) s2 else s2 in
  final (tick inp) s = set_ignition_last (ign s3) s3 /\
  trace (tick inp) s
  = GetState Main
      :: (if safety_model ps =? SILENT
          then [SetSafetyModel Main NO_OUTPUT 0] else [])
      ++ match aux_health inp with
         | Some pa =>
             GetState Aux :: trace (aux_block SILENT NO_OUTPUT ps pa) s
         | None => []
         end
      ++ trace (power_save aux ps) s2
      ++ trace (safety_off_when_parked NO_OUTPUT ps) s2
      ++ trace ignition_edges s2
      ++ trace (rtc_writeback inp) s3
      ++ trace (publish aux) s3.
Proof.
  intros ps aux s1 s2 s3.
  unfold panda_state_tick. fold ps. fold aux.
  assert (H1 : final
                 (match aux_health inp with
                  | Some pa =>
                      emit (GetState Aux) ;; aux_block SILENT NO_OUTPUT ps pa
                  | None => ret tt
                  end) s = s1).
  { unfold s1. destruct (aux_health inp) as [pa|]; [|reflexivity].
    cbv iota. rewrite final_bind, final_emit. apply aux_block_final. }
  assert (T1 : trace
                 (match aux_health inp with
                  | Some pa =>
                      emit (GetState Aux) ;; aux_block SILENT NO_OUTPUT ps pa
                  | None => ret tt
                  end) s
               = match aux_health inp with
                 | Some pa =>
                     GetState Aux :: trace (aux_block SILENT NO_OUTPUT ps pa) s
                 | None => []
                 end).
  { destruct (aux_health inp) as [pa|]; [|reflexivity].
    cbv iota. rewrite trace_bind, trace_emit, final_emit. reflexivity. }
  split.
  - repeat (rewrite final_bind; cbv beta).
    rewrite !final_emit, final_when, final_emit.
    replace (if safety_model ps =? SILENT then s else s) with s
      by (destruct (safety_model ps =? SILENT); reflexivity).
    rewrite H1, count_no_ignition_final. fold s2.
    rewrite power_save_final, safety_off_final, ignition_edges_final.
    fold s3. rewrite rtc_writeback_final. apply publish_final.
  - repeat (rewrite trace_bind; cbv beta).
    repeat (rewrite final_bind; cbv beta).
    rewrite !final_emit, final_when, final_emit.
    replace (if safety_model ps =? SILENT then s else s) with s
      by (destruct (safety_model ps =? SILENT); reflexivity).
    rewrite T1, H1, count_no_ignition_final, count_no_ignition_trace.
    fold s2.
    rewrite power_save_final, safety_off_final, ignition_edges_final.
    fold s3. rewrite rtc_writeback_final, trace_emit, trace_when, trace_emit.
    reflexivity.
Qed.

(** Case analysis on everything the state after an iteration depends
    on. *)
Ltac tick_cases s :=
  destruct s as [[shift0 shift1 run0 ign0] cnt0 last0];
  cbn;
  repeat match goal with
         | |- context [?x =? 0] => destruct (x =? 0); cbn
         | |- context [ignition_of ?h] => destruct (ignition_of h); cbn
         end;
  destruct ign0, last0, run0; reflexivity.

(** The shared [ignition] after an iteration: derived from the board whose
    shift is 0 when there is an aux board, otherwise what it was. *)
Lemma tick_ignition (inp : TickInput) (s : PandaLoop) :
  ign (final (tick inp) s)
  = match aux_health inp with
    | Some pa =>
        if main_shift (shared s) =? 0 then ignition_of (polled inp)
        else ignition_of pa
    | None => ign s
    end.
Proof.
  destruct (tick_spec inp s) as [Hf _]. rewrite Hf. clear Hf.
  destruct (aux_health inp) as [pa|]; tick_cases s.
Qed.

Lemma tick_no_ignition_cnt (inp : TickInput) (s : PandaLoop) :
  no_ignition_cnt (final (tick inp) s)
  = if ign (final (tick inp) s) then 0
    else Machine.u32 (no_ignition_cnt s + 1).
Proof.
  rewrite tick_ignition.
  destruct (tick_spec inp s) as [Hf _]. rewrite Hf. clear Hf.
  destruct (aux_health inp) as [pa|]; tick_cases s.
Qed.

Lemma tick_main_shift (inp : TickInput) (s : PandaLoop) :
  main_shift (shared (final (tick inp) s)) = main_shift (shared s).
Proof.
  destruct (tick_spec inp s) as [Hf _]. rewrite Hf. clear Hf.
  destruct (aux_health inp) as [pa|]; tick_cases s.
Qed.

(** Whether the iteration sees a rising edge and no task running. *)
Lemma tick_running (inp : TickInput) (s : PandaLoop) :
  running (final (tick inp) s)
  = running s || (ign (final (tick inp) s) && negb (ignition_last s)).
Proof.
  rewrite tick_ignition.
  destruct (tick_spec inp s) as [Hf _]. rewrite Hf. clear Hf.
  destruct (aux_health inp) as [pa|]; tick_cases s.
Qed.

Ltac split_trace :=
  repeat match goal with
         | |- Forall _ (_ ++ _) => apply Forall_app; split
         | |- Forall _ (_ :: _) => constructor
         | |- Forall _ [] => constructor
         | |- Forall _ (if ?c then _ else _) => destruct c
         | |- Forall _ (match ?x with Some _ => _ | None => _ end) =>
             destruct x
         end.

(** The commands of an iteration, block by block: what comes before the
    ignition-edge block, that block, the RTC block and the rest. *)
Lemma tick_trace_blocks (inp : TickInput) (s : PandaLoop) :
  exists head edges rtc tail s2 s3,
    trace (tick inp) s = head ++ edges ++ rtc ++ tail /\
    edges = trace ignition_edges s2 /\
    rtc = trace (rtc_writeback inp) s3 /\
    ign s2 = ign (final (tick inp) s) /\
    ignition_last s2 = ignition_last s /\
    running s2 = running s /\
    ign s3 = ign (final (tick inp) s) /\
    no_ignition_cnt s3 = no_ignition_cnt (final (tick inp) s) /\
    Forall (fun e => match e with
                     | GetState _ | SetPowerSaving _ _ => True
                     | SetSafetyModel _ m p => m = NO_OUTPUT /\ p = 0
                     | _ => False
                     end) head /\
    Forall (fun e => match e with
                     | GetFanSpeed _ | SendPandaState _ | SendHeartbeat _ =>
                         True
                     | _ => False
                     end) tail /\
    (ign (final (tick inp) s) = false ->
     safety_model (main_health inp) <> NO_OUTPUT ->
     In (SetSafetyModel Main NO_OUTPUT 0) head).
Proof.
  destruct (tick_spec inp s) as [Hf Ht]. cbv zeta in Hf, Ht.
  pose proof (tick_ignition inp s) as Hi.
  pose proof (tick_no_ignition_cnt inp s) as Hc.
  remember (final (tick inp) s) as s' eqn:Es'.
  match type of Ht with
  | _ = _ :: ?a ++ ?b ++ ?c ++ ?d ++ trace ignition_edges ?s2
          ++ trace _ ?s3 ++ ?tl =>
      exists (GetState Main :: a ++ b ++ c ++ d),
        (trace ignition_edges s2), (trace (rtc_writeback inp) s3), tl, s2, s3
  end.
  assert (Hi2 : forall c, ign (set_no_ignition_cnt c
                  match aux_health inp with
                  | Some pa =>
                      on_shared
                        (set_ignition
                           (if main_shift (shared s) =? 0
                            then ignition_of (polled inp)
                            else ignition_of pa)) s
                  | None => s
                  end) = ign s').
  { intros c. rewrite Hi. destruct (aux_health inp); reflexivity. }
  split.
  { rewrite Ht. cbn [app]. rewrite <- !app_assoc. reflexivity. }
  split; [reflexivity|]. split; [reflexivity|].
  split; [apply Hi2|].
  split; [destruct (aux_health inp); reflexivity|].
  split; [destruct (aux_health inp); reflexivity|].
  split.
  { match goal with
    | |- ign (if ?c then _ else _) = _ => destruct c
    end; [|apply Hi2].
    cbn. rewrite <- (Hi2 0). destruct (aux_health inp); reflexivity. }
  split.
  { rewrite Hf. cbn. reflexivity. }
  split.
  { split_trace; auto;
      rewrite ?aux_block_trace, ?power_save_trace, ?safety_off_trace;
      split_trace; auto. }
  split.
  { rewrite publish_trace. split_trace; auto. }
  intros Hoff Hmodel.
  right. rewrite !in_app_iff. right. right. right.
  rewrite safety_off_trace, Hi2, Hoff, polled_safety_model.
  apply Z.eqb_neq in Hmodel. rewrite Hmodel. left. reflexivity.
Qed.

(** *** Ignition *)

(** With an aux board the iteration sets [ignition] from the board whose
    shift is 0. *)
Lemma ignition_derived_with_aux (inp : TickInput) (pa : health_t)
    (s : PandaLoop) :
  aux_health inp = Some pa ->
  ign (final (tick inp) s)
  = if main_shift (shared s) =? 0 then ignition_of (polled inp)
    else ignition_of pa.
Proof. intros H. rewrite tick_ignition, H. reflexivity. Qed.

(** C1: an iteration that runs without an aux board leaves the shared
    [ignition] as it found it, whatever main reports; the claim wants it
    set to [ignition_line != 0 || ignition_can != 0] of main there. *)
Theorem ignition_kept_without_aux
    (spoofing has_rtc valid : bool) (h : health_t) (sys rtc : Z)
    (s : PandaLoop) :
  ign (final (tick (MkTickInput spoofing h None has_rtc valid sys rtc)) s)
  = ign s.
Proof. rewrite tick_ignition. reflexivity. Qed.

(** *** SILENT is overridden *)

(** C4: a board whose polled health reports SILENT gets NO_OUTPUT as the
    very next command after the poll, main and aux alike. *)
Theorem silent_overridden (inp : TickInput) (s : PandaLoop) :
  (safety_model (main_health inp) = SILENT ->
   exists post,
     trace (tick inp) s
     = GetState Main :: SetSafetyModel Main NO_OUTPUT 0 :: post) /\
  (forall pa,
     aux_health inp = Some pa -> safety_model pa = SILENT ->
     exists pre post,
       trace (tick inp) s
       = pre ++ GetState Aux :: SetSafetyModel Aux NO_OUTPUT 0 :: post).
Proof.
  destruct (tick_spec inp s) as [_ Ht]. cbv zeta in Ht. split.
  - intros Hm. rewrite Ht, polled_safety_model, Hm, Z.eqb_refl.
    eexists. reflexivity.
  - intros pa Ha Hs. rewrite Ht, Ha, aux_block_trace, Hs, Z.eqb_refl.
    exists (GetState Main
              :: (if safety_model (polled inp) =? SILENT
                  then [SetSafetyModel Main NO_OUTPUT 0] else [])).
    eexists. cbn [app]. reflexivity.
Qed.

(** *** Parked: main goes to NO_OUTPUT *)

Lemma edges_no_board_command (s : PandaLoop) :
  Forall (fun e => match e with
                   | ClearAll _ | StoreSetterRunning _ | SpawnSafetySetter
                   | Log _ => True
                   | _ => False
                   end) (trace ignition_edges s).
Proof. rewrite ignition_edges_trace. split_trace; auto. Qed.

Lemma rtc_block_events (inp : TickInput) (s : PandaLoop) :
  Forall (fun e => match e with
                   | GetRtc Main | Log _ => True
                   | SetRtc Main t => t = sys_secs inp
                   | _ => False
                   end) (trace (rtc_writeback inp) s).
Proof. rewrite rtc_writeback_trace. split_trace; auto. Qed.

(** C5: when the iteration ends with [ignition] false and main polled a
    safety model other than NO_OUTPUT, it has commanded NO_OUTPUT on main;
    and every safety model the iteration commands on main is NO_OUTPUT, so
    that is also the last one it commanded. *)
Theorem parked_main_no_output (inp : TickInput) (s : PandaLoop) :
  ign (final (tick inp) s) = false ->
  safety_model (main_health inp) <> NO_OUTPUT ->
  In (SetSafetyModel Main NO_OUTPUT 0) (trace (tick inp) s) /\
  (forall m p,
     In (SetSafetyModel Main m p) (trace (tick inp) s) ->
     m = NO_OUTPUT /\ p = 0).
Proof.
  intros Hoff Hmodel.
  destruct (tick_trace_blocks inp s)
    as (head & edges & rtc & tail & s2 & s3 & Ht & He & Hr & _ & _ & _ & _
        & _ & Hhead & Htail & Hin).
  rewrite Ht. split.
  - apply in_or_app. left. apply Hin; assumption.
  - intros m p. rewrite !in_app_iff. intros [H|[H|[H|H]]].
    + rewrite Forall_forall in Hhead. exact (Hhead _ H).
    + subst edges. pose proof (edges_no_board_command s2) as F.
      rewrite Forall_forall in F. destruct (F _ H).
    + subst rtc. pose proof (rtc_block_events inp s3) as F.
      rewrite Forall_forall in F. destruct (F _ H).
    + rewrite Forall_forall in Htail. destruct (Htail _ H).
Qed.

(** *** RTC write-back *)

(** C9: the iteration writes the host time to main's RTC exactly when
    main has an RTC, [ignition] is false, [no_ignition_cnt % 120 == 1], the
    host time is valid and the two clocks differ by more than 1.1 s; it
    writes no other RTC and no other time, and nothing at all when the
    difference is at most 1.1 s. *)
Theorem rtc_written_iff (inp : TickInput) (s : PandaLoop) :
  let s' := final (tick inp) s in
  let due :=
    main_has_rtc inp = true /\ ign s' = false /\
    no_ignition_cnt s' mod 120 = 1 /\ sys_time_valid inp = true /\
    11 < 10 * Z.abs (rtc_secs inp - sys_secs inp) in
  (In (SetRtc Main (sys_secs inp)) (trace (tick inp) s) <-> due) /\
  (forall b t, In (SetRtc b t) (trace (tick inp) s) ->
               b = Main /\ t = sys_secs inp /\ due) /\
  (10 * Z.abs (rtc_secs inp - sys_secs inp) <= 11 ->
   forall b t, ~ In (SetRtc b t) (trace (tick inp) s)).
Proof.
  intros s' due.
  destruct (tick_trace_blocks inp s)
    as (head & edges & rtc & tail & s2 & s3 & Ht & He & Hr & _ & _ & _ & Hi3
        & Hc3 & Hhead & Htail & _).
  fold s' in Hi3, Hc3.
  assert (Hblock : forall b t, In (SetRtc b t) rtc ->
                               b = Main /\ t = sys_secs inp /\ due).
  { intros b t Hin. subst rtc.
    pose proof (rtc_block_events inp s3) as F. rewrite Forall_forall in F.
    pose proof (F _ Hin) as Hbt. cbv beta iota in Hbt.
    destruct b; [|contradiction]. split; [reflexivity|]. split; [exact Hbt|].
    rewrite rtc_writeback_trace in Hin. rewrite Hi3, Hc3 in Hin.
    unfold due.
    destruct (main_has_rtc inp); [|contradiction].
    destruct (ign s'); [contradiction|].
    destruct (no_ignition_cnt s' mod 120 =? 1) eqn:Ec; [|contradiction].
    destruct (sys_time_valid inp); [|contradiction].
    unfold rtc_drifted in Hin.
    destruct (11 <? 10 * Z.abs (rtc_secs inp - sys_secs inp)) eqn:Ed.
    - apply Z.eqb_eq in Ec. apply Z.ltb_lt in Ed. auto.
    - cbn in Hin. destruct Hin as [Hin|[]]. discriminate. }
  assert (Hall : forall b t, In (SetRtc b t) (trace (tick inp) s) ->
                             In (SetRtc b t) rtc).
  { intros b t. rewrite Ht, !in_app_iff. intros [H|[H|[H|H]]].
    - rewrite Forall_forall in Hhead. destruct (Hhead _ H).
    - subst edges. pose proof (edges_no_board_command s2) as F.
      rewrite Forall_forall in F. destruct (F _ H).
    - exact H.
    - rewrite Forall_forall in Htail. destruct (Htail _ H). }
  split; [split|split].
  - intros H. apply (Hblock _ _ (Hall _ _ H)).
  - intros (Hrtc & Hoff & Hcnt & Hvalid & Hdiff).
    rewrite Ht, !in_app_iff. right. right. left. subst rtc.
    rewrite rtc_writeback_trace, Hi3, Hc3, Hrtc, Hoff, Hcnt, Hvalid.
    unfold rtc_drifted. apply Z.ltb_lt in Hdiff. rewrite Hdiff.
    cbn. auto.
  - intros b t H. apply Hblock, Hall, H.
  - intros Hsmall b t H. destruct (Hblock _ _ (Hall _ _ H)) as (_ & _ & Hd).
    unfold due in Hd. lia.
Qed.

(** *** Launch of the safety setter *)

Lemma spawns_app (a b : list Event) :
  spawns (a ++ b) = (spawns a + spawns b)%nat.
Proof. unfold spawns. rewrite filter_app. apply length_app. Qed.

Lemma spawns_none (P : Event -> Prop) (l : list Event) :
  (forall e, P e -> is_spawn e = false) -> Forall P l -> spawns l = 0%nat.
Proof.
  intros HP H. unfold spawns. induction H as [|e l He _ IH]; [reflexivity|].
  cbn. rewrite (HP e He). exact IH.
Qed.

Lemma tick_spawns (inp : TickInput) (s : PandaLoop) :
  spawns (trace (tick inp) s)
  = if ign (final (tick inp) s) && negb (ignition_last s) && negb (running s)
    then 1%nat else 0%nat.
Proof.
  destruct (tick_trace_blocks inp s)
    as (head & edges & rtc & tail & s2 & s3 & Ht & He & Hr & Hi2 & Hl2 & Hr2
        & _ & _ & Hhead & Htail & _).
  assert (Hh : spawns head = 0%nat).
  { eapply spawns_none; [|exact Hhead].
    intros [] H; try reflexivity; destruct H. }
  assert (Htl : spawns tail = 0%nat).
  { eapply spawns_none; [|exact Htail].
    intros [] H; try reflexivity; destruct H. }
  assert (Hrt : spawns rtc = 0%nat).
  { subst rtc. eapply spawns_none; [|exact (rtc_block_events inp s3)].
    intros [] H; try reflexivity; destruct H. }
  rewrite Ht, !spawns_app, Hh, Htl, Hrt.
  subst edges. rewrite ignition_edges_trace, Hi2, Hl2, Hr2.
  destruct (ign (final (tick inp) s)), (ignition_last s), (running s);
    reflexivity.
Qed.

(** A trace without a store to the flag. *)
Lemma stores_none (P : Event -> Prop) (l : list Event) :
  (forall e, P e -> match e with StoreSetterRunning _ => False | _ => True end) ->
  Forall P l -> forall v, ~ In (StoreSetterRunning v) l.
Proof.
  intros HP H v Hin. rewrite Forall_forall in H.
  exact (HP _ (H _ Hin)).
Qed.

(** Outside its ignition-edge block an iteration launches nothing and
    leaves the flag alone. *)
Lemma tick_quiet_blocks (inp : TickInput) (s : PandaLoop) :
  exists head rest s2,
    trace (tick inp) s = head ++ trace ignition_edges s2 ++ rest /\
    ign s2 = ign (final (tick inp) s) /\
    ignition_last s2 = ignition_last s /\
    running s2 = running s /\
    spawns head = 0%nat /\ (forall v, ~ In (StoreSetterRunning v) head) /\
    spawns rest = 0%nat /\ (forall v, ~ In (StoreSetterRunning v) rest).
Proof.
  destruct (tick_trace_blocks inp s)
    as (head & edges & rtc & tail & s2 & s3 & Ht & He & Hr & Hi2 & Hl2 & Hr2
        & _ & _ & Hhead & Htail & _).
  exists head, (rtc ++ tail), s2. subst edges.
  split; [exact Ht|]. split; [exact Hi2|]. split; [exact Hl2|].
  split; [exact Hr2|].
  pose proof (rtc_block_events inp s3) as Hrtc. rewrite <- Hr in Hrtc.
  split.
  { eapply spawns_none; [|exact Hhead].
    intros [] H; try reflexivity; destruct H. }
  split.
  { eapply stores_none; [|exact Hhead]. intros [] H; auto. }
  split.
  { rewrite spawns_app.
    assert (H1 : spawns rtc = 0%nat).
    { eapply spawns_none; [|exact Hrtc].
      intros [] H; try reflexivity; destruct H. }
    assert (H2 : spawns tail = 0%nat).
    { eapply spawns_none; [|exact Htail].
      intros [] H; try reflexivity; destruct H. }
    rewrite H1, H2. reflexivity. }
  intros v Hin. apply in_app_or in Hin. destruct Hin as [Hin|Hin].
  - revert v Hin. eapply stores_none; [|exact Hrtc]. intros [] H; auto.
  - revert v Hin. eapply stores_none; [|exact Htail]. intros [] H; auto.
Qed.

Variable ELM327 : Z.
Variable decode_car_params : string -> Z * Z.

Local Abbreviation reach :=
  (reachable SILENT NO_OUTPUT ELM327 decode_car_params).

(** The flag is set exactly while a task has its last store ahead. *)
Lemma setters_invariant (d0 d : Daemon) :
  working_setters d0 = (if running (loop d0) then 1 else 0)%nat ->
  reach d0 d ->
  working_setters d = (if running (loop d) then 1 else 0)%nat.
Proof.
  intros H0 Hreach. induction Hreach as [|d d' _ IH Hstep]; [exact H0|].
  destruct Hstep as [d inp|d aux polls r Hlive Hout|d Hend|d];
    cbn [loop working_setters].
  - rewrite tick_spawns, tick_running, IH.
    destruct (running (loop d)); cbn [orb negb andb];
      [rewrite andb_false_r; reflexivity|].
    rewrite andb_true_r.
    destruct (ign (final (tick inp) (loop d)) && negb (ignition_last (loop d)));
      reflexivity.
  - assert (r = false).
    { unfold safety_setter_thread in Hout.
      destruct (wait_car_vin polls) as [vin polls2| | |];
        try (cbn in Hout; congruence).
      destruct (wait_car_params polls2) as [params polls3| | |];
        try (cbn in Hout; congruence).
      destruct (decode_car_params params). cbn in Hout. congruence. }
    subst r. cbn. rewrite IH in Hlive |- *.
    destruct (running (loop d)); [reflexivity|lia].
  - exact IH.
  - exact IH.
Qed.

(** C6 (as amended): on a rising edge the CLEAR_ON_IGNITION_ON parameters
    are cleared before anything is launched and before the flag is touched;
    when the flag was clear the iteration then stores [true] in it and
    launches a task, in that order and nothing of the kind again; when it was
    set nothing is launched and nothing stored; an iteration launches only
    on a rising edge with the flag clear; and over every run of the daemon
    from boot the flag is set exactly while a task has its last store still
    ahead, so at most one such task exists. *)
Theorem safety_setter_launch (inp : TickInput) (s : PandaLoop) :
  (ign (final (tick inp) s) = true -> ignition_last s = false ->
   exists pre post,
     trace (tick inp) s = pre ++ ClearAll CLEAR_ON_IGNITION_ON :: post /\
     spawns pre = 0%nat /\
     (forall v, ~ In (StoreSetterRunning v) pre) /\
     running (final (tick inp) s) = true /\
     (running s = false ->
      exists post',
        post = StoreSetterRunning true :: SpawnSafetySetter :: post' /\
        spawns post' = 0%nat /\
        (forall v, ~ In (StoreSetterRunning v) post')) /\
     (running s = true ->
      spawns post = 0%nat /\ (forall v, ~ In (StoreSetterRunning v) post))) /\
  (spawns (trace (tick inp) s) <> 0%nat ->
   ign (final (tick inp) s) = true /\ ignition_last s = false /\
   running s = false) /\
  (forall shift0 shift1 d,
     reach (boot shift0 shift1) d ->
     (working_setters d <= 1)%nat /\
     working_setters d = (if running (loop d) then 1 else 0)%nat).
Proof.
  split; [|split].
  - intros Hon Hlast.
    destruct (tick_quiet_blocks inp s)
      as (head & rest & s2 & Ht & Hi2 & Hl2 & Hr2 & Hh & Hhs & Hr & Hrs).
    rewrite ignition_edges_trace, Hi2, Hl2, Hr2, Hon, Hlast in Ht.
    cbn [andb negb] in Ht.
    exists head,
      ((if negb (running s)
        then [StoreSetterRunning true; SpawnSafetySetter]
        else [Log "Safety setter thread already running"]) ++ rest).
    split; [exact Ht|].
    split; [exact Hh|]. split; [exact Hhs|].
    split; [rewrite tick_running, Hon, Hlast; apply orb_true_r|].
    split.
    + intros Hrun. rewrite Hrun. exists rest.
      split; [reflexivity|]. split; [exact Hr|exact Hrs].
    + intros Hrun. rewrite Hrun. cbn [negb app]. split.
      * exact Hr.
      * intros v [H|H]; [discriminate|exact (Hrs v H)].
  - rewrite tick_spawns.
    destruct (ign (final (tick inp) s)), (ignition_last s), (running s);
      cbn; intros H; auto; contradiction.
  - intros shift0 shift1 d Hreach.
    pose proof (setters_invariant (boot shift0 shift1) d eq_refl Hreach) as H.
    split; [|exact H]. rewrite H. destruct (running (loop d)); lia.
Qed.

End BoardStateLoop.

(** ** Safety setter *)

Section SafetySetter.
Variable ELM327 : Z.
Variable decode_car_params : string -> Z * Z.

Local Abbreviation setter := (safety_setter_thread ELM327 decode_car_params).

(** A poll that leaves the first loop waiting. *)
Local Abbreviation vin_missing w :=
  (do_exit w = false /\ main_connected w = true /\
   String.length (params_get w "CarVin") = 0%nat).

(** A poll that leaves the second loop waiting. *)
Local Abbreviation params_missing w :=
  (do_exit w = false /\ main_connected w = true /\
   (params_getBool w "ControlsReady" = false \/
    String.length (params_get w "CarParams") = 0%nat)).

Lemma wait_car_vin_skip (waits rest : list World) :
  Forall (fun w => vin_missing w) waits ->
  wait_car_vin (waits ++ rest) = wait_car_vin rest.
Proof.
  induction 1 as [|w waits (He & Hc & Hv) _ IH]; [reflexivity|].
  cbn [wait_car_vin app]. rewrite He, Hc, Hv. cbn. exact IH.
Qed.

Lemma wait_car_vin_got (w : World) (rest : list World) :
  do_exit w = false -> main_connected w = true ->
  String.length (params_get w "CarVin") = 17%nat ->
  wait_car_vin (w :: rest) = Got (params_get w "CarVin") rest.
Proof.
  intros He Hc Hv. cbn [wait_car_vin]. rewrite He, Hc, Hv. reflexivity.
Qed.

Lemma wait_car_vin_inv (polls rest : list World) (vin : string) :
  wait_car_vin polls = Got vin rest ->
  exists waits w,
    polls = waits ++ w :: rest /\
    Forall (fun w => vin_missing w) waits /\
    do_exit w = false /\ main_connected w = true /\
    vin = params_get w "CarVin" /\ String.length vin = 17%nat.
Proof.
  induction polls as [|w polls IH]; cbn [wait_car_vin]; [discriminate|].
  destruct (do_exit w) eqn:He; [discriminate|].
  destruct (main_connected w) eqn:Hc; [|discriminate]. cbn [orb negb].
  destruct (0 <? String.length (params_get w "CarVin"))%nat eqn:E0.
  - destruct (String.length (params_get w "CarVin") =? 17)%nat eqn:E;
      [|discriminate].
    intros H. inversion H. subst. exists [], w.
    apply Nat.eqb_eq in E. repeat split; auto.
  - intros H. destruct (IH H) as (waits & w' & -> & Hw & H').
    exists (w :: waits), w'. split; [reflexivity|]. split; [|exact H'].
    constructor; [|exact Hw]. apply Nat.ltb_ge in E0.
    repeat split; auto. lia.
Qed.

Lemma wait_car_vin_assert (w : World) (rest : list World) :
  do_exit w = false -> main_connected w = true ->
  String.length (params_get w "CarVin") <> 0%nat ->
  String.length (params_get w "CarVin") <> 17%nat ->
  wait_car_vin (w :: rest) = Assert.
Proof.
  intros He Hc H0 H17. cbn [wait_car_vin]. rewrite He, Hc. cbn [orb negb].
  apply Nat.eqb_neq in H17. rewrite H17.
  destruct (String.length (params_get w "CarVin")); [contradiction|].
  reflexivity.
Qed.

Lemma wait_car_params_skip (waits rest : list World) :
  Forall (fun w => params_missing w) waits ->
  wait_car_params (waits ++ rest) = wait_car_params rest.
Proof.
  induction 1 as [|w waits (He & Hc & Hv) _ IH]; [reflexivity|].
  cbn [wait_car_params app]. rewrite He, Hc. cbn [orb negb].
  destruct (params_getBool w "ControlsReady"); [|exact IH].
  destruct Hv as [Hv|Hv]; [discriminate|]. rewrite Hv. exact IH.
Qed.

Lemma wait_car_params_got (w : World) (rest : list World) :
  do_exit w = false -> main_connected w = true ->
  params_getBool w "ControlsReady" = true ->
  (0 < String.length (params_get w "CarParams"))%nat ->
  wait_car_params (w :: rest) = Got (params_get w "CarParams") rest.
Proof.
  intros He Hc Hr Hp. cbn [wait_car_params]. rewrite He, Hc, Hr.
  cbn [orb negb]. apply Nat.ltb_lt in Hp. rewrite Hp. reflexivity.
Qed.

Lemma wait_car_params_inv (polls rest : list World) (params : string) :
  wait_car_params polls = Got params rest ->
  exists waits w,
    polls = waits ++ w :: rest /\
    Forall (fun w => params_missing w) waits /\
    do_exit w = false /\ main_connected w = true /\
    params_getBool w "ControlsReady" = true /\
    params = params_get w "CarParams" /\ (0 < String.length params)%nat.
Proof.
  induction polls as [|w polls IH]; cbn [wait_car_params]; [discriminate|].
  destruct (do_exit w) eqn:He; [discriminate|].
  destruct (main_connected w) eqn:Hc; [|discriminate]. cbn [orb negb].
  assert (Hwait : (params_getBool w "ControlsReady" = false \/
                   String.length (params_get w "CarParams") = 0%nat) ->
                  wait_car_params polls = Got params rest ->
                  exists waits w0,
                    w :: polls = waits ++ w0 :: rest /\
                    Forall (fun w => params_missing w) waits /\
                    do_exit w0 = false /\ main_connected w0 = true /\
                    params_getBool w0 "ControlsReady" = true /\
                    params = params_get w0 "CarParams" /\
                    (0 < String.length params)%nat).
  { intros Hm H. destruct (IH H) as (waits & w' & -> & Hw & H').
    exists (w :: waits), w'. split; [reflexivity|]. split; [|exact H'].
    constructor; [|exact Hw]. auto. }
  destruct (params_getBool w "ControlsReady") eqn:Er;
    [|apply Hwait; left; reflexivity].
  destruct (0 <? String.length (params_get w "CarParams"))%nat eqn:E.
  - intros H. inversion H. subst. exists [], w.
    apply Nat.ltb_lt in E. repeat split; auto.
  - apply Hwait. right. apply Nat.ltb_ge in E. lia.
Qed.

(** The commands of a run that reaches its end, call by call. *)
Lemma setter_finished_trace (aux : AuxTests) (params : string) :
  (let '(safety_model, safety_param) := decode_car_params params in
   Finished
     ((set_safety_model_both (aux_54 aux) ELM327 0
       ++ set_safety_model_both (aux_77 aux) ELM327 1)
        ++ [SetUnsafeMode Main 0]
        ++ set_safety_model_both (aux_106 aux) safety_model safety_param)
     false)
  = Finished
      (issued_sequence ELM327 aux (fst (decode_car_params params))
         (snd (decode_car_params params))) false.
Proof.
  destruct (decode_car_params params) as [m p].
  destruct aux as [[] [] []]; reflexivity.
Qed.

(** C3: a run reaches its end exactly when its polls are those the spec
    describes (waiting, then a VIN of 17 characters, waiting, then
    ControlsReady with a non-empty CarParams, no exit request and main
    connected throughout); it has then issued ELM327, ELM327 with param 1,
    unsafe mode 0 on main and the model and param decoded from that
    CarParams, and has cleared the flag.  Each set_safety_model goes to main
    and to aux where the test of [aux_panda] before that call found one:
    when the three tests agree this is the claim's sequence, to both boards
    throughout; the claim wants it of every run.  A run that returns early
    has cleared the flag too, and a first non-empty VIN of another length
    kills the run on its assertion, after ELM327 alone. *)
Theorem safety_setter_sequence (aux : AuxTests) (polls : list World) :
  (forall tr running,
     setter aux polls = Finished tr running <->
     running = false /\
     exists waits1 w1 waits2 w2 rest,
       polls = waits1 ++ w1 :: waits2 ++ w2 :: rest /\
       Forall (fun w => vin_missing w) waits1 /\
       do_exit w1 = false /\ main_connected w1 = true /\
       String.length (params_get w1 "CarVin") = 17%nat /\
       Forall (fun w => params_missing w) waits2 /\
       do_exit w2 = false /\ main_connected w2 = true /\
       params_getBool w2 "ControlsReady" = true /\
       (0 < String.length (params_get w2 "CarParams"))%nat /\
       tr = issued_sequence ELM327 aux
              (fst (decode_car_params (params_get w2 "CarParams")))
              (snd (decode_car_params (params_get w2 "CarParams")))) /\
  (forall a model param,
     aux_54 aux = a -> aux_77 aux = a -> aux_106 aux = a ->
     issued_sequence ELM327 aux model param
     = commanded_sequence ELM327 a model param) /\
  (forall tr running, setter aux polls = Cancelled tr running ->
                      running = false) /\
  (forall waits1 w1 rest,
     polls = waits1 ++ w1 :: rest ->
     Forall (fun w => vin_missing w) waits1 ->
     do_exit w1 = false -> main_connected w1 = true ->
     String.length (params_get w1 "CarVin") <> 0%nat ->
     String.length (params_get w1 "CarVin") <> 17%nat ->
     setter aux polls
     = AssertFailed (set_safety_model_both (aux_54 aux) ELM327 0)).
Proof.
  split; [|split; [|split]].
  - intros tr running. split.
    + unfold safety_setter_thread.
      destruct (wait_car_vin polls) as [vin polls2| | |] eqn:E1;
        try discriminate.
      destruct (wait_car_params polls2) as [params polls3| | |] eqn:E2;
        try discriminate.
      rewrite setter_finished_trace. intros H. inversion H. subst.
      split; [reflexivity|].
      destruct (wait_car_vin_inv _ _ _ E1)
        as (waits1 & w1 & -> & Hw1 & He1 & Hc1 & -> & Hv).
      destruct (wait_car_params_inv _ _ _ E2)
        as (waits2 & w2 & -> & Hw2 & He2 & Hc2 & Hr & -> & Hp).
      exists waits1, w1, waits2, w2, polls3. repeat split; auto.
    + intros (-> & waits1 & w1 & waits2 & w2 & rest & -> & Hw1 & He1 & Hc1
              & Hv & Hw2 & He2 & Hc2 & Hr & Hp & ->).
      unfold safety_setter_thread.
      rewrite wait_car_vin_skip by exact Hw1.
      rewrite wait_car_vin_got by assumption.
      rewrite wait_car_params_skip by exact Hw2.
      rewrite wait_car_params_got by assumption.
      apply setter_finished_trace.
  - intros a model param <- H77 H106. unfold issued_sequence.
    rewrite H77, H106. destruct (aux_54 aux); reflexivity.
  - intros tr running. unfold safety_setter_thread.
    destruct (wait_car_vin polls) as [vin polls2| | |];
      try discriminate; [|intros H; inversion H; reflexivity].
    destruct (wait_car_params polls2) as [params polls3| | |];
      try discriminate; [|intros H; inversion H; reflexivity].
    destruct (decode_car_params params). discriminate.
  - intros waits1 w1 rest -> Hw1 He1 Hc1 H0 H17.
    unfold safety_setter_thread.
    rewrite wait_car_vin_skip by exact Hw1.
    rewrite wait_car_vin_assert by assumption. reflexivity.
Qed.

End SafetySetter.

(** ** GPS loop *)

(** A timeout alone never re-initialises the receiver: without a rising
    edge and without a leading null byte there is no [init]. *)
Lemma timeout_only_logs (inp : PigeonInput) (st : PigeonLocals) :
  ignition_594 inp && negb (pg_ignition_last st) = false ->
  ignition_583 inp && starts_with_null (recv inp) = false ->
  ~ In PigeonInit (snd (pigeon_iteration inp st)).
Proof.
  intros Hedge Hnull. unfold pigeon_iteration. rewrite Hedge, Hnull.
  cbn [orb].
  destruct (negb (ignition_602 inp) && pg_ignition_last st); cbn [snd];
    rewrite !in_app_iff; intros [H|[H|[H|H]]];
    try (unfold check_timeouts in H; apply in_flat_map in H;
         destruct H as ([c d] & _ & H);
         destruct (pg_ignition_last st && ignition_575 inp c && (d <? _));
         cbn in H; intuition discriminate);
    try (destruct (recv inp); cbn in H; intuition discriminate);
    cbn in H; intuition discriminate.
Qed.

(** C7 (as amended): when the load of ignition at the null-byte check
    returns true and the buffer starts with a null byte the iteration logs
    the warning, publishes the bytes and re-initialises the receiver,
    priming the last-seen time of both classes to ten seconds ahead; before
    that it has at most logged timeouts.  What the other loads of ignition
    return plays no part. *)
Theorem null_byte_reinitialises (inp : PigeonInput) (st : PigeonLocals) :
  ignition_583 inp = true ->
  starts_with_null (recv inp) = true ->
  (exists pre,
     snd (pigeon_iteration inp st)
     = pre ++ [Log "received invalid ublox message while onroad, resetting panda GPS";
               SendUbloxRaw (recv inp); PigeonInit] /\
     Forall (fun e => e = Log "ublox receive timeout") pre) /\
  (forall cls, In cls [Ublox.CLASS_NAV; Ublox.CLASS_RXM] ->
     last_recv_time (fst (pigeon_iteration inp st)) cls
     = Machine.u64 (t_init inp + 10000000000)).
Proof.
  intros Hign Hnull. unfold pigeon_iteration. rewrite Hign, Hnull.
  cbn [andb orb]. rewrite orb_true_r. cbn [fst snd]. split.
  - exists (check_timeouts inp (pg_ignition_last st)
              (parse_header inp (last_recv_time st))).
    split.
    + destruct (recv inp) as [|b0 dat]; [discriminate|]. reflexivity.
    + unfold check_timeouts, cls_max_dt. cbn [flat_map].
      repeat match goal with
             | |- context [if ?c then _ else _] => destruct c
             end; repeat constructor.
  - intros cls [<-|[<-|[]]]; reflexivity.
Qed.

(** ** The definitions at work on the scenarios *)

Import Scenario.

Ltac evaluate :=
  vm_compute; first [reflexivity | discriminate | intro; discriminate].

(** Stale, fresh and aux-routed batches. *)
Lemma can_send_fresh_or_dropped_run :
  can_send_iteration false globals true 5000000000
    (Some (MkSendcan 3500000000 [x01])) = Some [] /\
  can_send_iteration false globals true 5000000000
    (Some (MkSendcan 4900000000 [x01])) = Some [CanSend Main [x01]] /\
  can_send_iteration false globals_aux_drive true 5000000000
    (Some (MkSendcan 4900000000 [x01])) = Some [CanSend Aux [x01]].
Proof.
  pose proof (can_send_fresh_or_dropped false true globals 5000000000
                (MkSendcan 3500000000 [x01])) as (H1 & H2 & _).
  pose proof (can_send_fresh_or_dropped false true globals 5000000000
                (MkSendcan 4900000000 [x01])) as (_ & _ & H3 & _).
  pose proof (can_send_fresh_or_dropped false true globals_aux_drive
                5000000000 (MkSendcan 4900000000 [x01])) as (_ & _ & _ & H4).
  split; [|split].
  - apply H1. evaluate.
  - apply H3; evaluate.
  - apply H4; evaluate.
Defined.

(** C2 as stated fails: a batch exactly 1 s old is not older than 1 s, and
    is dropped all the same (so is one stamped in the future). *)
Lemma can_send_one_second_old_dropped :
  ~ (forall (fake_send aux : bool) (g : Shared) (now : Z)
            (event : SendcanEvent),
       0 <= now < 2 ^ 64 -> 0 <= logMonoTime event < 2 ^ 64 ->
       (10 ^ 9 < now - logMonoTime event ->
        can_send_iteration fake_send g aux now (Some event) = Some []) /\
       (now - logMonoTime event <= 10 ^ 9 -> fake_send = false ->
        can_send_iteration fake_send g aux now (Some event)
        = Some [CanSend (if main_shift g =? 0 then Main else Aux)
                  (sendcan event)])).
Proof.
  intros H.
  destruct (H false true globals 5000000000 (MkSendcan 4000000000 [x01]))
    as [_ Hsend]; [cbn; lia|cbn; lia|].
  specialize (Hsend ltac:(cbn; lia) eq_refl).
  vm_compute in Hsend. discriminate Hsend.
Qed.

Lemma can_send_boundary_runs :
  can_send_iteration false globals true 5000000000
    (Some (MkSendcan 4000000000 [x01])) = Some [] /\
  can_send_iteration false globals true 5000000000
    (Some (MkSendcan 4000000001 [x01])) = Some [CanSend Main [x01]] /\
  can_send_iteration false globals true 5000000000
    (Some (MkSendcan 5000000001 [x01])) = Some [] /\
  can_send_iteration false globals_aux_drive false 5000000000
    (Some (MkSendcan 4900000000 [x01])) = None.
Proof. repeat split; vm_compute; reflexivity. Qed.



(** The IR percent at a few line counts. *)
Lemma ir_pwr_piecewise_run :
  ir_pwr_of 150 = 0 /\ ir_pwr_of 2000 = 50 /\
  ir_pwr_of 500 = ir_pwr_exact 500 - (if is_rounded_below 500 then 1 else 0) /\
  ir_pwr_of 300 <= ir_pwr_of 1200.
Proof.
  destruct ir_pwr_piecewise as (H1 & H2 & H3 & _ & _ & _ & H4).
  split; [apply H1; lia|]. split; [apply H2; lia|].
  split; [apply H3; lia|apply H4; lia].
Defined.

(** C8 as stated fails: at 228 lines the exact value is 1 percent, the
    code computes 14.0f / 1400.0f = 0x3C23D70A, just below 0.01, and
    truncates [100.0 * 0.00999999977648258] to 0. *)
Lemma ir_pwr_228_is_zero :
  ~ (forall il, 200 < il <= 1600 -> ir_pwr_of il = ir_pwr_exact il).
Proof.
  intros H. specialize (H 228 ltac:(lia)). vm_compute in H. discriminate H.
Qed.

Lemma ir_pwr_quotient_at_228 :
  Machine.fdiv Machine.f32
    (Machine.fmul Machine.f32 (Machine.fof_Z Machine.f32 28) MAX_IR_POWER)
    (Machine.fof_Z Machine.f32 1400)
  = Machine.BinFloat 10737418 (-30) /\
  ir_pwr_of 228 = 0 /\ ir_pwr_exact 228 = 1.
Proof. repeat split; vm_compute; reflexivity. Qed.

(** C1, at the failing input: one board, ignition line up, default
    shifts; the iteration leaves [ignition] false. *)
Lemma ignition_stuck_with_one_board :
  let inp := tick_input (health 1 NO_OUTPUT) None 0 0 in
  ignition_of (polled inp) = true /\
  ignition (shared (final (panda_state_tick SILENT NO_OUTPUT inp) fresh_loop))
  = false /\
  trace (panda_state_tick SILENT NO_OUTPUT inp) fresh_loop
  = [GetState Main; SetPowerSaving Main true; GetRtc Main;
     GetFanSpeed Main; SendPandaState false; SendHeartbeat Main].
Proof. repeat split; vm_compute; reflexivity. Qed.

(** Both boards report SILENT. *)
Lemma silent_overridden_run :
  let inp := tick_input (health 0 SILENT) (Some (health 0 SILENT)) 0 0 in
  (exists post,
     trace (panda_state_tick SILENT NO_OUTPUT inp) fresh_loop
     = GetState Main :: SetSafetyModel Main NO_OUTPUT 0 :: post) /\
  (exists pre post,
     trace (panda_state_tick SILENT NO_OUTPUT inp) fresh_loop
     = pre ++ GetState Aux :: SetSafetyModel Aux NO_OUTPUT 0 :: post).
Proof.
  intros inp.
  destruct (silent_overridden SILENT NO_OUTPUT inp fresh_loop) as [H1 H2].
  split; [apply H1; reflexivity|].
  apply (H2 (health 0 SILENT)); reflexivity.
Defined.

(** Parked with main still in ELM327. *)
Lemma parked_main_no_output_run :
  let inp := tick_input (health 0 ELM327) None 0 0 in
  In (SetSafetyModel Main NO_OUTPUT 0)
    (trace (panda_state_tick SILENT NO_OUTPUT inp) fresh_loop) /\
  (forall m p,
     In (SetSafetyModel Main m p)
       (trace (panda_state_tick SILENT NO_OUTPUT inp) fresh_loop) ->
     m = NO_OUTPUT /\ p = 0).
Proof.
  intros inp.
  apply (parked_main_no_output SILENT NO_OUTPUT inp fresh_loop); evaluate.
Defined.

(** First parked iteration, board clock five seconds off; and one second
    off. *)
Lemma rtc_written_iff_run :
  In (SetRtc Main 1000)
    (trace (panda_state_tick SILENT NO_OUTPUT
              (tick_input (health 0 NO_OUTPUT) None 1005 1000)) fresh_loop) /\
  (forall b t,
     ~ In (SetRtc b t)
         (trace (panda_state_tick SILENT NO_OUTPUT
                   (tick_input (health 0 NO_OUTPUT) None 1001 1000))
            fresh_loop)).
Proof.
  split.
  - destruct (rtc_written_iff SILENT NO_OUTPUT
                (tick_input (health 0 NO_OUTPUT) None 1005 1000) fresh_loop)
      as [[_ H] _].
    apply H. repeat split; evaluate.
  - destruct (rtc_written_iff SILENT NO_OUTPUT
                (tick_input (health 0 NO_OUTPUT) None 1001 1000) fresh_loop)
      as (_ & _ & H).
    apply H. evaluate.
Defined.

(** Ignition comes up with both boards present: clear, store, launch. *)
Lemma safety_setter_launch_run :
  let inp := tick_input (health 1 NO_OUTPUT) (Some (health 0 NO_OUTPUT)) 0 0 in
  (exists pre post',
     trace (panda_state_tick SILENT NO_OUTPUT inp) fresh_loop
     = pre ++ ClearAll CLEAR_ON_IGNITION_ON :: StoreSetterRunning true
           :: SpawnSafetySetter :: post' /\
     spawns pre = 0%nat /\ spawns post' = 0%nat) /\
  (working_setters
     (MkDaemon (final (panda_state_tick SILENT NO_OUTPUT inp) fresh_loop) 1 0)
   <= 1)%nat.
Proof.
  intros inp.
  destruct (safety_setter_launch SILENT NO_OUTPUT ELM327 decode inp fresh_loop)
    as (H1 & _ & H3).
  split.
  - destruct (H1 eq_refl eq_refl)
      as (pre & post & Ht & Hp & _ & _ & Hclear & _).
    destruct (Hclear eq_refl) as (post' & -> & Hq & _).
    exists pre, post'. auto.
  - apply (H3 0 3). eapply reach_step; [apply reach_refl|].
    exact (step_tick SILENT NO_OUTPUT ELM327 decode (boot 0 3) inp).
Defined.

(** C6 as stated fails: a task that has cleared the flag and has not
    returned yet is still there when the next rising edge launches another
    one.  Ignition comes up and a task is launched; ignition goes down; the
    task, done with its commands, clears the flag as the iteration that
    finds ignition up again gets under way. *)
Lemma two_setters_alive :
  ~ (forall d,
       reachable SILENT NO_OUTPUT ELM327 decode (boot 0 3) d ->
       (live_setters d <= 1)%nat).
Proof.
  intros H.
  set (on := tick_input (health 1 NO_OUTPUT) (Some (health 0 NO_OUTPUT)) 0 0).
  set (off := tick_input (health 0 NO_OUTPUT) (Some (health 0 NO_OUTPUT)) 0 0).
  pose proof (reach_step SILENT NO_OUTPUT ELM327 decode _ _ _
                (reach_refl SILENT NO_OUTPUT ELM327 decode (boot 0 3))
                (step_tick SILENT NO_OUTPUT ELM327 decode (boot 0 3) on))
    as R1.
  pose proof (reach_step SILENT NO_OUTPUT ELM327 decode _ _ _ R1
                (step_tick SILENT NO_OUTPUT ELM327 decode _ off)) as R2.
  match type of R2 with
  | reachable _ _ _ _ _ ?d2 =>
      pose proof (step_setter_store SILENT NO_OUTPUT ELM327 decode d2
                    aux_throughout [vin_ready; all_ready] false) as S3
  end.
  specialize (S3 ltac:(vm_compute; lia) eq_refl).
  pose proof (reach_step SILENT NO_OUTPUT ELM327 decode _ _ _ R2 S3) as R3.
  pose proof (reach_step SILENT NO_OUTPUT ELM327 decode _ _ _ R3
                (step_tick SILENT NO_OUTPUT ELM327 decode _ on)) as R4.
  specialize (H _ R4). vm_compute in H. lia.
Qed.

(** Scenario 2: the parameters arrive after a few polls. *)
Lemma safety_setter_sequence_run :
  safety_setter_thread ELM327 decode aux_throughout
    ([no_params; no_params] ++ vin_ready :: [vin_ready] ++ all_ready :: [])
  = Finished
      [SetSafetyModel Main ELM327 0; SetSafetyModel Aux ELM327 0;
       SetSafetyModel Main ELM327 1; SetSafetyModel Aux ELM327 1;
       SetUnsafeMode Main 0;
       SetSafetyModel Main HONDA_NIDEC 0; SetSafetyModel Aux HONDA_NIDEC 0]
      false.
Proof.
  destruct (safety_setter_sequence ELM327 decode aux_throughout
              ([no_params; no_params] ++ vin_ready :: [vin_ready]
                 ++ all_ready :: [])) as (H & _).
  apply H. split; [reflexivity|].
  exists [no_params; no_params], vin_ready, [vin_ready], all_ready, [].
  split; [reflexivity|]. split; [repeat constructor|].
  split; [reflexivity|]. split; [reflexivity|]. split; [reflexivity|].
  split; [repeat constructor|].
  split; [reflexivity|]. split; [reflexivity|]. split; [reflexivity|].
  split; [vm_compute; lia|reflexivity].
Defined.

(** C3, at the failing input: the aux board is opened while the run
    waits for the VIN.  It is then locked in ELM327 and given the model
    without having been commanded ELM327 first, which is the claim's
    sequence neither for one board nor for two. *)
Lemma aux_joins_mid_run :
  safety_setter_thread ELM327 decode aux_joins
    [no_params; vin_ready; all_ready]
  = Finished
      [SetSafetyModel Main ELM327 0;
       SetSafetyModel Main ELM327 1; SetSafetyModel Aux ELM327 1;
       SetUnsafeMode Main 0;
       SetSafetyModel Main HONDA_NIDEC 0; SetSafetyModel Aux HONDA_NIDEC 0]
      false /\
  forall a model param,
    [SetSafetyModel Main ELM327 0;
     SetSafetyModel Main ELM327 1; SetSafetyModel Aux ELM327 1;
     SetUnsafeMode Main 0;
     SetSafetyModel Main HONDA_NIDEC 0; SetSafetyModel Aux HONDA_NIDEC 0]
    <> commanded_sequence ELM327 a model param.
Proof.
  split; [vm_compute; reflexivity|].
  intros a model param E. destruct a; vm_compute in E; discriminate E.
Qed.

(** Onroad, the receiver hands back a buffer that starts with a null
    byte. *)
Lemma null_byte_reinitialises_run :
  (exists pre,
     snd (pigeon_iteration (gps_input true [x00; x01]) (gps_locals true))
     = pre ++ [Log "received invalid ublox message while onroad, resetting panda GPS";
               SendUbloxRaw [x00; x01]; PigeonInit] /\
     Forall (fun e => e = Log "ublox receive timeout") pre) /\
  (forall cls, In cls [Ublox.CLASS_NAV; Ublox.CLASS_RXM] ->
     last_recv_time
       (fst (pigeon_iteration (gps_input true [x00; x01]) (gps_locals true)))
       cls
     = Machine.u64 (1000 + 10000000000)).
Proof.
  apply (null_byte_reinitialises (gps_input true [x00; x01])
           (gps_locals true)); reflexivity.
Defined.

(** C7 as stated fails: on that input, with ignition on at every load,
    the iteration does call [init]. *)
Lemma null_byte_calls_init :
  ~ (forall inp st,
       loads_agree true inp -> starts_with_null (recv inp) = true ->
       ~ In PigeonInit (snd (pigeon_iteration inp st))).
Proof.
  intros H.
  apply (H (gps_input true [x00; x01]) (gps_locals true));
    [repeat split|reflexivity|].
  vm_compute. intuition.
Qed.

(** * Further properties of the daemon *)

(** ** Firmware signature in hex *)

Section HexFacts.
Import Hex.

Lemma hex_byte_table :
  forallb
    (fun x =>
       is_lower_hex (NIBBLE_TO_HEX (Z.shiftr x 4))
       && is_lower_hex (NIBBLE_TO_HEX (Z.land x 15))
       && (16 * hex_value (NIBBLE_TO_HEX (Z.shiftr x 4))
           + hex_value (NIBBLE_TO_HEX (Z.land x 15)) =? x))
    (zrange 0 256) = true.
Proof. vm_compute. reflexivity. Qed.

Lemma hex_byte (b : Z) :
  is_lower_hex (NIBBLE_TO_HEX (Z.shiftr (u8 b) 4)) = true /\
  is_lower_hex (NIBBLE_TO_HEX (Z.land (u8 b) 15)) = true /\
  16 * hex_value (NIBBLE_TO_HEX (Z.shiftr (u8 b) 4))
  + hex_value (NIBBLE_TO_HEX (Z.land (u8 b) 15)) = u8 b.
Proof.
  pose proof (zrange_forallb _ _ _ hex_byte_table (u8 b)) as H.
  cbv beta in H.
  assert (Hr : 0 <= u8 b < 0 + Z.of_nat 256).
  { unfold u8. pose proof (Z.mod_pos_bound b 256). lia. }
  specialize (H Hr). rewrite !andb_true_iff, Z.eqb_eq in H. tauto.
Qed.

(** The text written for a signature of at least eight bytes. *)
Lemma fw_sig_hex_eight (b0 b1 b2 b3 b4 b5 b6 b7 : Z) (rest : list Z) :
  fw_sig_hex (b0 :: b1 :: b2 :: b3 :: b4 :: b5 :: b6 :: b7 :: rest)
  = Some
      (flat_map
         (fun b => [NIBBLE_TO_HEX (Z.shiftr (u8 b) 4);
                    NIBBLE_TO_HEX (Z.land (u8 b) 15)])
         [b0; b1; b2; b3; b4; b5; b6; b7]).
Proof. reflexivity. Qed.

Lemma fw_sig_hex_short (fw_sig : list Z) :
  (List.length fw_sig < 8)%nat -> fw_sig_hex fw_sig = None.
Proof.
  intros H.
  do 8 (destruct fw_sig as [|? fw_sig]; [reflexivity|]).
  cbn in H. lia.
Qed.

Lemma eight_or_more (fw_sig : list Z) :
  (8 <= List.length fw_sig)%nat ->
  exists b0 b1 b2 b3 b4 b5 b6 b7 rest,
    fw_sig = b0 :: b1 :: b2 :: b3 :: b4 :: b5 :: b6 :: b7 :: rest.
Proof.
  intros H.
  do 8 (destruct fw_sig as [|? fw_sig]; [cbn in H; lia|]).
  repeat eexists.
Qed.

(** X1: the firmware signature is turned into text exactly when it has at
    least eight bytes (a shorter one is read past its end), and the text is
    then sixteen characters, each a digit or a lower-case letter from a to
    f. *)
Theorem fw_sig_hex_format (fw_sig : list Z) :
  ((List.length fw_sig < 8)%nat -> fw_sig_hex fw_sig = None) /\
  ((8 <= List.length fw_sig)%nat ->
   exists text,
     fw_sig_hex fw_sig = Some text /\ List.length text = 16%nat /\
     forallb is_lower_hex text = true).
Proof.
  split; [apply fw_sig_hex_short|].
  intros H.
  destruct (eight_or_more fw_sig H)
    as (b0 & b1 & b2 & b3 & b4 & b5 & b6 & b7 & rest & ->).
  rewrite fw_sig_hex_eight. eexists. split; [reflexivity|].
  split; [reflexivity|].
  cbn [flat_map app forallb].
  destruct (hex_byte b0) as (-> & -> & _), (hex_byte b1) as (-> & -> & _),
    (hex_byte b2) as (-> & -> & _), (hex_byte b3) as (-> & -> & _),
    (hex_byte b4) as (-> & -> & _), (hex_byte b5) as (-> & -> & _),
    (hex_byte b6) as (-> & -> & _), (hex_byte b7) as (-> & -> & _).
  reflexivity.
Qed.

(** X2: read back two characters at a time, the text gives the first
    eight bytes of the signature again, so two signatures get the same text
    only when their first eight bytes agree. *)
Theorem fw_sig_hex_round_trip (fw_sig text : list Z) :
  Forall (fun b => 0 <= b < 256) fw_sig ->
  fw_sig_hex fw_sig = Some text ->
  unhex text = firstn 8 fw_sig.
Proof.
  intros Hb Hx.
  destruct (Nat.lt_ge_cases (List.length fw_sig) 8) as [Hs|Hl].
  { rewrite fw_sig_hex_short in Hx by exact Hs. discriminate. }
  destruct (eight_or_more fw_sig Hl)
    as (b0 & b1 & b2 & b3 & b4 & b5 & b6 & b7 & rest & ->).
  rewrite fw_sig_hex_eight in Hx. inversion Hx. subst text. clear Hx.
  assert (Hu : forall b, 0 <= b < 256 -> u8 b = b).
  { intros b Hr. unfold u8. apply Z.mod_small. exact Hr. }
  repeat match goal with
         | H : Forall _ (_ :: _) |- _ => inversion H; clear H; subst
         end.
  cbn [flat_map app unhex firstn].
  repeat match goal with
         | |- context [16 * hex_value (NIBBLE_TO_HEX (Z.shiftr (u8 ?b) 4))
                       + hex_value (NIBBLE_TO_HEX (Z.land (u8 ?b) 15))] =>
             let H := fresh in
             destruct (hex_byte b) as (_ & _ & H); rewrite H; clear H;
             rewrite (Hu b) by assumption
         end.
  reflexivity.
Qed.

End HexFacts.

(** ** Connection *)

Section ConnectFacts.
Import Connect.

Variable h : Host.

Lemma erase_first_head (s : string) (rest : list string) :
  erase_first s (s :: rest) = rest.
Proof. cbn. rewrite String.eqb_refl. reflexivity. Qed.

(** What [configure] can do to the globals: nothing to the lists, one slot
    filled on success, and the flag raised on success only. *)
Lemma configure_spec (v : bool) (c : Conn) (p : Panda) (ok : bool)
    (c' : Conn) (tr : list ConnEvent) :
  configure h v c p = Returned ok c' tr ->
  pandas_detected c' = pandas_detected c /\
  pandas_connected c' = pandas_connected c /\
  (ok = false -> c' = c /\ cdp_count tr = 0%nat) /\
  (ok = true ->
   connected_once c' = true /\
   cdp_count tr = (if negb (x86_64 h) && negb (connected_once c)
                   then 1 else 0)%nat /\
   if is_main_type (hw_type p)
   then main_panda c' = Some p /\ aux_panda c' = aux_panda c
   else aux_panda c' = Some p /\ main_panda c' = main_panda c).
Proof.
  unfold configure.
  destruct (get_firmware_version p) as [fw|].
  2:{ intros H. inversion H. subst. repeat split; try discriminate.
      destruct (loopback h); reflexivity. }
  destruct (Hex.fw_sig_hex fw) as [hex|]; [|discriminate].
  destruct (get_serial p) as [serial|].
  2:{ intros H. inversion H. subst. repeat split; try discriminate.
      destruct (loopback h); reflexivity. }
  destruct (is_main_type (hw_type p)) eqn:Et; cbn [negb];
    intros H; inversion H; subst; cbn;
    (repeat split; try discriminate);
    unfold cdp_count; rewrite !filter_app, !length_app;
    destruct (loopback h), (negb (x86_64 h) && negb (connected_once c)),
      (has_rtc p && negb v && rtc_valid p); reflexivity.
Qed.

(** X3: a call that returns has found a first detected serial.  When
    that serial does not open the call returns false and leaves the globals
    as they were, with no event; when it opens the serial is taken off the
    front of the detected ones and put at the end of the connected ones,
    whatever the call returns.  Either way the connected serials followed
    by the detected ones are the same list before and after. *)
Theorem usb_connect_keeps_serials (v : bool) (c c' : Conn) (ok : bool)
    (tr : list ConnEvent) :
  usb_connect h v c = Returned ok c' tr ->
  exists serial rest,
    pandas_detected c = serial :: rest /\
    match open_panda h serial with
    | None => ok = false /\ c' = c /\ tr = []
    | Some _ =>
        pandas_detected c' = rest /\
        pandas_connected c' = pandas_connected c ++ [serial]
    end /\
    pandas_connected c' ++ pandas_detected c'
    = pandas_connected c ++ pandas_detected c.
Proof.
  unfold usb_connect. destruct (both_set c); [discriminate|].
  destruct (pandas_detected c) as [|s rest] eqn:Ed; [discriminate|].
  intros H. exists s, rest. split; [reflexivity|].
  destruct (open_panda h s) as [p|].
  - apply configure_spec in H. destruct H as (Hd & Hc & _).
    cbn [pandas_detected pandas_connected] in Hd, Hc.
    rewrite erase_first_head in Hd. rewrite Hd, Hc, <- app_assoc. auto.
  - inversion H. subst. rewrite Ed. auto.
Qed.

Lemma configure_returns (v : bool) (c : Conn) (p : Panda) :
  (forall fw, get_firmware_version p = Some fw -> (8 <= List.length fw)%nat) ->
  exists ok c' tr, configure h v c p = Returned ok c' tr.
Proof.
  intros Hfw. unfold configure.
  destruct (get_firmware_version p) as [fw|]; [|repeat eexists].
  destruct (eight_or_more fw (Hfw fw eq_refl))
    as (b0 & b1 & b2 & b3 & b4 & b5 & b6 & b7 & rest & ->).
  rewrite fw_sig_hex_eight.
  destruct (get_serial p); [|repeat eexists].
  destruct (negb (is_main_type (hw_type p))); repeat eexists.
Qed.

Lemma configure_slots (v : bool) (c : Conn) (p : Panda) (ok : bool)
    (c' : Conn) (tr : list ConnEvent) :
  configure h v c p = Returned ok c' tr -> (slots c' <= S (slots c))%nat.
Proof.
  intros H. apply configure_spec in H.
  destruct H as (_ & _ & Hf & Ht). destruct ok.
  - destruct (Ht eq_refl) as (_ & _ & Hs). unfold slots.
    destruct (is_main_type (hw_type p)); destruct Hs as [-> ->];
      destruct (main_panda c), (aux_panda c); cbn; lia.
  - destruct (Hf eq_refl) as [-> _]. lia.
Qed.

Lemma both_set_slots (c : Conn) :
  (slots c <= 1)%nat -> both_set c = false.
Proof.
  unfold slots, both_set.
  destruct (main_panda c), (aux_panda c); cbn; intros; try reflexivity; lia.
Qed.

Lemma connect_loop_settles (valid : nat -> bool) (n fuel k : nat) (c : Conn)
    (tr : list ConnEvent) :
  (forall s, In s (pandas_detected c) -> open_panda h s <> None) ->
  (forall s p fw, open_panda h s = Some p ->
                  get_firmware_version p = Some fw ->
                  (8 <= List.length fw)%nat) ->
  (List.length (pandas_connected c) + List.length (pandas_detected c))%nat = n ->
  (n <= 2)%nat ->
  (slots c <= List.length (pandas_connected c))%nat ->
  (List.length (pandas_detected c) < fuel)%nat ->
  exists ok c' tr',
    connect_loop h (fun _ => false) valid n fuel k c tr = Done ok c' tr' /\
    pandas_detected c' = [] /\
    pandas_connected c' = pandas_connected c ++ pandas_detected c /\
    ok = match main_panda c' with Some _ => true | None => false end.
Proof.
  intros Hopen Hfw. revert k c tr Hopen.
  induction fuel as [|fuel IH]; intros k c tr Hopen Hn Hle Hslots Hfuel;
    [lia|].
  cbn [connect_loop negb andb].
  destruct (pandas_detected c) as [|s rest] eqn:Ed.
  - cbn in Hn. rewrite Nat.add_0_r in Hn. rewrite Hn, Nat.eqb_refl.
    cbn [negb]. rewrite app_nil_r.
    destruct (main_panda c) eqn:Em; do 3 eexists;
      (split; [reflexivity|]; split; [exact Ed|]; split; [reflexivity|]);
      rewrite Em; reflexivity.
  - cbn in Hn.
    assert (Hneq : (n =? List.length (pandas_connected c))%nat = false)
      by (apply Nat.eqb_neq; lia).
    rewrite Hneq. cbn [negb].
    unfold usb_connect. rewrite both_set_slots by lia. rewrite Ed.
    destruct (open_panda h s) as [p|] eqn:Eo;
      [|exfalso; apply (Hopen s); [left; reflexivity|exact Eo]].
    rewrite erase_first_head.
    set (c0 := MkConn (main_panda c) (aux_panda c) rest
                 (pandas_connected c ++ [s]) (connected_once c)).
    destruct (configure_returns (valid k) c0 p (fun fw => Hfw s p fw Eo))
      as (ok & c1 & tr1 & Hc).
    rewrite Hc.
    pose proof (configure_slots _ _ _ _ _ _ Hc) as Hs1.
    apply configure_spec in Hc. destruct Hc as (Hd1 & Hc1 & _).
    cbn in Hd1, Hc1.
    destruct (IH (S k) c1 (tr ++ tr1)) as (ok' & c' & tr' & Hrun & H1 & H2 & H3).
    + intros s' Hin. apply Hopen. right. rewrite Hd1 in Hin. exact Hin.
    + rewrite Hd1, Hc1, length_app. cbn. lia.
    + exact Hle.
    + rewrite Hc1, length_app. cbn. change (slots c0) with (slots c) in Hs1. lia.
    + rewrite Hd1. cbn in Hfuel. lia.
    + exists ok', c', tr'. split; [exact Hrun|]. split; [exact H1|].
      split; [|exact H3]. rewrite H2, Hc1, Hd1, <- app_assoc. reflexivity.
Qed.

(** X4: with one or two boards listed, none of which fails to open or has
    a signature shorter than eight bytes, and no exit request, the connect
    loop ends after one call for each board: every listed serial is then
    connected, in the listed order, none is left as detected, and the result
    tells whether the main slot is filled. *)
Theorem usb_retry_connect_settles (valid : nat -> bool)
    (listed : list string) (once : bool) (fuel : nat) :
  listed <> [] ->
  (forall s, In s listed -> open_panda h s <> None) ->
  (forall s p fw, open_panda h s = Some p ->
                  get_firmware_version p = Some fw ->
                  (8 <= List.length fw)%nat) ->
  (List.length listed <= 2)%nat ->
  (List.length listed < fuel)%nat ->
  exists ok c tr,
    usb_retry_connect h (fun _ => false) valid listed fuel
      (disconnected once)
    = Done ok c tr /\
    pandas_detected c = [] /\ pandas_connected c = listed /\
    ok = match main_panda c with Some _ => true | None => false end.
Proof.
  intros _ Hopen Hfw Hlen Hfuel. unfold usb_retry_connect.
  apply connect_loop_settles; cbn; auto; lia.
Qed.

(** X5: a board that cannot be opened is tried again and again: while
    the first detected serial fails to open and no exit is requested, the
    connect loop is still running whatever the number of rounds. *)
Theorem usb_retry_connect_retries_forever (valid : nat -> bool) (s : string)
    (rest : list string) (once : bool) (fuel : nat) :
  open_panda h s = None ->
  usb_retry_connect h (fun _ => false) valid (s :: rest) fuel
    (disconnected once)
  = Looping.
Proof.
  intros Hopen. unfold usb_retry_connect.
  generalize (@nil ConnEvent) as tr. generalize 0%nat as k.
  induction fuel as [|fuel IH]; intros k tr; [reflexivity|].
  cbn [connect_loop pandas_connected disconnected List.length Nat.eqb
       negb andb main_panda aux_panda connected_once].
  unfold usb_connect. cbn. rewrite Hopen. rewrite app_nil_r. apply IH.
Qed.

(** X6: a board that opens but whose firmware version cannot be read is
    counted as connected all the same, without any parameter written: when
    it is the only board, the connect loop calls usb_connect once and
    returns false. *)
Theorem unreadable_board_not_retried (valid : nat -> bool) (s : string)
    (p : Panda) (once : bool) (fuel : nat) :
  open_panda h s = Some p ->
  get_firmware_version p = None ->
  (2 <= fuel)%nat ->
  usb_retry_connect h (fun _ => false) valid [s] fuel (disconnected once)
  = Done false (MkConn None None [] [s] once)
      (if loopback h then [SetLoopback (usb_serial p)] else []).
Proof.
  intros Hopen Hfw Hfuel.
  destruct fuel as [|[|fuel]]; try lia.
  unfold usb_retry_connect. cbn. unfold usb_connect. cbn.
  rewrite Hopen, String.eqb_refl. unfold configure. rewrite Hfw. cbn.
  reflexivity.
Qed.

(** The slots keep their kinds across a call. *)
Lemma usb_connect_slot_kinds (v : bool) (c c' : Conn) (ok : bool)
    (tr : list ConnEvent) :
  (forall p, main_panda c = Some p -> is_main_type (hw_type p) = true) ->
  (forall p, aux_panda c = Some p -> is_main_type (hw_type p) = false) ->
  usb_connect h v c = Returned ok c' tr ->
  (forall p, main_panda c' = Some p -> is_main_type (hw_type p) = true) /\
  (forall p, aux_panda c' = Some p -> is_main_type (hw_type p) = false).
Proof.
  intros Hm Ha. unfold usb_connect. destruct (both_set c); [discriminate|].
  destruct (pandas_detected c) as [|s rest]; [discriminate|].
  destruct (open_panda h s) as [p|];
    [|intros H; inversion H; subst; auto].
  intros H. apply configure_spec in H. destruct H as (_ & _ & Hf & Ht).
  destruct ok.
  - destruct (Ht eq_refl) as (_ & _ & Hs).
    destruct (is_main_type (hw_type p)) eqn:Et; destruct Hs as [H1 H2];
      rewrite H1, H2; cbn; split; intros q Hq;
      try (inversion Hq; subst; exact Et); auto.
  - destruct (Hf eq_refl) as [-> _]. cbn. auto.
Qed.

Lemma connect_loop_slot_kinds (do_exit valid : nat -> bool) (n fuel k : nat)
    (c : Conn) (tr : list ConnEvent) (ok : bool) (c' : Conn)
    (tr' : list ConnEvent) :
  (forall p, main_panda c = Some p -> is_main_type (hw_type p) = true) ->
  (forall p, aux_panda c = Some p -> is_main_type (hw_type p) = false) ->
  connect_loop h do_exit valid n fuel k c tr = Done ok c' tr' ->
  (forall p, main_panda c' = Some p -> is_main_type (hw_type p) = true) /\
  (forall p, aux_panda c' = Some p -> is_main_type (hw_type p) = false) /\
  (ok = true -> exists p, main_panda c' = Some p).
Proof.
  revert k c tr. induction fuel as [|fuel IH]; intros k c tr Hm Ha;
    [discriminate|].
  cbn [connect_loop].
  destruct (negb (do_exit k)
            && negb (n =? List.length (pandas_connected c))%nat).
  - destruct (usb_connect h (valid k) c) as [ok1 c1 tr1| |] eqn:Eu;
      try discriminate.
    destruct (usb_connect_slot_kinds _ _ _ _ _ Hm Ha Eu) as [Hm1 Ha1].
    apply IH; assumption.
  - case_eq (main_panda c); [intros p Em|intros Em];
      intros H; inversion H; subst;
      (split; [exact Hm|split; [exact Ha|]]).
    + intros _. exists p. exact Em.
    + discriminate.
Qed.

(** X7: however the connect loop goes, when it returns the main slot
    holds a BLACK or DOS board if any and the aux slot a board of another
    type if any; and it returns true only with a board in the main slot. *)
Theorem usb_retry_connect_slot_kinds (do_exit valid : nat -> bool)
    (listed : list string) (once : bool) (fuel : nat) (ok : bool) (c : Conn)
    (tr : list ConnEvent) :
  usb_retry_connect h do_exit valid listed fuel (disconnected once)
  = Done ok c tr ->
  (forall p, main_panda c = Some p ->
             hw_type p = BLACK_PANDA \/ hw_type p = DOS) /\
  (forall p, aux_panda c = Some p ->
             hw_type p <> BLACK_PANDA /\ hw_type p <> DOS) /\
  (ok = true -> exists p, main_panda c = Some p).
Proof.
  unfold usb_retry_connect. intros H.
  apply connect_loop_slot_kinds in H; cbn; try discriminate.
  destruct H as (Hm & Ha & Hok). split; [|split; [|exact Hok]].
  - intros p Hp. specialize (Hm p Hp).
    destruct (hw_type p); try discriminate; auto.
  - intros p Hp. specialize (Ha p Hp).
    destruct (hw_type p); try discriminate; split; discriminate.
Qed.

Lemma cdp_count_app (a b : list ConnEvent) :
  cdp_count (a ++ b) = (cdp_count a + cdp_count b)%nat.
Proof. unfold cdp_count. rewrite filter_app. apply length_app. Qed.

Lemma usb_connect_cdp (v : bool) (c c' : Conn) (ok : bool)
    (tr : list ConnEvent) :
  usb_connect h v c = Returned ok c' tr ->
  (cdp_count tr <= 1)%nat /\
  (connected_once c = true -> cdp_count tr = 0%nat) /\
  (cdp_count tr = 1%nat -> x86_64 h = false) /\
  (connected_once c = true \/ cdp_count tr = 1%nat ->
   connected_once c' = true).
Proof.
  unfold usb_connect. destruct (both_set c); [discriminate|].
  destruct (pandas_detected c) as [|s rest]; [discriminate|].
  destruct (open_panda h s) as [p|].
  2:{ intros H. inversion H. subst. cbn.
      repeat split; auto; try lia. intros [H1|H1]; [exact H1|discriminate]. }
  intros H. apply configure_spec in H. destruct H as (_ & _ & Hf & Ht).
  cbn [connected_once] in Ht. destruct ok.
  - destruct (Ht eq_refl) as (Ho & Hcnt & _). rewrite Hcnt, Ho.
    destruct (x86_64 h), (connected_once c); cbn; repeat split; auto;
      discriminate.
  - destruct (Hf eq_refl) as [-> Hcnt]. rewrite Hcnt. cbn.
    repeat split; auto; try lia; try discriminate.
    intros [H1|H1]; [exact H1|discriminate].
Qed.

Lemma connect_loop_cdp (do_exit valid : nat -> bool) (n fuel k : nat)
    (c : Conn) (tr : list ConnEvent) (ok : bool) (c' : Conn)
    (tr' : list ConnEvent) :
  connect_loop h do_exit valid n fuel k c tr = Done ok c' tr' ->
  exists new,
    tr' = tr ++ new /\ (cdp_count new <= 1)%nat /\
    (connected_once c = true -> cdp_count new = 0%nat) /\
    (cdp_count new = 1%nat -> x86_64 h = false) /\
    (connected_once c = true \/ cdp_count new = 1%nat ->
     connected_once c' = true).
Proof.
  revert k c tr. induction fuel as [|fuel IH]; intros k c tr; [discriminate|].
  cbn [connect_loop].
  destruct (negb (do_exit k)
            && negb (n =? List.length (pandas_connected c))%nat).
  - destruct (usb_connect h (valid k) c) as [ok1 c1 tr1| |] eqn:Eu;
      try discriminate.
    intros H. apply IH in H. destruct H as (new & -> & H1 & H2 & H3 & H4).
    destruct (usb_connect_cdp _ _ _ _ _ Eu) as (U1 & U2 & U3 & U4).
    exists (tr1 ++ new). rewrite app_assoc, cdp_count_app.
    split; [reflexivity|].
    assert (Hex : cdp_count tr1 = 1%nat -> cdp_count new = 0%nat)
      by (intros E; apply H2, U4; right; exact E).
    split; [lia|]. split.
    { intros Ho. rewrite (U2 Ho). apply H2, U4. left. exact Ho. }
    split.
    { intros E. destruct (Nat.eq_dec (cdp_count tr1) 1) as [E1|E1];
        [exact (U3 E1)|apply H3; lia]. }
    intros [Ho|E]; apply H4.
    + left. apply U4. left. exact Ho.
    + destruct (Nat.eq_dec (cdp_count tr1) 1) as [E1|E1];
        [left; apply U4; right; exact E1|right; lia].
  - destruct (main_panda c); intros H; inversion H; subst;
      exists []; rewrite app_nil_r; cbn;
      (repeat split; auto; try lia; try discriminate);
      intros [H1|H1]; auto; discriminate.
Qed.

(** X8: over a whole connect loop host charging is switched to CDP at
    most once, never on an x86_64 build, and not at all once a board has
    been connected before in this process; the first switch marks the
    process as connected once. *)
Theorem usb_retry_connect_cdp_once (do_exit valid : nat -> bool)
    (listed : list string) (fuel : nat) (c0 c : Conn) (ok : bool)
    (tr : list ConnEvent) :
  usb_retry_connect h do_exit valid listed fuel c0 = Done ok c tr ->
  (cdp_count tr <= 1)%nat /\
  (connected_once c0 = true -> cdp_count tr = 0%nat) /\
  (x86_64 h = true -> cdp_count tr = 0%nat) /\
  (cdp_count tr = 1%nat -> connected_once c = true).
Proof.
  unfold usb_retry_connect. intros H. apply connect_loop_cdp in H.
  destruct H as (new & -> & H1 & H2 & H3 & H4). cbn [app].
  cbn [connected_once] in H2, H4.
  split; [exact H1|]. split; [exact H2|]. split.
  - intros Hx. destruct (Nat.eq_dec (cdp_count new) 1) as [E|E]; [|lia].
    rewrite (H3 E) in Hx. discriminate.
  - intros E. apply H4. right. exact E.
Qed.

(** X9: a call sets the host clock only when it finds the host clock
    invalid, and then from the valid RTC of the board it has just opened,
    in a call that succeeds. *)
Theorem usb_connect_sets_clock (sys_time_valid : bool) (c c' : Conn)
    (ok : bool) (tr : list ConnEvent) (secs : Z) :
  usb_connect h sys_time_valid c = Returned ok c' tr ->
  In (SetTimeOfDay secs) tr ->
  sys_time_valid = false /\ ok = true /\
  exists s p,
    hd_error (pandas_detected c) = Some s /\ open_panda h s = Some p /\
    has_rtc p = true /\ rtc_valid p = true /\ secs = rtc_time p.
Proof.
  unfold usb_connect. destruct (both_set c); [discriminate|].
  destruct (pandas_detected c) as [|s rest]; [discriminate|].
  destruct (open_panda h s) as [p|] eqn:Eo;
    [|intros H; inversion H; subst; intros []].
  unfold configure.
  destruct (get_firmware_version p) as [fw|].
  2:{ intros H; inversion H; subst. destruct (loopback h); cbn; intuition discriminate. }
  destruct (Hex.fw_sig_hex fw) as [text|]; [|discriminate].
  destruct (get_serial p) as [serial|].
  2:{ intros H; inversion H; subst. rewrite in_app_iff.
      destruct (loopback h); cbn; intuition discriminate. }
  assert (Hin : forall pre,
            In (SetTimeOfDay secs)
              (pre ++ (if has_rtc p && negb sys_time_valid && rtc_valid p
                       then [SetTimeOfDay (rtc_time p)] else [])) ->
            (forall e, In e pre -> is_cdp e = true \/
                                   match e with SetTimeOfDay _ => False
                                              | _ => True end) ->
            sys_time_valid = false /\
            has_rtc p = true /\ rtc_valid p = true /\ secs = rtc_time p).
  { intros pre Hi Hpre. apply in_app_or in Hi. destruct Hi as [Hi|Hi].
    - destruct (Hpre _ Hi) as [Hc|Hc]; [discriminate|destruct Hc].
    - destruct (has_rtc p), sys_time_valid, (rtc_valid p);
        cbn in Hi; try contradiction; destruct Hi as [Hi|[]];
        inversion Hi; auto. }
  assert (Hpre : forall e,
            In e ((((if loopback h then [SetLoopback (usb_serial p)] else [])
                    ++ [Put "PandaFirmware" (Bytes fw);
                        Put "PandaFirmwareHex" (Bytes text)])
                   ++ [Put "PandaDongleId" (Text serial)])
                  ++ (if negb (x86_64 h) && negb (connected_once c)
                      then [SetUsbPowerModeCDP (usb_serial p)] else [])) ->
            is_cdp e = true \/
            match e with SetTimeOfDay _ => False | _ => True end).
  { intros e. rewrite !in_app_iff.
    destruct (loopback h), (negb (x86_64 h) && negb (connected_once c));
      cbn; intuition (subst; cbn; auto). }
  destruct (negb (is_main_type (hw_type p)));
    intros H; inversion H; subst; intros Hi;
    destruct (Hin _ Hi Hpre) as (H1 & H2 & H3 & H4);
    (split; [exact H1|split; [reflexivity|]]);
    exists s, p; auto.
Qed.

End ConnectFacts.

(** ** CAN receive pacing *)

Section PaceFacts.
Import Pace.

(** One iteration, away from the wrap of the clock. *)
Lemma pace_no_wrap (ign : bool) (next cur : Z) :
  0 <= next < 2 ^ 63 -> 0 <= cur < 2 ^ 63 ->
  pace ign next cur
  = (Z.max next cur + dt,
     if cur <? next then [SleepFor (next - cur)]
     else if ign then [LogMissed] else []).
Proof.
  intros Hn Hc. unfold pace, Machine.u64_sub, Machine.u64, Machine.i64_of_u64, dt.
  destruct (cur <? next) eqn:E.
  - apply Z.ltb_lt in E.
    rewrite (Z.mod_small (next - cur)) by lia.
    replace (next - cur <? 2 ^ 63) with true by (symmetry; apply Z.ltb_lt; lia).
    replace (0 <? next - cur) with true by (symmetry; apply Z.ltb_lt; lia).
    rewrite Z.mod_small by lia. rewrite Z.max_l by lia. reflexivity.
  - apply Z.ltb_ge in E.
    destruct (Z.eq_dec next cur) as [->|Hne].
    + rewrite Z.sub_diag. cbn -[Z.max Z.add]. rewrite Z.max_id.
      rewrite Z.mod_small by lia. reflexivity.
    + replace (next - cur) with (2 ^ 64 - (cur - next) + (-1) * 2 ^ 64) by lia.
      rewrite Z.mod_add by lia.
      rewrite (Z.mod_small (2 ^ 64 - (cur - next))) by lia.
      replace (2 ^ 64 - (cur - next) <? 2 ^ 63) with false
        by (symmetry; apply Z.ltb_ge; lia).
      replace (0 <? 2 ^ 64 - (cur - next) - 2 ^ 64) with false
        by (symmetry; apply Z.ltb_ge; lia).
      rewrite Z.mod_small by lia. rewrite Z.max_r by lia. reflexivity.
Qed.

(** X10: a receive loop that is never late keeps an exact 10 ms grid:
    after n iterations the next frame time is the first one plus n periods,
    whatever the readings were, and it has slept in each iteration and
    logged no miss. *)
Theorem pace_run_no_drift (ign : bool) (next : Z) (clock : list Z) :
  on_time next clock ->
  Forall (fun cur => 0 <= cur) clock ->
  0 <= next ->
  next + dt * Z.of_nat (List.length clock) < 2 ^ 63 ->
  fst (pace_run ign next clock) = next + dt * Z.of_nat (List.length clock) /\
  forallb is_sleep (snd (pace_run ign next clock)) = true /\
  List.length (snd (pace_run ign next clock)) = List.length clock.
Proof.
  revert next. induction clock as [|cur rest IH]; intros next Hon Hpos Hn Hb.
  - cbn. split; [lia|]. split; reflexivity.
  - destruct Hon as [Hlt Hon]. inversion Hpos as [|? ? Hc Hrest]. subst.
    cbn [pace_run]. cbn [List.length] in Hb. unfold dt in *.
    rewrite pace_no_wrap by lia.
    replace (cur <? next) with true by (symmetry; apply Z.ltb_lt; lia).
    rewrite Z.max_l by lia.
    specialize (IH (next + Pace.dt) Hon Hrest).
    unfold dt in *.
    destruct (pace_run ign (next + 10000000) rest) as [next2 ev2].
    cbn [fst snd] in *.
    destruct IH as (I1 & I2 & I3); [lia|lia|].
    cbn [app forallb is_sleep List.length andb].
    split; [lia|]. split; [exact I2|]. rewrite I3. reflexivity.
Qed.


End PaceFacts.

(** ** Hardware control *)

Lemma u64_gt_1e9 (n : Z) :
  0 <= n -> (10 ^ 9 <? Machine.double_of_u64 n) = (10 ^ 9 <? n).
Proof.
  intros H0.
  destruct (Z_lt_le_dec n (2 ^ 53)) as [Hs|Hb].
  - rewrite double_of_u64_small by lia. reflexivity.
  - pose proof (double_of_u64_large n Hb) as Hd.
    assert (H9 : 10 ^ 9 < 2 ^ 53) by reflexivity.
    transitivity true; [|symmetry]; apply Z.ltb_lt; lia.
Qed.

Lemma ir_pwr_range_table :
  forallb (fun il => (0 <=? IR.ir_pwr_of il) && (IR.ir_pwr_of il <=? 50))
    (zrange 201 1400) = true.
Proof. vm_compute. reflexivity. Qed.

Lemma ir_pwr_range (il : Z) : 0 <= IR.ir_pwr_of il <= 50.
Proof.
  destruct (Z_le_gt_dec il 200) as [H1|H1].
  - rewrite ir_pwr_below_cutoff by exact H1. lia.
  - destruct (Z_lt_le_dec 1600 il) as [H2|H2].
    + rewrite ir_pwr_saturated by exact H2. lia.
    + pose proof (zrange_forallb _ _ _ ir_pwr_range_table il) as H.
      cbv beta in H. rewrite andb_true_iff, !Z.leb_le in H. apply H. lia.
Qed.

Section HwFacts.
Import HwControl.

Lemma charging_events (inp : Input) (st : Locals) :
  snd (charging inp st) = []
  \/ (exists ds,
        deviceState inp = Some ds /\ pc inp = false /\
        chargingDisabled ds = negb (prev_charging_disabled st) /\
        fst (charging inp st) = chargingDisabled ds /\
        snd (charging inp st)
        = [SetUsbPowerMode (if chargingDisabled ds then CLIENT else CDP)]).
Proof.
  unfold charging. destruct (deviceState inp) as [ds|]; [|left; reflexivity].
  destruct (pc inp); [left; reflexivity|]. cbn [negb].
  destruct (chargingDisabled ds) eqn:Ec, (prev_charging_disabled st) eqn:Ep;
    cbn; try (left; reflexivity); right; exists ds; rewrite Ec; auto.
Qed.

Lemma charging_quiet (inp : Input) (st : Locals) :
  snd (charging inp st) = [] ->
  fst (charging inp st) = prev_charging_disabled st.
Proof.
  unfold charging. destruct (deviceState inp) as [ds|]; [|reflexivity].
  destruct (pc inp); [reflexivity|]. cbn [negb].
  destruct (Bool.eqb (chargingDisabled ds) (prev_charging_disabled st));
    cbn; [reflexivity|discriminate].
Qed.

(** The pieces of one iteration. *)
Lemma iteration_spec (inp : Input) (st : Locals) :
  let cnt1 := Machine.u32 (cnt st + 1) in
  let st' := fst (iteration inp st) in
  let ev := snd (iteration inp st) in
  cnt st' = cnt1 /\
  prev_charging_disabled st' = fst (charging inp st) /\
  (has_fan_and_ir (hw_type inp) = false ->
   ev = snd (charging inp st) /\
   ir_pwr st' = ir_pwr st /\ prev_ir_pwr st' = prev_ir_pwr st /\
   prev_fan_speed st' = prev_fan_speed st /\
   last_front_frame_t st' = last_front_frame_t st) /\
  (has_fan_and_ir (hw_type inp) = true ->
   let ir2 :=
     if 10 ^ 9 <? Machine.u64_sub (cur_t inp) (snd (camera inp st))
     then 0 else fst (camera inp st) in
   let send := negb (ir2 =? prev_ir_pwr st) || (cnt1 mod 100 =? 0)
               || (50 <=? ir2) in
   ev = snd (charging inp st) ++ snd (fan inp cnt1 st)
          ++ (if send then [SetIrPwr ir2] else []) /\
   ir_pwr st' = ir2 /\ prev_ir_pwr st' = ir2 /\
   prev_fan_speed st' = fst (fan inp cnt1 st) /\
   last_front_frame_t st' = snd (camera inp st)).
Proof.
  cbv zeta. unfold iteration.
  destruct (charging inp st) as [ch1 evc].
  destruct (has_fan_and_ir (hw_type inp)); cbn [negb].
  - destruct (fan inp (Machine.u32 (cnt st + 1)) st) as [fan1 evf].
    destruct (camera inp st) as [ir1 frame1].
    cbn [fst snd prev_ir_pwr ir_pwr cnt prev_charging_disabled prev_fan_speed
         last_front_frame_t].
    rewrite u64_gt_1e9 by apply u64_range.
    split; [reflexivity|]. split; [reflexivity|]. split; [discriminate|].
    intros _. split; [reflexivity|]. split; [reflexivity|].
    split; [|split; reflexivity].
    match goal with
    | |- (if ?s then ?a else ?b) = ?a => destruct s eqn:Es; [reflexivity|]
    end.
    apply orb_false_iff in Es. destruct Es as [Es _].
    apply orb_false_iff in Es. destruct Es as [Es _].
    apply negb_false_iff, Z.eqb_eq in Es. symmetry. exact Es.
  - cbn [fst snd prev_ir_pwr ir_pwr cnt prev_charging_disabled prev_fan_speed
         last_front_frame_t].
    split; [reflexivity|]. split; [reflexivity|].
    split; [|discriminate]. intros _. repeat split.
Qed.

(** X12: a board that is neither UNO nor DOS is never sent a fan or an
    IR command, and the fan and IR bookkeeping stays as it was; the only
    thing an iteration may command on it is the USB power mode. *)
Theorem other_boards_only_charging (inp : Input) (st : Locals) :
  hw_type inp <> Connect.UNO -> hw_type inp <> Connect.DOS ->
  (forall e, In e (snd (iteration inp st)) -> exists m, e = SetUsbPowerMode m) /\
  ir_pwr (fst (iteration inp st)) = ir_pwr st /\
  prev_ir_pwr (fst (iteration inp st)) = prev_ir_pwr st /\
  prev_fan_speed (fst (iteration inp st)) = prev_fan_speed st.
Proof.
  intros H1 H2.
  assert (Hf : has_fan_and_ir (hw_type inp) = false)
    by (destruct (hw_type inp); try reflexivity; contradiction).
  destruct (iteration_spec inp st) as (_ & _ & Hn & _).
  destruct (Hn Hf) as (Hev & Hi & Hp & Hfan & _).
  split; [|auto]. intros e He. rewrite Hev in He.
  destruct (charging_events inp st) as [Hq|(ds & _ & _ & _ & _ & Hq)];
    rewrite Hq in He; [destruct He|].
  destruct He as [<-|[]]. eexists. reflexivity.
Qed.

Lemma modes_app (a b : list HwEvent) : modes (a ++ b) = modes a ++ modes b.
Proof.
  induction a as [|e a IH]; [reflexivity|].
  destruct e; cbn; rewrite IH; reflexivity.
Qed.

Lemma iteration_modes (inp : Input) (st : Locals) :
  modes (snd (iteration inp st)) = modes (snd (charging inp st)).
Proof.
  destruct (iteration_spec inp st) as (_ & _ & Hn & Hy).
  destruct (has_fan_and_ir (hw_type inp)).
  - destruct (Hy eq_refl) as (-> & _). rewrite !modes_app.
    replace (modes (snd (fan inp (Machine.u32 (cnt st + 1)) st))) with
      (@nil UsbPowerMode).
    + match goal with
      | |- context [if ?s then _ else _] => destruct s
      end; cbn; rewrite app_nil_r; reflexivity.
    + unfold fan. destruct (deviceState inp) as [ds|]; [|reflexivity].
      match goal with
      | |- context [if ?s then _ else _] => destruct s
      end; reflexivity.
  - destruct (Hn eq_refl) as (-> & _). reflexivity.
Qed.

(** X13: over any run of the loop the USB power commands alternate: the
    first one, if any, turns charging off (CLIENT) when it was on and on
    (CDP) when it was off, and each later one undoes the one before; the
    same mode is never commanded twice in a row. *)
Theorem usb_power_modes_alternate (inputs : list Input) (st : Locals) :
  alternates (prev_charging_disabled st) (modes (snd (run inputs st))).
Proof.
  revert st. induction inputs as [|inp rest IH]; intros st; [exact I|].
  cbn [run].
  destruct (iteration inp st) as [st1 ev1] eqn:Ei.
  specialize (IH st1).
  destruct (run rest st1) as [st2 ev2]. cbn [snd] in *.
  rewrite modes_app.
  pose proof (iteration_modes inp st) as Hm. rewrite Ei in Hm. cbn [snd] in Hm.
  destruct (iteration_spec inp st) as (_ & Hch & _).
  rewrite Ei in Hch. cbn [fst] in Hch. rewrite Hm.
  destruct (charging_events inp st) as [Hq|(ds & _ & _ & Hflip & Hnew & Hq)].
  - rewrite Hq. cbn [modes app]. rewrite Hch, (charging_quiet _ _ Hq) in IH.
    exact IH.
  - rewrite Hq. cbn [modes app alternates]. rewrite Hch, Hnew in IH.
    rewrite Hflip in *. split; [|exact IH].
    destruct (prev_charging_disabled st); reflexivity.
Qed.

Lemma camera_ir_range (inp : Input) (st : Locals) :
  0 <= ir_pwr st <= 50 -> 0 <= fst (camera inp st) <= 50.
Proof.
  intros H. unfold camera.
  destruct (driverCameraState inp) as [dcs|]; [|exact H].
  cbn [fst]. apply ir_pwr_range.
Qed.

Lemma iteration_ir_range (inp : Input) (st : Locals) :
  0 <= ir_pwr st <= 50 ->
  0 <= ir_pwr (fst (iteration inp st)) <= 50 /\
  (forall v, In (SetIrPwr v) (snd (iteration inp st)) -> 0 <= v <= 50).
Proof.
  intros H.
  destruct (iteration_spec inp st) as (_ & _ & Hn & Hy).
  destruct (has_fan_and_ir (hw_type inp)).
  - destruct (Hy eq_refl) as (Hev & Hir & _). cbv zeta in Hev, Hir.
    pose proof (camera_ir_range inp st H) as Hc.
    assert (Hr : 0 <= (if 10 ^ 9 <? Machine.u64_sub (cur_t inp)
                                      (snd (camera inp st))
                       then 0 else fst (camera inp st)) <= 50).
    { destruct (10 ^ 9 <? _); [lia|exact Hc]. }
    rewrite Hir. split; [exact Hr|].
    intros v Hin. rewrite Hev, !in_app_iff in Hin.
    destruct Hin as [Hin|[Hin|Hin]].
    + destruct (charging_events inp st) as [Hq|(ds & _ & _ & _ & _ & Hq)];
        rewrite Hq in Hin; cbn in Hin; intuition discriminate.
    + unfold fan in Hin. destruct (deviceState inp) as [ds|];
        [|destruct Hin].
      match type of Hin with
      | context [if ?s then _ else _] => destruct s
      end; cbn in Hin; intuition discriminate.
    + match type of Hin with
      | context [if ?s then _ else _] => destruct s
      end; [|destruct Hin].
      destruct Hin as [Hin|[]]. inversion Hin. subst. exact Hr.
  - destruct (Hn eq_refl) as (Hev & Hir & _). rewrite Hir.
    split; [exact H|]. intros v Hin. rewrite Hev in Hin.
    destruct (charging_events inp st) as [Hq|(ds & _ & _ & _ & _ & Hq)];
      rewrite Hq in Hin; cbn in Hin; intuition discriminate.
Qed.

(** X14: from the start of the thread on, whatever the messages say
    (any line count, filtered or not), the IR power the loop holds and
    every IR power it commands lies between 0 and 50 percent. *)
Theorem ir_power_never_above_half (inputs : list Input) :
  0 <= ir_pwr (fst (run inputs start)) <= 50 /\
  (forall v, In (SetIrPwr v) (snd (run inputs start)) -> 0 <= v <= 50).
Proof.
  assert (G : forall st, 0 <= ir_pwr st <= 50 ->
            0 <= ir_pwr (fst (run inputs st)) <= 50 /\
            (forall v, In (SetIrPwr v) (snd (run inputs st)) -> 0 <= v <= 50)).
  { induction inputs as [|inp rest IH]; intros st H.
    - cbn. split; [exact H|intros v []].
    - cbn [run]. destruct (iteration_ir_range inp st H) as [H1 H2].
      destruct (iteration inp st) as [st1 ev1]. cbn [fst snd] in H1, H2.
      destruct (IH st1 H1) as [H3 H4].
      destruct (run rest st1) as [st2 ev2]. cbn [fst snd] in *.
      split; [exact H3|]. intros v Hin. apply in_app_or in Hin.
      destruct Hin as [Hin|Hin]; auto. }
  apply G. cbn. lia.
Qed.

(** X15: on an UNO or DOS board, when the last camera frame is more than
    a second old at the end of an iteration (in 64-bit wrap-around
    arithmetic, so also when it is stamped in the future, and before any
    frame has come once the clock is past one second), the IR power is 0
    and nothing but 0 is commanded. *)
Theorem stale_frame_turns_ir_off (inp : Input) (st : Locals) :
  has_fan_and_ir (hw_type inp) = true ->
  10 ^ 9 < Machine.u64_sub (cur_t inp)
             (last_front_frame_t (fst (iteration inp st))) ->
  ir_pwr (fst (iteration inp st)) = 0 /\
  (forall v, In (SetIrPwr v) (snd (iteration inp st)) -> v = 0).
Proof.
  intros Hf Hstale.
  destruct (iteration_spec inp st) as (_ & _ & _ & Hy).
  destruct (Hy Hf) as (Hev & Hir & _ & _ & Hframe). cbv zeta in Hev, Hir.
  rewrite Hframe in Hstale. apply Z.ltb_lt in Hstale.
  rewrite Hstale in Hev, Hir. split; [exact Hir|].
  intros v Hin. rewrite Hev, !in_app_iff in Hin.
  destruct Hin as [Hin|[Hin|Hin]].
  - destruct (charging_events inp st) as [Hq|(ds & _ & _ & _ & _ & Hq)];
      rewrite Hq in Hin; cbn in Hin; intuition discriminate.
  - unfold fan in Hin. destruct (deviceState inp) as [ds|]; [|destruct Hin].
    match type of Hin with
    | context [if ?s then _ else _] => destruct s
    end; cbn in Hin; intuition discriminate.
  - match type of Hin with
    | context [if ?s then _ else _] => destruct s
    end; [|destruct Hin].
    destruct Hin as [Hin|[]]. inversion Hin. reflexivity.
Qed.

(** X16: on an UNO or DOS board the IR power last commanded is the one
    the loop holds after every iteration; the command is sent exactly when
    the power changed, on every hundredth iteration, or when it is at 50,
    so at saturation it is repeated in every iteration. *)
Theorem ir_command_in_step (inp : Input) (st : Locals) :
  has_fan_and_ir (hw_type inp) = true ->
  let st' := fst (iteration inp st) in
  prev_ir_pwr st' = ir_pwr st' /\
  (In (SetIrPwr (ir_pwr st')) (snd (iteration inp st)) <->
   ir_pwr st' <> prev_ir_pwr st \/ cnt st' mod 100 = 0 \/ 50 <= ir_pwr st') /\
  (forall v, In (SetIrPwr v) (snd (iteration inp st)) -> v = ir_pwr st').
Proof.
  intros Hf st'.
  destruct (iteration_spec inp st) as (Hcnt & _ & _ & Hy).
  destruct (Hy Hf) as (Hev & Hir & Hprev & _). cbv zeta in Hev, Hir, Hprev.
  fold st' in Hcnt, Hir, Hprev.
  rewrite <- Hir in Hev. rewrite <- Hcnt in Hev.
  split; [rewrite Hprev, Hir; reflexivity|].
  assert (Hother : forall v,
            In (SetIrPwr v)
              (snd (charging inp st) ++ snd (fan inp (cnt st') st)) ->
            False).
  { intros v Hin. apply in_app_or in Hin. destruct Hin as [Hin|Hin].
    - destruct (charging_events inp st) as [Hq|(ds & _ & _ & _ & _ & Hq)];
        rewrite Hq in Hin; cbn in Hin; intuition discriminate.
    - unfold fan in Hin. destruct (deviceState inp) as [ds|]; [|destruct Hin].
      match type of Hin with
      | context [if ?s then _ else _] => destruct s
      end; cbn in Hin; intuition discriminate. }
  rewrite Hev. split.
  - rewrite app_assoc, in_app_iff.
    destruct (negb (ir_pwr st' =? prev_ir_pwr st) || (cnt st' mod 100 =? 0)
              || (50 <=? ir_pwr st')) eqn:Es.
    + split; [intros _|intros _; right; left; reflexivity].
      rewrite !orb_true_iff, negb_true_iff, Z.eqb_neq, Z.eqb_eq, Z.leb_le in Es.
      tauto.
    + rewrite !orb_false_iff, negb_false_iff, Z.eqb_eq, Z.eqb_neq, Z.leb_gt in Es.
      split; [intros [Hin|[]]; exfalso; exact (Hother _ Hin)|].
      intros [H|[H|H]]; lia.
  - intros v Hin. rewrite app_assoc in Hin. apply in_app_or in Hin.
    destruct Hin as [Hin|Hin]; [exfalso; exact (Hother _ Hin)|].
    match type of Hin with
    | context [if ?s then _ else _] => destruct s
    end; [|destruct Hin].
    destruct Hin as [Hin|[]]. inversion Hin. reflexivity.
Qed.

End HwFacts.

(** ** The fault list *)

Section FaultFacts.
Import Faults.

Lemma array_set_app {A : Type} (done pad : list A) (x v : A) :
  array_set (List.length done) v (done ++ x :: pad) = done ++ v :: pad.
Proof. induction done as [|d done IH]; cbn; [reflexivity|]. now rewrite IH. Qed.

Lemma skipn_repeat_zero (k n : nat) :
  skipn k (repeat O n) = repeat O (n - k).
Proof.
  revert n. induction k as [|k IH]; intros n.
  - rewrite Nat.sub_0_r. reflexivity.
  - destruct n as [|n]; [reflexivity|]. cbn. apply IH.
Qed.

Lemma fill_fold (faults : Z) (fs : list nat) (done pad : list nat) :
  let set := filter (fun f => Z.testbit faults (Z.of_nat f)) fs in
  (List.length set <= List.length pad)%nat ->
  fold_left
    (fun '(faults_list, i) f =>
       if Z.testbit faults (Z.of_nat f)
       then (array_set i f faults_list, S i)
       else (faults_list, i))
    fs (done ++ pad, List.length done)
  = (done ++ set ++ skipn (List.length set) pad,
     (List.length done + List.length set)%nat).
Proof.
  revert done pad. induction fs as [|f fs IH]; intros done pad; cbn zeta.
  - cbn. intros _. rewrite Nat.add_0_r. reflexivity.
  - cbn [filter fold_left].
    destruct (Z.testbit faults (Z.of_nat f)) eqn:Et.
    + cbn [List.length]. intros Hlen.
      destruct pad as [|x pad]; [cbn in Hlen; lia|].
      rewrite array_set_app.
      replace (done ++ f :: pad) with ((done ++ [f]) ++ pad)
        by (rewrite <- app_assoc; reflexivity).
      replace (S (List.length done)) with (List.length (done ++ [f]))
        by (rewrite length_app; cbn; lia).
      rewrite IH by (cbn in Hlen; lia).
      rewrite <- app_assoc, length_app. cbn. f_equal. lia.
    + intros Hlen. apply IH. exact Hlen.
Qed.

Lemma in_range_counted (width : nat) (faults : Z) (first last : nat) :
  (last < width)%nat ->
  (List.length (faults_in_range faults first last) <= count width faults)%nat.
Proof.
  intros Hw. unfold count, faults_in_range.
  apply NoDup_incl_length.
  - apply NoDup_filter, seq_NoDup.
  - intros f Hf. apply filter_In in Hf. destruct Hf as [Hs Ht].
    apply filter_In. split; [|exact Ht]. apply in_seq in Hs. apply in_seq. lia.
Qed.

Lemma fault_list_closed_form_aux (width : nat) (faults : Z)
    (first last : nat) :
  (last < width)%nat ->
  fault_list width faults first last
  = faults_in_range faults first last
    ++ repeat O (count width faults
                 - List.length (faults_in_range faults first last)).
Proof.
  intros Hw. pose proof (in_range_counted width faults first last Hw) as Hc.
  unfold fault_list, fill.
  pose proof (fill_fold faults (seq first (S last - first)) []
                (repeat O (count width faults))) as H.
  cbv zeta in H. cbn [app List.length] in H.
  fold (faults_in_range faults first last) in H.
  rewrite H by (rewrite repeat_length; exact Hc).
  cbn [fst]. rewrite skipn_repeat_zero. reflexivity.
Qed.

(** X17: the fault list of the board-state message holds as many
    entries as fault bits are set; it starts with the numbers of the set
    bits from RELAY_MALFUNCTION to INTERRUPT_RATE_TICK in ascending order,
    and each set bit outside that range leaves one entry at the end with
    the number 0. *)
Theorem fault_list_closed_form (width : nat) (faults : Z) (first last : nat) :
  (last < width)%nat ->
  fault_list width faults first last
  = faults_in_range faults first last
    ++ repeat O (count width faults
                 - List.length (faults_in_range faults first last)) /\
  List.length (fault_list width faults first last) = count width faults.
Proof.
  intros Hw. pose proof (in_range_counted width faults first last Hw) as Hc.
  pose proof (fault_list_closed_form_aux width faults first last Hw) as E.
  split; [exact E|].
  rewrite E, length_app, repeat_length. lia.
Qed.

Lemma filter_seq_sorted (p : nat -> bool) (n a : nat) :
  StronglySorted lt (filter p (seq a n)).
Proof.
  revert a. induction n as [|n IH]; intros a; [constructor|].
  cbn [seq filter]. destruct (p a); [|apply IH].
  constructor; [apply IH|].
  apply Forall_forall. intros f Hf. apply filter_In in Hf.
  destruct Hf as [Hs _]. apply in_seq in Hs. lia.
Qed.

(** X18: when no fault bit is set outside the range from
    RELAY_MALFUNCTION to INTERRUPT_RATE_TICK, the list names exactly the
    set bits: a fault is listed if and only if it lies in the range and its
    bit is set, and the list is strictly ascending, so no fault is named
    twice. *)
Theorem fault_list_exact (width : nat) (faults : Z) (first last : nat) :
  (last < width)%nat ->
  (forall f, (f < width)%nat -> Z.testbit faults (Z.of_nat f) = true ->
             (first <= f <= last)%nat) ->
  (forall f, In f (fault_list width faults first last) <->
             (first <= f <= last)%nat /\ Z.testbit faults (Z.of_nat f) = true) /\
  StronglySorted lt (fault_list width faults first last).
Proof.
  intros Hw Hin.
  assert (Hlen : count width faults
                 = List.length (faults_in_range faults first last)).
  { apply Nat.le_antisymm; [|apply in_range_counted; exact Hw].
    unfold count, faults_in_range. apply NoDup_incl_length.
    - apply NoDup_filter, seq_NoDup.
    - intros f Hf. apply filter_In in Hf. destruct Hf as [Hs Ht].
      apply in_seq in Hs. apply filter_In. split; [|exact Ht].
      apply in_seq. specialize (Hin f ltac:(lia) Ht). lia. }
  pose proof (fault_list_closed_form_aux width faults first last Hw) as E.
  rewrite E, Hlen, Nat.sub_diag. cbn [repeat]. rewrite app_nil_r. split.
  - intros f. unfold faults_in_range. rewrite filter_In, in_seq.
    split; intros [H1 H2]; (split; [lia|exact H2]).
  - apply filter_seq_sorted.
Qed.

End FaultFacts.

(** ** GPS loop, further *)

Lemma pigeon_trace (inp : PigeonInput) (st : PigeonLocals) :
  snd (pigeon_iteration inp st)
  = check_timeouts inp (pg_ignition_last st)
      (parse_header inp (last_recv_time st))
    ++ (if ignition_583 inp && starts_with_null (recv inp)
        then [Log "received invalid ublox message while onroad, resetting panda GPS"]
        else [])
    ++ match recv inp with [] => [] | _ :: _ => [SendUbloxRaw (recv inp)] end
    ++ (if (ignition_594 inp && negb (pg_ignition_last st))
           || (ignition_583 inp && starts_with_null (recv inp))
        then [PigeonInit]
        else if negb (ignition_602 inp) && pg_ignition_last st
             then [Log "powering off pigeon"; PigeonStop; PigeonSetPower false]
             else []).
Proof.
  unfold pigeon_iteration.
  destruct ((ignition_594 inp && negb (pg_ignition_last st))
            || (ignition_583 inp && starts_with_null (recv inp)));
    [reflexivity|].
  destruct (negb (ignition_602 inp) && pg_ignition_last st); reflexivity.
Qed.

Lemma pigeon_times (inp : PigeonInput) (st : PigeonLocals) :
  last_recv_time (fst (pigeon_iteration inp st))
  = if (ignition_594 inp && negb (pg_ignition_last st))
       || (ignition_583 inp && starts_with_null (recv inp))
    then fold_left
           (fun acc '(msg_cls, _) =>
              time_put msg_cls (Machine.u64 (t_init inp + 10000000000)) acc)
           cls_max_dt (parse_header inp (last_recv_time st))
    else parse_header inp (last_recv_time st).
Proof.
  unfold pigeon_iteration.
  destruct ((ignition_594 inp && negb (pg_ignition_last st))
            || (ignition_583 inp && starts_with_null (recv inp)));
    [reflexivity|].
  destruct (negb (ignition_602 inp) && pg_ignition_last st); reflexivity.
Qed.

(** The edge memory takes what the last load of the iteration returns. *)
Lemma pigeon_last (inp : PigeonInput) (st : PigeonLocals) :
  pg_ignition_last (fst (pigeon_iteration inp st)) = ignition_609 inp.
Proof.
  unfold pigeon_iteration.
  destruct ((ignition_594 inp && negb (pg_ignition_last st))
            || (ignition_583 inp && starts_with_null (recv inp)));
    [reflexivity|].
  destruct (negb (ignition_602 inp) && pg_ignition_last st); reflexivity.
Qed.

Lemma check_timeouts_in (inp : PigeonInput) (last : bool) (m : TimeMap)
    (e : Event) :
  In e (check_timeouts inp last m) <->
  e = Log "ublox receive timeout" /\
  last = true /\
  exists cls,
    In cls [Ublox.CLASS_NAV; Ublox.CLASS_RXM] /\
    ignition_575 inp cls = true /\
    900000000
    < Machine.i64_of_u64
        (Machine.u64 (Machine.i64_of_u64 (t_check inp cls)
                      - Machine.i64_of_u64 (m cls))).
Proof.
  unfold check_timeouts, cls_max_dt. cbn [flat_map]. rewrite !in_app_iff.
  split.
  - intros [H|[H|[]]];
      match type of H with
      | context [ignition_575 inp ?c] =>
          match type of H with
          | context [900000000 <? ?d] =>
              destruct last, (ignition_575 inp c) eqn:Ei,
                (900000000 <? d) eqn:E;
              cbn in H; try contradiction; destruct H as [<-|[]];
              apply Z.ltb_lt in E;
              (split; [reflexivity|split; [reflexivity|]]);
              exists c; (split; [cbn; auto|split; [exact Ei|exact E]])
          end
      end.
  - intros (-> & -> & cls & [<-|[<-|[]]] & Hi & Hd); apply Z.ltb_lt in Hd;
      rewrite Hi, Hd; cbn; auto.
Qed.

(** What precedes the edge block of an iteration holds no call on the
    receiver. *)
Lemma pigeon_calls_in_edge (inp : PigeonInput) (st : PigeonLocals)
    (e : Event) (edge : list Event) :
  match e with
  | PigeonInit | PigeonStop | PigeonSetPower _ => True
  | _ => False
  end ->
  (In e (check_timeouts inp (pg_ignition_last st)
           (parse_header inp (last_recv_time st))
         ++ (if ignition_583 inp && starts_with_null (recv inp)
             then [Log "received invalid ublox message while onroad, resetting panda GPS"]
             else [])
         ++ match recv inp with
            | [] => []
            | _ :: _ => [SendUbloxRaw (recv inp)]
            end ++ edge) <-> In e edge).
Proof.
  intros He. rewrite !in_app_iff. split; [|auto].
  intros [H|[H|[H|H]]]; [| | |exact H]; exfalso.
  - apply check_timeouts_in in H. destruct H as [-> _]. exact He.
  - destruct (ignition_583 inp && starts_with_null (recv inp));
      cbn in H; [destruct H as [<-|[]]; exact He|destruct H].
  - destruct (recv inp); cbn in H; [destruct H|].
    destruct H as [<-|[]]. exact He.
Qed.

Lemma timeout_logged_iff_aux (inp : PigeonInput) (st : PigeonLocals) :
  In (Log "ublox receive timeout") (snd (pigeon_iteration inp st)) ->
  pg_ignition_last st = true /\
  exists cls,
    In cls [Ublox.CLASS_NAV; Ublox.CLASS_RXM] /\
    ignition_575 inp cls = true /\
    900000000
    < Machine.i64_of_u64
        (Machine.u64
           (Machine.i64_of_u64 (t_check inp cls)
            - Machine.i64_of_u64
                (parse_header inp (last_recv_time st) cls))).
Proof.
  rewrite pigeon_trace, in_app_iff, check_timeouts_in.
  intros [(_ & H)|H]; [exact H|].
  exfalso. rewrite !in_app_iff in H. destruct H as [H|[H|H]].
  - destruct (ignition_583 inp && starts_with_null (recv inp));
      cbn in H; intuition discriminate.
  - destruct (recv inp); cbn in H; intuition discriminate.
  - destruct ((ignition_594 inp && negb (pg_ignition_last st))
              || (ignition_583 inp && starts_with_null (recv inp)));
      [cbn in H; intuition discriminate|].
    destruct (negb (ignition_602 inp) && pg_ignition_last st);
      cbn in H; intuition discriminate.
Qed.

(** X19: a timeout is logged in an iteration exactly when the iteration
    before left [ignition_last] true and, for the navigation or the
    receiver-manager class, the load of ignition at the check of that class
    returns true and the last-seen time of the class, as the header parse
    of this iteration leaves it, is more than 0.9 s behind the clock read
    at that check.  Each class has its own load and its own clock reading;
    when the loads agree this is ignition on now and before. *)
Theorem timeout_logged_iff (inp : PigeonInput) (st : PigeonLocals) :
  let late cls :=
    900000000
    < Machine.i64_of_u64
        (Machine.u64
           (Machine.i64_of_u64 (t_check inp cls)
            - Machine.i64_of_u64
                (parse_header inp (last_recv_time st) cls))) in
  (In (Log "ublox receive timeout") (snd (pigeon_iteration inp st)) <->
   pg_ignition_last st = true /\
   exists cls,
     In cls [Ublox.CLASS_NAV; Ublox.CLASS_RXM] /\
     ignition_575 inp cls = true /\ late cls) /\
  (forall v, loads_agree v inp ->
     (In (Log "ublox receive timeout") (snd (pigeon_iteration inp st)) <->
      pg_ignition_last st = true /\ v = true /\
      exists cls, In cls [Ublox.CLASS_NAV; Ublox.CLASS_RXM] /\ late cls)).
Proof.
  cbv zeta.
  assert (Hiff : In (Log "ublox receive timeout")
                   (snd (pigeon_iteration inp st)) <->
                 pg_ignition_last st = true /\
                 exists cls,
                   In cls [Ublox.CLASS_NAV; Ublox.CLASS_RXM] /\
                   ignition_575 inp cls = true /\
                   900000000
                   < Machine.i64_of_u64
                       (Machine.u64
                          (Machine.i64_of_u64 (t_check inp cls)
                           - Machine.i64_of_u64
                               (parse_header inp (last_recv_time st) cls)))).
  { split; [apply timeout_logged_iff_aux|].
    rewrite pigeon_trace, in_app_iff, check_timeouts_in.
    intros H. left. split; [reflexivity|exact H]. }
  split; [exact Hiff|].
  intros v (_ & H575 & _). rewrite Hiff. split.
  - intros (Hl & cls & Hc & Hi & Hd). rewrite H575 in Hi.
    split; [exact Hl|]. split; [exact Hi|]. exists cls. auto.
  - intros (Hl & -> & cls & Hc & Hd). split; [exact Hl|].
    exists cls. rewrite H575. auto.
Qed.

(** No stop comes out of a run that starts with [ignition_last] false and
    in which the last load of every iteration returns false. *)
Lemma run_without_stop (inputs : list PigeonInput) (st : PigeonLocals) :
  pg_ignition_last st = false ->
  Forall (fun i => ignition_609 i = false) inputs ->
  ~ In PigeonStop (snd (pigeon_run inputs st)).
Proof.
  intros Hl H. revert st Hl.
  induction H as [|inp inputs H609 _ IH]; intros st Hl; [intros []|].
  cbn [pigeon_run].
  destruct (pigeon_iteration inp st) as [st1 ev1] eqn:E1.
  destruct (pigeon_run inputs st1) as [st2 ev2] eqn:E2.
  cbn [snd]. rewrite in_app_iff. intros [Hin|Hin].
  - replace ev1 with (snd (pigeon_iteration inp st)) in Hin
      by (rewrite E1; reflexivity).
    rewrite pigeon_trace in Hin.
    apply pigeon_calls_in_edge in Hin; [|exact I].
    rewrite Hl, andb_false_r in Hin.
    destruct ((ignition_594 inp && negb false)
              || (ignition_583 inp && starts_with_null (recv inp)));
      cbn in Hin; intuition discriminate.
  - apply (IH st1).
    + replace st1 with (fst (pigeon_iteration inp st))
        by (rewrite E1; reflexivity).
      rewrite pigeon_last. exact H609.
    + rewrite E2. exact Hin.
Qed.

(** No initialisation comes out of a run that starts with [ignition_last]
    true and in which the last load of every iteration returns true and no
    buffer starts with a null byte. *)
Lemma run_without_init (inputs : list PigeonInput) (st : PigeonLocals) :
  pg_ignition_last st = true ->
  Forall (fun i => ignition_609 i = true /\ starts_with_null (recv i) = false)
    inputs ->
  ~ In PigeonInit (snd (pigeon_run inputs st)).
Proof.
  intros Hl H. revert st Hl.
  induction H as [|inp inputs [H609 Hnull] _ IH]; intros st Hl; [intros []|].
  cbn [pigeon_run].
  destruct (pigeon_iteration inp st) as [st1 ev1] eqn:E1.
  destruct (pigeon_run inputs st1) as [st2 ev2] eqn:E2.
  cbn [snd]. rewrite in_app_iff. intros [Hin|Hin].
  - replace ev1 with (snd (pigeon_iteration inp st)) in Hin
      by (rewrite E1; reflexivity).
    rewrite pigeon_trace in Hin.
    apply pigeon_calls_in_edge in Hin; [|exact I].
    rewrite Hl, Hnull, !andb_false_r in Hin. cbn [orb] in Hin.
    destruct (negb (ignition_602 inp) && true);
      cbn in Hin; intuition discriminate.
  - apply (IH st1).
    + replace st1 with (fst (pigeon_iteration inp st))
        by (rewrite E1; reflexivity).
      rewrite pigeon_last. exact H609.
    + rewrite E2. exact Hin.
Qed.

(** X20: the receiver is initialised in an iteration exactly when the
    load of ignition at the edge test returns true with [ignition_last]
    false, or the load at the null-byte check returns true and the buffer
    starts with a null byte; otherwise it is stopped and powered off exactly
    when the load at the falling-edge test returns false with
    [ignition_last] true.  Power is never switched on by the loop and the
    two never happen in the same iteration.  When the loads agree these are
    the rising edge (or the null byte under ignition) and the falling edge.
    They need not agree: after an iteration whose last load returns false,
    be it one that has initialised the receiver, no stop follows for as long
    as the last load of the iterations returns false. *)
Theorem receiver_edges (inp : PigeonInput) (st : PigeonLocals) :
  let tr := snd (pigeon_iteration inp st) in
  let reset :=
    ignition_583 inp = true /\ starts_with_null (recv inp) = true in
  (In PigeonInit tr <->
   (ignition_594 inp = true /\ pg_ignition_last st = false) \/ reset) /\
  (In PigeonStop tr <->
   ignition_602 inp = false /\ pg_ignition_last st = true /\ ~ reset) /\
  (In PigeonStop tr <-> In (PigeonSetPower false) tr) /\
  ~ In (PigeonSetPower true) tr /\
  ~ (In PigeonInit tr /\ In PigeonStop tr) /\
  (forall v, loads_agree v inp ->
     (In PigeonInit tr <->
      v = true /\
      (pg_ignition_last st = false \/ starts_with_null (recv inp) = true)) /\
     (In PigeonStop tr <-> v = false /\ pg_ignition_last st = true)) /\
  (ignition_609 inp = false ->
   forall inputs,
     Forall (fun i => ignition_609 i = false) inputs ->
     ~ In PigeonStop (snd (pigeon_run inputs (fst (pigeon_iteration inp st))))).
Proof.
  cbv zeta.
  split; [|split; [|split; [|split; [|split; [|split]]]]].
  7:{ intros H609 inputs Hin. apply run_without_stop; [|exact Hin].
      rewrite pigeon_last. exact H609. }
  6:{ intros v (_ & _ & H583 & H594 & H602 & _).
      rewrite pigeon_trace, !pigeon_calls_in_edge by exact I.
      rewrite H583, H594, H602.
      destruct v, (pg_ignition_last st), (starts_with_null (recv inp)); cbn;
        intuition discriminate. }
  all: rewrite pigeon_trace, !pigeon_calls_in_edge by exact I;
    destruct (ignition_583 inp), (ignition_594 inp), (ignition_602 inp),
      (pg_ignition_last st), (starts_with_null (recv inp)); cbn;
    intuition discriminate.
Qed.

Lemma parse_header_known (inp : PigeonInput) (m : TimeMap) (cls : byte) :
  parse_header inp m cls = m cls
  \/ (parse_header inp m cls = t_parse inp /\ m cls < t_parse inp).
Proof.
  unfold parse_header.
  destruct (ignition_562 inp && (3 <=? Z.of_nat (List.length (recv inp))));
    [|left; reflexivity].
  destruct (recv inp) as [|b0 [|b1 [|c rest]]]; try (left; reflexivity).
  destruct (Byte.eqb b0 Ublox.PREAMBLE1 && Byte.eqb b1 Ublox.PREAMBLE2);
    [|left; reflexivity].
  destruct (m c <? t_parse inp) eqn:E; [|left; reflexivity].
  unfold time_put. destruct (Byte.eqb cls c) eqn:Ec; [|left; reflexivity].
  right. split; [reflexivity|].
  apply Byte.byte_dec_bl in Ec. subst. apply Z.ltb_lt. exact E.
Qed.

(** X21: an initialisation gives the receiver ten seconds: in the
    iteration that follows one with an initialisation no timeout is logged
    as long as the clock at the checks is within 10.9 s of the
    initialisation (clocks below 2^62 ns). *)
Theorem startup_grace (inp inp2 : PigeonInput) (st : PigeonLocals) :
  In PigeonInit (snd (pigeon_iteration inp st)) ->
  0 <= t_init inp < 2 ^ 62 ->
  0 <= t_parse inp2 < 2 ^ 62 ->
  (forall cls, 0 <= t_check inp2 cls <= t_init inp + 10900000000) ->
  ~ In (Log "ublox receive timeout")
      (snd (pigeon_iteration inp2 (fst (pigeon_iteration inp st)))).
Proof.
  intros Hinit Ht Hp Hc Hlog.
  apply timeout_logged_iff_aux in Hlog.
  destruct Hlog as (_ & cls & Hcls & _ & Hd).
  assert (Hprimed : last_recv_time (fst (pigeon_iteration inp st)) cls
                    = t_init inp + 10000000000).
  { rewrite pigeon_times. rewrite pigeon_trace in Hinit.
    apply pigeon_calls_in_edge in Hinit; [|exact I].
    destruct ((ignition_594 inp && negb (pg_ignition_last st))
              || (ignition_583 inp && starts_with_null (recv inp))).
    - unfold Machine.u64. rewrite Z.mod_small by lia.
      destruct Hcls as [<-|[<-|[]]]; reflexivity.
    - exfalso.
      destruct (negb (ignition_602 inp) && pg_ignition_last st);
        cbn in Hinit; intuition discriminate. }
  specialize (Hc cls).
  assert (Hm : t_init inp + 10000000000
               <= parse_header inp2
                    (last_recv_time (fst (pigeon_iteration inp st))) cls
               < 2 ^ 63).
  { destruct (parse_header_known inp2
                (last_recv_time (fst (pigeon_iteration inp st))) cls)
      as [->|[-> H]]; lia. }
  revert Hd. unfold Machine.i64_of_u64, Machine.u64.
  set (m := parse_header inp2
              (last_recv_time (fst (pigeon_iteration inp st))) cls) in *.
  replace (t_check inp2 cls <? 2 ^ 63) with true
    by (symmetry; apply Z.ltb_lt; lia).
  replace (m <? 2 ^ 63) with true by (symmetry; apply Z.ltb_lt; lia).
  destruct (Z_le_gt_dec m (t_check inp2 cls)) as [Hle|Hgt].
  - rewrite Z.mod_small by lia.
    replace (t_check inp2 cls - m <? 2 ^ 63) with true
      by (symmetry; apply Z.ltb_lt; lia).
    lia.
  - replace (t_check inp2 cls - m)
      with (2 ^ 64 - (m - t_check inp2 cls) + (-1) * 2 ^ 64) by lia.
    rewrite Z.mod_add by lia. rewrite Z.mod_small by lia.
    replace (2 ^ 64 - (m - t_check inp2 cls) <? 2 ^ 63) with false
      by (symmetry; apply Z.ltb_ge; lia).
    lia.
Qed.

(** X22: when every load of ignition up to the falling-edge test returns
    false, the iteration publishes what it received and does nothing else,
    except that with [ignition_last] true it stops the receiver and then
    powers it off; it logs no timeout and the last-seen times stay as they
    were.  [ignition_last] then takes what the load after the stop returns,
    which need not be false: if it is true, the receiver has been stopped
    under an ignition that is on, and the iterations that follow do not
    initialise it for as long as their last load returns true and no buffer
    starts with a null byte. *)
Theorem ignition_off_iteration (inp : PigeonInput) (st : PigeonLocals) :
  ignition_562 inp = false ->
  (forall cls, ignition_575 inp cls = false) ->
  ignition_583 inp = false ->
  ignition_594 inp = false ->
  ignition_602 inp = false ->
  snd (pigeon_iteration inp st)
  = match recv inp with [] => [] | _ :: _ => [SendUbloxRaw (recv inp)] end
    ++ (if pg_ignition_last st
        then [Log "powering off pigeon"; PigeonStop; PigeonSetPower false]
        else []) /\
  (forall cls,
     last_recv_time (fst (pigeon_iteration inp st)) cls
     = last_recv_time st cls) /\
  pg_ignition_last (fst (pigeon_iteration inp st)) = ignition_609 inp /\
  (ignition_609 inp = true ->
   forall inputs,
     Forall (fun i => ignition_609 i = true /\
                      starts_with_null (recv i) = false) inputs ->
     ~ In PigeonInit
         (snd (pigeon_run inputs (fst (pigeon_iteration inp st))))).
Proof.
  intros H562 H575 H583 H594 H602. split; [|split; [|split]].
  - rewrite pigeon_trace, H583, H594, H602. cbn [andb orb negb].
    assert (Hq : check_timeouts inp (pg_ignition_last st)
                   (parse_header inp (last_recv_time st)) = []).
    { unfold check_timeouts, cls_max_dt. cbn [flat_map]. rewrite !H575.
      rewrite !andb_false_r. reflexivity. }
    rewrite Hq. reflexivity.
  - intros cls. rewrite pigeon_times, H583, H594. cbn [andb orb].
    unfold parse_header. rewrite H562. reflexivity.
  - apply pigeon_last.
  - intros H609 inputs Hin. apply run_without_init; [|exact Hin].
    rewrite pigeon_last. exact H609.
Qed.

(** ** Safety setter, further *)

Section SafetySetterMore.
Variable ELM327 : Z.
Variable decode_car_params : string -> Z * Z.

Local Abbreviation setter := (safety_setter_thread ELM327 decode_car_params).

Lemma elm327_prefix (aux : AuxTests) (model param : Z) :
  (exists rest,
     issued_sequence ELM327 aux model param
     = set_safety_model_both (aux_54 aux) ELM327 0 ++ rest) /\
  (exists rest,
     issued_sequence ELM327 aux model param
     = (set_safety_model_both (aux_54 aux) ELM327 0
        ++ set_safety_model_both (aux_77 aux) ELM327 1) ++ rest).
Proof. destruct aux as [[] [] []]; split; eexists; reflexivity. Qed.

Lemma issued_sequence_agree (a : bool) (model param : Z) :
  issued_sequence ELM327 (MkAuxTests a a a) model param
  = commanded_sequence ELM327 a model param.
Proof. reflexivity. Qed.

(** X23: whatever the polls bring and whatever the tests of [aux_panda]
    find, the commands of a run that has not reached its end (it returned
    early, died on the assertion, or is still polling) are a beginning of
    the full sequence that stops before the unsafe mode is cleared: such a
    run has put the boards in ELM327 and nothing else.  When the tests
    agree the full sequence is the spec's. *)
Theorem unfinished_run_is_prefix (aux : AuxTests) (polls : list World)
    (tr : list Event) (model param : Z) :
  (exists running, setter aux polls = Cancelled tr running)
  \/ setter aux polls = AssertFailed tr \/ setter aux polls = Polling tr ->
  (exists rest, issued_sequence ELM327 aux model param = tr ++ rest) /\
  (forall a, aux = MkAuxTests a a a ->
     exists rest, commanded_sequence ELM327 a model param = tr ++ rest) /\
  Forall (fun e => exists b p, e = SetSafetyModel b ELM327 p) tr.
Proof.
  intros Hrun.
  cut ((exists rest, issued_sequence ELM327 aux model param = tr ++ rest) /\
       Forall (fun e => exists b p, e = SetSafetyModel b ELM327 p) tr).
  { intros [H1 H2]. split; [exact H1|]. split; [|exact H2].
    intros a ->. rewrite <- issued_sequence_agree. exact H1. }
  revert Hrun.
  destruct (elm327_prefix aux model param) as [P1 P2].
  assert (F1 : Forall (fun e => exists b p, e = SetSafetyModel b ELM327 p)
                 (set_safety_model_both (aux_54 aux) ELM327 0))
    by (destruct (aux_54 aux); repeat constructor; repeat eexists).
  assert (F2 : Forall (fun e => exists b p, e = SetSafetyModel b ELM327 p)
                 (set_safety_model_both (aux_54 aux) ELM327 0
                  ++ set_safety_model_both (aux_77 aux) ELM327 1))
    by (destruct (aux_54 aux), (aux_77 aux); repeat constructor;
        repeat eexists).
  unfold safety_setter_thread.
  destruct (wait_car_vin polls) as [vin polls2| | |].
  - destruct (wait_car_params polls2) as [params polls3| | |].
    + destruct (decode_car_params params).
      intros [[r H]|[H|H]]; discriminate.
    + intros [[r H]|[H|H]]; inversion H; subst; auto.
    + intros [[r H]|[H|H]]; inversion H; subst; auto.
    + intros [[r H]|[H|H]]; inversion H; subst; auto.
  - intros [[r H]|[H|H]]; inversion H; subst; auto.
  - intros [[r H]|[H|H]]; inversion H; subst; auto.
  - intros [[r H]|[H|H]]; inversion H; subst; auto.
Qed.

Lemma wait_car_vin_skip_more (waits rest : list World) :
  Forall (fun w => do_exit w = false /\ main_connected w = true /\
                   String.length (params_get w "CarVin") = 0%nat) waits ->
  wait_car_vin (waits ++ rest) = wait_car_vin rest.
Proof.
  induction 1 as [|w waits (He & Hc & Hv) _ IH]; [reflexivity|].
  cbn [wait_car_vin app]. rewrite He, Hc, Hv. cbn. exact IH.
Qed.

(** X24: while the VIN is awaited, a poll that finds an exit request or
    main disconnected ends the run at once with the flag cleared, even when
    that poll would also have found the VIN; and a first VIN that is not 17
    characters long kills the run on its assertion.  In both cases the
    boards are left in ELM327 with param 0: the lock is not commanded. *)
Theorem first_loop_exits (aux : AuxTests) (waits : list World) (w : World)
    (rest : list World) :
  Forall (fun w => do_exit w = false /\ main_connected w = true /\
                   String.length (params_get w "CarVin") = 0%nat) waits ->
  (do_exit w = true \/ main_connected w = false ->
   setter aux (waits ++ w :: rest)
   = Cancelled (set_safety_model_both (aux_54 aux) ELM327 0) false) /\
  (do_exit w = false -> main_connected w = true ->
   String.length (params_get w "CarVin") <> 0%nat ->
   String.length (params_get w "CarVin") <> 17%nat ->
   setter aux (waits ++ w :: rest)
   = AssertFailed (set_safety_model_both (aux_54 aux) ELM327 0)).
Proof.
  intros Hw. unfold safety_setter_thread.
  rewrite wait_car_vin_skip_more by exact Hw. cbn [wait_car_vin]. split.
  - intros [H|H]; rewrite H; [|rewrite orb_true_r]; reflexivity.
  - intros He Hc H0 H17. rewrite He, Hc. cbn [orb negb].
    apply Nat.eqb_neq in H17. rewrite H17.
    destruct (String.length (params_get w "CarVin")); [contradiction|].
    reflexivity.
Qed.

End SafetySetterMore.

(** ** CAN send loop, further *)

(** X25: an iteration of the send loop dereferences the null aux board
    exactly when a message arrived whose wrapped age is below one second,
    fake-send is off, main_shift is not 0 and no aux board is connected
    (AUX_CAN_DRIVE set with a single board). *)
Theorem can_send_null_aux_iff (fake_send aux : bool) (g : Shared) (now : Z)
    (msg : option SendcanEvent) :
  can_send_iteration fake_send g aux now msg = None <->
  exists event,
    msg = Some event /\
    Machine.u64_sub now (logMonoTime event) < 10 ^ 9 /\
    fake_send = false /\ main_shift g <> 0 /\ aux = false.
Proof.
  unfold can_send_iteration. destruct msg as [event|].
  2:{ split; [discriminate|]. intros (e & H & _). discriminate. }
  rewrite u64_lt_1e9 by apply u64_range.
  destruct (Machine.u64_sub now (logMonoTime event) <? 10 ^ 9) eqn:Ea.
  - apply Z.ltb_lt in Ea.
    destruct fake_send; cbn [negb];
      [split; [discriminate|intros (e & _ & _ & H & _); discriminate]|].
    destruct (main_shift g =? 0) eqn:Es.
    + apply Z.eqb_eq in Es.
      split; [discriminate|intros (e & _ & _ & _ & H & _); contradiction].
    + apply Z.eqb_neq in Es. destruct aux.
      * split; [discriminate|intros (e & _ & _ & _ & _ & H); discriminate].
      * split; [intros _|reflexivity]. exists event. auto.
  - apply Z.ltb_ge in Ea. split; [discriminate|].
    intros (e & He & Hlt & _). inversion He. subst. lia.
Qed.

(** ** Board-state loop, further *)

Section BoardStateMore.
Variables SILENT NO_OUTPUT : Z.

Local Abbreviation tick := (panda_state_tick SILENT NO_OUTPUT).
Local Abbreviation ign s := (ignition (shared s)).
Local Abbreviation has_aux inp :=
  (match aux_health inp with Some _ => true | None => false end).

Ltac by_blocks :=
  repeat match goal with
         | |- Forall _ (_ ++ _) => apply Forall_app; split
         | |- Forall _ (_ :: _) => constructor
         | |- Forall _ [] => constructor
         | |- Forall _ (if ?c then _ else _) => destruct c
         | |- Forall _ (match ?x with Some _ => _ | None => _ end) =>
             destruct x
         end.






Lemma tick_ignition_last (inp : TickInput) (s : PandaLoop) :
  ignition_last (final (tick inp) s) = ign (final (tick inp) s).
Proof.
  destruct (tick_spec SILENT NO_OUTPUT inp s) as [Hf _]. rewrite Hf.
  reflexivity.
Qed.

Lemma tick_edge_events (inp : TickInput) (s : PandaLoop) (e : Event) :
  is_edge_action e = true ->
  (In e (trace (tick inp) s) <->
   (ign (final (tick inp) s) = true /\ ignition_last s = false /\
    (e = ClearAll CLEAR_ON_IGNITION_ON
     \/ ((e = StoreSetterRunning true \/ e = SpawnSafetySetter) /\
         safety_setter_thread_running (shared s) = false)))
   \/ (ign (final (tick inp) s) = false /\ ignition_last s = true /\
       e = ClearAll CLEAR_ON_IGNITION_OFF)).
Proof.
  intros He.
  destruct (tick_trace_blocks SILENT NO_OUTPUT inp s)
    as (head & edges & rtc & tail & s2 & s3 & Ht & Hed & Hr & Hi2 & Hl2 & Hr2
        & _ & _ & Hhead & Htail & _).
  rewrite Ht, !in_app_iff.
  rewrite Forall_forall in Hhead, Htail.
  pose proof (rtc_block_events inp s3) as Hrtc. rewrite <- Hr in Hrtc.
  rewrite Forall_forall in Hrtc.
  assert (Hin : In e head \/ In e edges \/ In e rtc \/ In e tail <-> In e edges).
  { split; [|auto]. intros [H|[H|[H|H]]]; [|exact H| |].
    - specialize (Hhead _ H). destruct e; try discriminate; destruct Hhead.
    - specialize (Hrtc _ H). destruct e; try discriminate; destruct Hrtc.
    - specialize (Htail _ H). destruct e; try discriminate; destruct Htail. }
  rewrite Hin, Hed, ignition_edges_trace, Hi2, Hl2, Hr2.
  destruct (ign (final (tick inp) s)), (ignition_last s),
    (safety_setter_thread_running (shared s)); cbn;
    intuition (subst; cbn in *; try discriminate; try congruence; auto).
Qed.

(** X28: an iteration clears the CLEAR_ON_IGNITION_OFF parameters exactly
    when it leaves ignition off and the iteration before left it on, and
    the CLEAR_ON_IGNITION_ON ones exactly in the opposite case; it
    remembers the ignition it leaves, so an iteration that is given the
    same input right after it clears nothing and launches nothing. *)
Theorem edges_fire_once (inp : TickInput) (s : PandaLoop) :
  (In (ClearAll CLEAR_ON_IGNITION_OFF) (trace (tick inp) s) <->
   ign (final (tick inp) s) = false /\ ignition_last s = true) /\
  (In (ClearAll CLEAR_ON_IGNITION_ON) (trace (tick inp) s) <->
   ign (final (tick inp) s) = true /\ ignition_last s = false) /\
  ignition_last (final (tick inp) s) = ign (final (tick inp) s) /\
  (forall e, In e (trace (tick inp) (final (tick inp) s)) ->
             is_edge_action e = false).
Proof.
  split; [|split; [|split]].
  - rewrite tick_edge_events by reflexivity.
    intuition (try discriminate; auto).
  - rewrite tick_edge_events by reflexivity.
    intuition (try discriminate; auto).
  - apply tick_ignition_last.
  - intros e Hin. destruct (is_edge_action e) eqn:He; [|reflexivity].
    exfalso. apply tick_edge_events in Hin; [|exact He].
    set (s1 := final (tick inp) s) in *.
    assert (Hsame : ign (final (tick inp) s1) = ign s1).
    { rewrite (tick_ignition SILENT NO_OUTPUT inp s1).
      destruct (aux_health inp) as [pa|] eqn:Ea; [|reflexivity].
      unfold s1. rewrite tick_main_shift, tick_ignition, Ea. reflexivity. }
    pose proof (tick_ignition_last inp s) as Hl. fold s1 in Hl.
    rewrite Hsame, Hl in Hin.
    destruct (ign s1); intuition discriminate.
Qed.

(** X29: the iteration in which ignition falls, coming after one that
    left it on, is the first parked one: the parked counter is 1 in it, so
    a main board with an RTC has its clock read in that very iteration when
    the host time is valid, and set when the two differ by more than
    1.1 s. *)
Theorem rtc_checked_when_ignition_falls (inp0 inp : TickInput)
    (s0 : PandaLoop) :
  let s := final (tick inp0) s0 in
  ign s = true ->
  ign (final (tick inp) s) = false ->
  no_ignition_cnt (final (tick inp) s) = 1 /\
  (main_has_rtc inp = true -> sys_time_valid inp = true ->
   In (GetRtc Main) (trace (tick inp) s) /\
   (11 < 10 * Z.abs (rtc_secs inp - sys_secs inp) ->
    In (SetRtc Main (sys_secs inp)) (trace (tick inp) s))).
Proof.
  intros s Hon Hoff.
  assert (Hc0 : no_ignition_cnt s = 0).
  { unfold s. rewrite tick_no_ignition_cnt. fold s. rewrite Hon. reflexivity. }
  assert (Hc1 : no_ignition_cnt (final (tick inp) s) = 1).
  { rewrite tick_no_ignition_cnt, Hoff, Hc0. reflexivity. }
  split; [exact Hc1|]. intros Hrtc Hvalid.
  destruct (tick_trace_blocks SILENT NO_OUTPUT inp s)
    as (head & edges & rtc & tail & s2 & s3 & Ht & _ & Hr & _ & _ & _ & Hi3
        & Hc3 & _).
  rewrite Ht, Hr, rtc_writeback_trace, Hi3, Hc3, Hoff, Hc1, Hrtc, Hvalid.
  cbn [andb negb]. change (1 mod 120 =? 1) with true. cbn [andb].
  split.
  - rewrite !in_app_iff. right. right. left. left. reflexivity.
  - intros Hd. apply Z.ltb_lt in Hd. unfold rtc_drifted. rewrite Hd.
    rewrite !in_app_iff. right. right. left. right. left. reflexivity.
Qed.

(** The commands of an iteration around the block for the aux board. *)
Lemma tick_trace_aux (inp : TickInput) (s : PandaLoop) :
  exists pre post,
    trace (tick inp) s
    = pre ++ match aux_health inp with
             | Some pa =>
                 GetState Aux
                   :: trace (aux_block SILENT NO_OUTPUT (polled inp) pa) s
             | None => []
             end ++ post /\
    Forall (fun e => match e with SetSafetyModel Aux _ _ => False | _ => True end)
      (pre ++ post).
Proof.
  destruct (tick_spec SILENT NO_OUTPUT inp s) as [_ Ht]. cbv zeta in Ht.
  rewrite Ht.
  match goal with
  | |- exists _ _, ?g :: ?a ++ ?b ++ ?rest = _ /\ _ =>
      exists (g :: a), rest
  end.
  split; [reflexivity|].
  by_blocks; auto;
    rewrite ?power_save_trace, ?safety_off_trace, ?ignition_edges_trace,
      ?rtc_writeback_trace, ?publish_trace;
    by_blocks; auto.
Qed.

(** X30: the aux board is commanded NO_OUTPUT in an iteration exactly
    when it reports SILENT, or when main reports a model other than
    NO_OUTPUT while ignition, as the iteration before left it, is off; no
    other safety model is ever commanded on it by this loop, and none
    without an aux board. *)
Theorem aux_no_output_iff (inp : TickInput) (s : PandaLoop) :
  (forall pa, aux_health inp = Some pa ->
     (In (SetSafetyModel Aux NO_OUTPUT 0) (trace (tick inp) s) <->
      safety_model pa = SILENT
      \/ (ign s = false /\ safety_model (main_health inp) <> NO_OUTPUT))) /\
  (forall m p, In (SetSafetyModel Aux m p) (trace (tick inp) s) ->
               m = NO_OUTPUT /\ p = 0 /\ has_aux inp = true).
Proof.
  destruct (tick_trace_aux inp s) as (pre & post & Ht & Hn).
  apply Forall_app in Hn. destruct Hn as [Hpre Hpost].
  rewrite Forall_forall in Hpre, Hpost.
  assert (Hmid : forall m p,
            In (SetSafetyModel Aux m p) (trace (tick inp) s) <->
            In (SetSafetyModel Aux m p)
              match aux_health inp with
              | Some pa =>
                  GetState Aux
                    :: trace (aux_block SILENT NO_OUTPUT (polled inp) pa) s
              | None => []
              end).
  { intros m p. rewrite Ht, !in_app_iff. split; [|auto].
    intros [H|[H|H]]; [destruct (Hpre _ H)|exact H|destruct (Hpost _ H)]. }
  split.
  - intros pa Ha. rewrite Hmid, Ha, aux_block_trace, polled_safety_model.
    cbn [In]. rewrite in_app_iff.
    destruct (Z.eqb_spec (safety_model pa) SILENT) as [E1|E1];
      destruct (ign s);
      destruct (Z.eqb_spec (safety_model (main_health inp)) NO_OUTPUT)
        as [E2|E2];
      cbn; intuition (try discriminate; try congruence).
  - intros m p Hin. apply Hmid in Hin.
    destruct (aux_health inp) as [pa|]; [|destruct Hin].
    rewrite aux_block_trace in Hin. cbn [In] in Hin. rewrite in_app_iff in Hin.
    destruct Hin as [H|[H|H]]; [discriminate| |];
      match type of H with
      | context [if ?c then _ else _] => destruct c
      end; cbn in H; try contradiction;
      destruct H as [H|[]]; inversion H; auto.
Qed.

End BoardStateMore.

(** ** The further properties at work *)

Section Runs.
Import Cases.

Lemma fw_sig_hex_format_run :
  Hex.fw_sig_hex [1; 2; 3] = None /\
  exists text,
    Hex.fw_sig_hex signature = Some text /\ List.length text = 16%nat /\
    forallb Hex.is_lower_hex text = true.
Proof.
  destruct (fw_sig_hex_format [1; 2; 3]) as [H1 _].
  destruct (fw_sig_hex_format signature) as [_ H2].
  split; [apply H1; cbn; lia|apply H2; cbn; lia].
Defined.

Lemma fw_sig_hex_round_trip_run :
  Hex.unhex [49; 50; 97; 98; 48; 48; 102; 102; 48; 55; 52; 48; 56; 49; 99; 56]
  = firstn 8 signature.
Proof.
  apply (fw_sig_hex_round_trip signature); [|reflexivity].
  unfold signature. repeat constructor; lia.
Defined.

Lemma usb_connect_keeps_serials_run :
  Connect.pandas_detected black_connected = [] /\
  Connect.pandas_connected black_connected = ["black0"%string].
Proof.
  destruct (usb_connect_keeps_serials host false black_detected
              black_connected true
              [Connect.Put "PandaFirmware" (Connect.Bytes signature);
               Connect.Put "PandaFirmwareHex"
                 (Connect.Bytes [49; 50; 97; 98; 48; 48; 102; 102; 48; 55;
                                 52; 48; 56; 49; 99; 56]);
               Connect.Put "PandaDongleId" (Connect.Text "black0");
               Connect.SetUsbPowerModeCDP "black0";
               Connect.SetTimeOfDay 1700000000]
              eq_refl) as (serial & rest & Hd & Hm & _).
  inversion Hd. subst serial rest. exact Hm.
Defined.

Lemma host_opens (s : string) (p : Connect.Panda) (fw : list Z) :
  Connect.open_panda host s = Some p ->
  Connect.get_firmware_version p = Some fw -> (8 <= List.length fw)%nat.
Proof.
  cbn. intros Ho Hf.
  destruct (String.eqb s "black0");
    [inversion Ho; subst; inversion Hf; subst; cbn; lia|].
  destruct (String.eqb s "grey0");
    [inversion Ho; subst; inversion Hf; subst; cbn; lia|].
  destruct (String.eqb s "mute0"); [|discriminate].
  inversion Ho; subst. discriminate.
Defined.

Lemma usb_retry_connect_settles_run :
  exists ok c tr,
    both_boards = Connect.Done ok c tr /\
    Connect.pandas_detected c = [] /\
    Connect.pandas_connected c = ["black0"; "grey0"]%string /\
    ok = match Connect.main_panda c with Some _ => true | None => false end.
Proof.
  apply (usb_retry_connect_settles host valid_after_first
           ["black0"; "grey0"]%string false 3).
  - discriminate.
  - intros s [<-|[<-|[]]]; discriminate.
  - exact host_opens.
  - cbn. lia.
  - cbn. lia.
Defined.

Lemma usb_retry_connect_retries_forever_run :
  Connect.usb_retry_connect host never never ["gone0"; "black0"]%string 1000
    (Connect.disconnected false) = Connect.Looping.
Proof.
  apply (usb_retry_connect_retries_forever host never "gone0"
           ["black0"%string] false 1000).
  reflexivity.
Defined.

Lemma unreadable_board_not_retried_run :
  Connect.usb_retry_connect host never never ["mute0"%string] 5
    (Connect.disconnected false)
  = Connect.Done false (Connect.MkConn None None [] ["mute0"%string] false) [].
Proof.
  apply (unreadable_board_not_retried host never "mute0" mute false 5);
    [reflexivity|reflexivity|lia].
Defined.

Lemma both_boards_done :
  both_boards
  = Connect.Done true
      (Connect.MkConn (Some black) (Some grey) [] ["black0"; "grey0"]%string
         true)
      [Connect.Put "PandaFirmware" (Connect.Bytes signature);
       Connect.Put "PandaFirmwareHex"
         (Connect.Bytes [49; 50; 97; 98; 48; 48; 102; 102; 48; 55; 52; 48;
                         56; 49; 99; 56]);
       Connect.Put "PandaDongleId" (Connect.Text "black0");
       Connect.SetUsbPowerModeCDP "black0";
       Connect.SetTimeOfDay 1700000000;
       Connect.Put "PandaFirmware" (Connect.Bytes signature);
       Connect.Put "PandaFirmwareHex"
         (Connect.Bytes [49; 50; 97; 98; 48; 48; 102; 102; 48; 55; 52; 48;
                         56; 49; 99; 56]);
       Connect.Put "PandaDongleId" (Connect.Text "grey0")].
Proof. vm_compute. reflexivity. Defined.

Lemma usb_retry_connect_slot_kinds_run :
  (forall p, Some black = Some p ->
             Connect.hw_type p = Connect.BLACK_PANDA
             \/ Connect.hw_type p = Connect.DOS) /\
  (forall p, Some grey = Some p ->
             Connect.hw_type p <> Connect.BLACK_PANDA
             /\ Connect.hw_type p <> Connect.DOS) /\
  (true = true -> exists p, Some black = Some p).
Proof.
  exact (usb_retry_connect_slot_kinds host never valid_after_first
           ["black0"; "grey0"]%string false 3 _ _ _ both_boards_done).
Defined.

Lemma usb_retry_connect_cdp_once_run :
  exists ok c tr,
    both_boards = Connect.Done ok c tr /\
    (Connect.cdp_count tr <= 1)%nat /\
    (Connect.cdp_count tr = 1%nat -> Connect.connected_once c = true).
Proof.
  do 3 eexists. split; [exact both_boards_done|].
  destruct (usb_retry_connect_cdp_once host never valid_after_first
              ["black0"; "grey0"]%string 3 (Connect.disconnected false) _ _ _
              both_boards_done)
    as (H1 & _ & _ & H4).
  split; [exact H1|exact H4].
Defined.

Lemma usb_connect_sets_clock_run :
  false = false /\ true = true /\
  exists s p,
    hd_error (Connect.pandas_detected black_detected) = Some s /\
    Connect.open_panda host s = Some p /\
    Connect.has_rtc p = true /\ Connect.rtc_valid p = true /\
    1700000000 = Connect.rtc_time p.
Proof.
  eapply (usb_connect_sets_clock host false black_detected _ true _
            1700000000).
  - vm_compute. reflexivity.
  - cbn. auto 10.
Defined.

Lemma pace_run_no_drift_run :
  fst (Pace.pace_run true 10000000 [9000000; 19999999; 20000001])
  = 10000000 + Pace.dt * 3 /\
  forallb Pace.is_sleep
    (snd (Pace.pace_run true 10000000 [9000000; 19999999; 20000001])) = true /\
  List.length (snd (Pace.pace_run true 10000000 [9000000; 19999999; 20000001]))
  = 3%nat.
Proof.
  apply (pace_run_no_drift true 10000000 [9000000; 19999999; 20000001]).
  - cbn. unfold Pace.dt. lia.
  - repeat constructor; lia.
  - lia.
  - cbn.  unfold Pace.dt. lia.
Defined.


Lemma other_boards_only_charging_run :
  (forall e,
     In e (snd (HwControl.iteration grey_charging_off HwControl.start)) ->
     exists m, e = HwControl.SetUsbPowerMode m) /\
  HwControl.ir_pwr (fst (HwControl.iteration grey_charging_off HwControl.start))
  = 0 /\
  HwControl.prev_ir_pwr
    (fst (HwControl.iteration grey_charging_off HwControl.start)) = 999 /\
  HwControl.prev_fan_speed
    (fst (HwControl.iteration grey_charging_off HwControl.start)) = 999.
Proof.
  apply (other_boards_only_charging grey_charging_off HwControl.start);
    discriminate.
Defined.

Lemma stale_frame_turns_ir_off_run :
  HwControl.ir_pwr
    (fst (HwControl.iteration (uno_frame 1700 3000000000)
            (fst (HwControl.iteration (uno_frame 1700 500000000)
                    HwControl.start)))) = 50 /\
  HwControl.ir_pwr
    (fst (HwControl.iteration (uno_idle 5000000000)
            (fst (HwControl.iteration (uno_frame 1700 3000000000)
                    HwControl.start)))) = 0.
Proof.
  split; [vm_compute; reflexivity|].
  destruct (stale_frame_turns_ir_off (uno_idle 5000000000)
              (fst (HwControl.iteration (uno_frame 1700 3000000000)
                      HwControl.start))) as [H _].
  - reflexivity.
  - vm_compute. reflexivity.
  - exact H.
Defined.

Lemma ir_command_in_step_run :
  let st := fst (HwControl.iteration (uno_frame 1700 3000000000)
                   HwControl.start) in
  let st' := fst (HwControl.iteration (uno_frame 1700 3050000000) st) in
  HwControl.prev_ir_pwr st' = HwControl.ir_pwr st' /\
  In (HwControl.SetIrPwr 50)
    (snd (HwControl.iteration (uno_frame 1700 3050000000) st)).
Proof.
  intros st st'.
  destruct (ir_command_in_step (uno_frame 1700 3050000000) st eq_refl)
    as (H1 & H2 & _).
  split; [exact H1|].
  change 50 with (HwControl.ir_pwr st') at 1.
  apply H2. right. right. vm_compute. discriminate.
Defined.

Lemma fault_list_closed_form_run :
  Faults.fault_list 32 (2 ^ 1 + 2 ^ 5 + 2 ^ 30) 0 21 = [1; 5; 0]%nat /\
  List.length (Faults.fault_list 32 (2 ^ 1 + 2 ^ 5 + 2 ^ 30) 0 21) = 3%nat.
Proof.
  destruct (fault_list_closed_form 32 (2 ^ 1 + 2 ^ 5 + 2 ^ 30) 0 21)
    as [H1 H2]; [lia|].
  split; [rewrite H1; vm_compute; reflexivity|rewrite H2; vm_compute; reflexivity].
Defined.

Lemma fault_list_exact_run :
  (forall f, In f (Faults.fault_list 32 (2 ^ 1 + 2 ^ 5) 0 21) <->
             (0 <= f <= 21)%nat
             /\ Z.testbit (2 ^ 1 + 2 ^ 5) (Z.of_nat f) = true) /\
  StronglySorted lt (Faults.fault_list 32 (2 ^ 1 + 2 ^ 5) 0 21).
Proof.
  apply (fault_list_exact 32 (2 ^ 1 + 2 ^ 5) 0 21); [lia|].
  intros f Hf Ht.
  do 32 (destruct f as [|f];
         [first [split; [apply Nat.le_0_l|apply Nat.leb_le; reflexivity]
                |vm_compute in Ht; discriminate]|]).
  exfalso. clear Ht. do 32 apply Nat.succ_lt_mono in Hf.
  exact (Nat.nlt_0_r _ Hf).
Defined.

Lemma startup_grace_run :
  ~ In (Log "ublox receive timeout")
      (snd (pigeon_iteration (gps_at true [] 10800000000)
              (fst (pigeon_iteration (Scenario.gps_input true [])
                      (Scenario.gps_locals false))))).
Proof.
  apply (startup_grace (Scenario.gps_input true [])
           (gps_at true [] 10800000000) (Scenario.gps_locals false)).
  - vm_compute. auto.
  - cbn. lia.
  - cbn. lia.
  - intros cls. cbn. lia.
Defined.

(** Ignition comes on while the receiver is being stopped: the receiver
    stays off in the iterations that follow. *)
Lemma ignition_off_iteration_run :
  snd (pigeon_iteration stop_interrupted (Scenario.gps_locals true))
  = [SendUbloxRaw [x01]; Log "powering off pigeon"; PigeonStop;
     PigeonSetPower false] /\
  pg_ignition_last
    (fst (pigeon_iteration stop_interrupted (Scenario.gps_locals true)))
  = true /\
  ~ In PigeonInit
      (snd (pigeon_run
              [Scenario.gps_input true [x01]; Scenario.gps_input true []]
              (fst (pigeon_iteration stop_interrupted
                      (Scenario.gps_locals true))))).
Proof.
  destruct (ignition_off_iteration stop_interrupted (Scenario.gps_locals true)
              eq_refl (fun _ => eq_refl) eq_refl eq_refl eq_refl)
    as (H1 & _ & H3 & H4).
  split; [exact H1|]. split; [exact H3|].
  apply H4; [reflexivity|repeat constructor].
Defined.

Lemma unfinished_run_is_prefix_run :
  (exists rest,
     commanded_sequence Scenario.ELM327 true Scenario.HONDA_NIDEC 0
     = [SetSafetyModel Main Scenario.ELM327 0;
        SetSafetyModel Aux Scenario.ELM327 0;
        SetSafetyModel Main Scenario.ELM327 1;
        SetSafetyModel Aux Scenario.ELM327 1] ++ rest) /\
  Forall (fun e => exists b p, e = SetSafetyModel b Scenario.ELM327 p)
    [SetSafetyModel Main Scenario.ELM327 0;
     SetSafetyModel Aux Scenario.ELM327 0;
     SetSafetyModel Main Scenario.ELM327 1;
     SetSafetyModel Aux Scenario.ELM327 1].
Proof.
  destruct (unfinished_run_is_prefix Scenario.ELM327 Scenario.decode
              Scenario.aux_throughout
              [Scenario.no_params; Scenario.vin_ready; Scenario.vin_ready]
              [SetSafetyModel Main Scenario.ELM327 0;
               SetSafetyModel Aux Scenario.ELM327 0;
               SetSafetyModel Main Scenario.ELM327 1;
               SetSafetyModel Aux Scenario.ELM327 1]
              Scenario.HONDA_NIDEC 0) as (_ & H2 & H3).
  - right. right. vm_compute. reflexivity.
  - split; [apply (H2 true); reflexivity|exact H3].
Defined.

Lemma first_loop_exits_run :
  safety_setter_thread Scenario.ELM327 Scenario.decode Scenario.aux_absent
    ([Scenario.no_params]
       ++ MkWorld true true (params_get Scenario.all_ready)
            (params_getBool Scenario.all_ready) :: [])
  = Cancelled [SetSafetyModel Main Scenario.ELM327 0] false /\
  safety_setter_thread Scenario.ELM327 Scenario.decode Scenario.aux_absent
    ([Scenario.no_params] ++ Scenario.world "SHORTVIN" "" false :: [])
  = AssertFailed [SetSafetyModel Main Scenario.ELM327 0].
Proof.
  split.
  - apply (first_loop_exits Scenario.ELM327 Scenario.decode
             Scenario.aux_absent [Scenario.no_params]).
    + repeat constructor.
    + left. reflexivity.
  - apply (first_loop_exits Scenario.ELM327 Scenario.decode
             Scenario.aux_absent [Scenario.no_params]
             (Scenario.world "SHORTVIN" "" false) []).
    + repeat constructor.
    + reflexivity.
    + reflexivity.
    + vm_compute. discriminate.
    + vm_compute. discriminate.
Defined.

Lemma rtc_checked_when_ignition_falls_run :
  let on := Scenario.tick_input (Scenario.health 1 Scenario.NO_OUTPUT)
              (Some (Scenario.health 0 Scenario.NO_OUTPUT)) 1005 1000 in
  let off := Scenario.tick_input (Scenario.health 0 Scenario.NO_OUTPUT)
               (Some (Scenario.health 0 Scenario.NO_OUTPUT)) 1005 1000 in
  let s := final (panda_state_tick Scenario.SILENT Scenario.NO_OUTPUT on)
             Scenario.fresh_loop in
  no_ignition_cnt
    (final (panda_state_tick Scenario.SILENT Scenario.NO_OUTPUT off) s) = 1 /\
  In (GetRtc Main)
    (trace (panda_state_tick Scenario.SILENT Scenario.NO_OUTPUT off) s) /\
  In (SetRtc Main 1000)
    (trace (panda_state_tick Scenario.SILENT Scenario.NO_OUTPUT off) s).
Proof.
  intros on off s.
  destruct (rtc_checked_when_ignition_falls Scenario.SILENT Scenario.NO_OUTPUT
              on off Scenario.fresh_loop) as [H1 H2];
    [reflexivity|reflexivity|].
  destruct (H2 eq_refl eq_refl) as [H3 H4].
  split; [exact H1|]. split; [exact H3|]. apply H4. cbn. lia.
Defined.

End Runs.
